(** * Polymarket / Kalshi arbitrage bot: the decision core, embedded in Rocq

    The development follows the TypeScript sources:
    - [core/arbitrage]      ArbitrageDetector  (detectOpportunity, determineAction,
                                                validateOpportunity)
    - [core/marketMatcher]  MarketMatcher      (matchMarkets, findMatchingKalshiMarket)
    - [core/trader]         Trader             (executeArbitrage, calculateTradeAmount)
    - [core/redeemer]       Redeemer           (checkAndRedeem, redeemPosition)
    - [index]               ArbitrageBot       (scanAndTrade)

    Numbers.  Quotes, thresholds and amounts are JavaScript numbers, that is
    IEEE 754 binary64.  The bot as a whole (matching, orders, ledger,
    redemption, the scan tick, and the detector as the orchestrator calls it)
    is carried on exact rationals [Q], with [==] for [Qeq]; there the one
    operation that can leave the finite numbers is the division in the
    profit metric, whose result lives in [JS.number], which adds the
    infinities and NaN.  Which combination the detector finds eligible, which
    action it returns, what cost it records and what it still accepts as
    valid depend on how sums and differences of quotes round; these are
    established in [Binary64], where the detector is carried on the doubles
    of the program with the operations of the format (rounding, NaN, the
    infinities and the signed zeros included). *)

From Stdlib Require Import QArith Qminmax Qabs ZArith String List Bool Lia Lqa.
From Stdlib Require Import Floats.
Import ListNotations.
Local Open Scope Q_scope.

(** ** JavaScript numbers *)

Module JS.

(** [x < y] on finite numbers. *)
Definition ltb (x y : Q) : bool := negb (Qle_bool y x).

(** [x > y] on finite numbers. *)
Definition gtb (x y : Q) : bool := ltb y x.

(** The result of an arithmetic expression that may divide by zero. *)
Inductive number : Type :=
| Fin (q : Q)
| PosInf
| NegInf
| NaN.

(** [n / d] for finite [n] and [d]. *)
Definition div (n d : Q) : number :=
  if Qeq_bool d 0 then
    if Qeq_bool n 0 then NaN else if ltb 0 n then PosInf else NegInf
  else Fin (n / d).

(** [x * q] for finite [q]. *)
Definition mulq (x : number) (q : Q) : number :=
  match x with
  | Fin a => Fin (a * q)
  | PosInf => if Qeq_bool q 0 then NaN else if ltb 0 q then PosInf else NegInf
  | NegInf => if Qeq_bool q 0 then NaN else if ltb 0 q then NegInf else PosInf
  | NaN => NaN
  end.

(** [x / q] for finite [q]. *)
Definition divq (x : number) (q : Q) : number :=
  match x with
  | Fin a => div a q
  | PosInf => if ltb q 0 then NegInf else PosInf
  | NegInf => if ltb q 0 then PosInf else NegInf
  | NaN => NaN
  end.

(** [a || b] on optional strings: [undefined] and the empty string are falsy. *)
Definition or_string (a b : option string) : option string :=
  match a with
  | Some s => if String.eqb s EmptyString then b else a
  | None => b
  end.

(** [a || b] on optional numbers: [undefined] and zero are falsy. *)
Definition or_number (a b : option Q) : option Q :=
  match a with
  | Some q => if Qeq_bool q 0 then b else a
  | None => b
  end.

End JS.

(** ** types/market *)

Record MarketPrice : Type := {
  upPrice : Q;
  downPrice : Q;
  bettedPrice : option Q;
  price_timestamp : Z
}.

(** A raw date value as the venues deliver it: absent, an epoch count in
    milliseconds, or a date string. *)
Inductive jsdate : Type :=
| DUndefined
| DNumber (ms : Z)
| DString (s : string).

Record MarketData : Type := {
  marketId : string;
  marketTitle : option string;
  endTime : jsdate;
  isResolved : bool;
  resolvedPrice : option Q;
  polymarket : MarketPrice;
  kalshi : MarketPrice
}.

Inductive OpportunityType : Type :=
| both
| poly_up_kalshi_down
| poly_down_kalshi_up.

Inductive Action : Type :=
| buy_poly_up_kalshi_down
| buy_poly_down_kalshi_up
| skip.

Record ArbitrageOpportunity : Type := {
  opp_marketId : string;
  opp_marketTitle : option string;
  opportunityType : OpportunityType;
  polyUpPrice : Q;
  polyDownPrice : Q;
  kalshiUpPrice : Q;
  kalshiDownPrice : Q;
  totalCost : Q;
  profitPotential : JS.number;
  polyBettedPrice : option Q;
  kalshiBettedPrice : option Q;
  action : Action;
  opp_timestamp : Z
}.

(** ** core/arbitrage: ArbitrageDetector *)

(** The detector on exact rationals, as the orchestrator below calls it; the
    same code on doubles is in [Binary64]. *)

Section ArbitrageDetector.

(** The constructor argument [takeProfit] (default 90). *)
Variable PROFIT_THRESHOLD : Q.

Definition determineAction (hasBoth hasPolyUpKalshiDown hasPolyDownKalshiUp : bool)
           (poly kalshi : MarketPrice) : Action :=
  let polyBetted := bettedPrice poly in
  let kalshiBetted := bettedPrice kalshi in
  if hasBoth then
    match polyBetted, kalshiBetted with
    | Some pb, Some kb =>
        if JS.gtb kb pb then buy_poly_up_kalshi_down
        else if JS.ltb kb pb then buy_poly_down_kalshi_up
        else
          let cost1 := upPrice poly + downPrice kalshi in
          let cost2 := downPrice poly + upPrice kalshi in
          if JS.ltb cost1 cost2 then buy_poly_up_kalshi_down
          else buy_poly_down_kalshi_up
    | _, _ =>
        let cost1 := upPrice poly + downPrice kalshi in
        let cost2 := downPrice poly + upPrice kalshi in
        if JS.ltb cost1 cost2 then buy_poly_up_kalshi_down
        else buy_poly_down_kalshi_up
    end
  else if hasPolyUpKalshiDown then
    match polyBetted, kalshiBetted with
    | Some pb, Some kb =>
        if JS.ltb pb kb then buy_poly_up_kalshi_down else skip
    | _, _ => skip
    end
  else if hasPolyDownKalshiUp then
    match polyBetted, kalshiBetted with
    | Some pb, Some kb =>
        if JS.gtb pb kb then buy_poly_down_kalshi_up else skip
    | _, _ => skip
    end
  else skip.

(** The profit metric [((100 - totalCost) / totalCost) * 100]. *)
Definition profit_of (totalCost : Q) : JS.number :=
  JS.mulq (JS.div (100 - totalCost) totalCost) 100.

(** [now] is the value of [Date.now()] at the call. *)
Definition detectOpportunity (now : Z) (marketData : MarketData)
  : option ArbitrageOpportunity :=
  let polymarket := polymarket marketData in
  let kalshi := kalshi marketData in
  let polyUpKalshiDown := upPrice polymarket + downPrice kalshi in
  let polyDownKalshiUp := downPrice polymarket + upPrice kalshi in
  let hasBothOpportunities :=
    JS.ltb polyUpKalshiDown PROFIT_THRESHOLD &&
    JS.ltb polyDownKalshiUp PROFIT_THRESHOLD in
  let hasPolyUpKalshiDown := JS.ltb polyUpKalshiDown PROFIT_THRESHOLD in
  let hasPolyDownKalshiUp := JS.ltb polyDownKalshiUp PROFIT_THRESHOLD in
  if negb hasPolyUpKalshiDown && negb hasPolyDownKalshiUp then None
  else
    let action :=
      determineAction hasBothOpportunities hasPolyUpKalshiDown
                      hasPolyDownKalshiUp polymarket kalshi in
    match action with
    | skip => None
    | _ =>
        let totalCost :=
          if hasBothOpportunities then Qmin polyUpKalshiDown polyDownKalshiUp
          else if hasPolyUpKalshiDown then polyUpKalshiDown
          else polyDownKalshiUp in
        let profitPotential := profit_of totalCost in
        let opportunityType :=
          if hasBothOpportunities then both
          else if hasPolyUpKalshiDown then poly_up_kalshi_down
          else poly_down_kalshi_up in
        Some {| opp_marketId := marketId marketData;
                opp_marketTitle := marketTitle marketData;
                opportunityType := opportunityType;
                polyUpPrice := upPrice polymarket;
                polyDownPrice := downPrice polymarket;
                kalshiUpPrice := upPrice kalshi;
                kalshiDownPrice := downPrice kalshi;
                totalCost := totalCost;
                profitPotential := profitPotential;
                polyBettedPrice := bettedPrice polymarket;
                kalshiBettedPrice := bettedPrice kalshi;
                action := action;
                opp_timestamp := now |}
    end.

End ArbitrageDetector.

(** The two combination costs of a matched market's quotes. *)
Definition costUpDown (md : MarketData) : Q :=
  upPrice (polymarket md) + downPrice (kalshi md).

Definition costDownUp (md : MarketData) : Q :=
  downPrice (polymarket md) + upPrice (kalshi md).

(** The cost of the combination an action buys. *)
Definition action_cost (md : MarketData) (a : Action) : Q :=
  match a with
  | buy_poly_up_kalshi_down => costUpDown md
  | buy_poly_down_kalshi_up => costDownUp md
  | skip => 0
  end.

(** ** Venue descriptors and results *)

(** A market of the Polymarket listing ([any] in the source); the fields are
    the ones the core reads. *)
Record PolyMarket : Type := {
  pm_id : string;
  pm_question : option string;
  pm_title : option string;
  pm_endDate : jsdate;
  pm_end_time : jsdate;
  pm_resolved : bool;
  pm_resolvedPrice : option Q
}.

(** A market of the Kalshi listing. *)
Record KalshiMarket : Type := {
  km_ticker : string;
  km_expiration_time : jsdate;
  km_status : option string;
  km_betted_price : option Q;
  km_series_ticker : option string
}.

Inductive Platform : Type := platform_polymarket | platform_kalshi.
Inductive Side : Type := side_up | side_down.
Inductive TradeStatus : Type := pending | filled | failed.

Record Trade : Type := {
  trade_id : string;
  trade_marketId : string;
  platform : Platform;
  side : Side;
  trade_amount : Q;
  trade_price : Q;
  trade_timestamp : Z;
  trade_status : TradeStatus;
  txHash : option string
}.

Inductive PositionStatus : Type := active | redeemed | expired.

Record Position : Type := {
  pos_marketId : string;
  polyUp : Q;
  polyDown : Q;
  kalshiUp : Q;
  kalshiDown : Q;
  pos_totalCost : Q;
  expectedProfit : JS.number;
  status : PositionStatus
}.

(** [position.status = s]: the one field of a Position that is ever assigned. *)
Definition set_status (s : PositionStatus) (p : Position) : Position :=
  {| pos_marketId := pos_marketId p;
     polyUp := polyUp p;
     polyDown := polyDown p;
     kalshiUp := kalshiUp p;
     kalshiDown := kalshiDown p;
     pos_totalCost := pos_totalCost p;
     expectedProfit := expectedProfit p;
     status := s |}.

Definition is_active (p : Position) : bool :=
  match status p with active => true | _ => false end.

(** The outcome tokens of the two venues. *)
Inductive PolyOutcome : Type := YES | NO.
Inductive KalshiSide : Type := yes | no.

(** ** Promises and the venue clients *)

(** A settled promise. *)
Inductive settled (A : Type) : Type :=
| fulfilled (value : A)
| rejected.
Arguments fulfilled {A} value.
Arguments rejected {A}.

(** One call to a venue client together with the way its promise settled. *)
Inductive event : Type :=
| PolyGetActiveBTCMarkets (r : settled (list PolyMarket))
| KalshiGetActiveBTCMarkets (r : settled (list KalshiMarket))
| PolyGetMarketPrices (id : string) (r : settled MarketPrice)
| KalshiGetMarketPrices (id : string) (r : settled MarketPrice)
| PolyBuyToken (id : string) (outcome : PolyOutcome) (amount maxPrice : Q)
               (r : settled Trade)
| KalshiBuyToken (id : string) (side : KalshiSide) (amount maxPrice : Q)
                 (r : settled Trade)
| PolyIsMarketResolved (id : string) (r : settled bool)
| KalshiIsMarketResolved (id : string) (r : settled bool)
| PolyRedeemTokens (id : string) (outcome : PolyOutcome) (r : settled bool)
| KalshiRedeemTokens (id : string) (side : KalshiSide) (r : settled bool).

Definition history : Type := list event.

(** The venue clients are opaque to the core.  Each method is a function of
    the calls made so far, so a venue may answer the same call differently
    over time. *)
Record PolymarketClient : Type := {
  p_getMarketPrices : history -> string -> settled MarketPrice;
  p_getActiveBTCMarkets : history -> settled (list PolyMarket);
  p_buyToken : history -> string -> PolyOutcome -> Q -> Q -> settled Trade;
  p_isMarketResolved : history -> string -> settled bool;
  p_redeemTokens : history -> string -> PolyOutcome -> settled bool
}.

Record KalshiClient : Type := {
  k_getMarketPrices : history -> string -> settled MarketPrice;
  k_getActiveBTCMarkets : history -> settled (list KalshiMarket);
  k_buyToken : history -> string -> KalshiSide -> Q -> Q -> settled Trade;
  k_isMarketResolved : history -> string -> settled bool;
  k_redeemTokens : history -> string -> KalshiSide -> settled bool
}.

(** The parts of the JavaScript runtime the core reads: [Date.now()] and the
    parsing of date strings by [new Date(s).getTime()] ([None] is NaN). *)
Record Runtime : Type := {
  date_now : history -> Z;
  date_parse : string -> option Z
}.

(** ** The bot's state and its monad *)

(** [positions] is the array shared by the scan loop and the redeemer; [log]
    records the venue calls made so far. *)
Record World : Type := {
  positions : list Position;
  log : history
}.

Inductive outcome (A : Type) : Type :=
| returned (a : A)
| thrown.
Arguments returned {A} a.
Arguments thrown {A}.

Definition M (A : Type) : Type := World -> outcome A * World.

Definition ret {A} (a : A) : M A := fun w => (returned a, w).

Definition throw {A} : M A := fun w => (thrown, w).

Definition bind {A B} (m : M A) (k : A -> M B) : M B :=
  fun w =>
    match m w with
    | (returned a, w') => k a w'
    | (thrown, w') => (thrown, w')
    end.

(** [try { m } catch (error) { handler }] *)
Definition try_catch {A} (m handler : M A) : M A :=
  fun w =>
    match m w with
    | (returned a, w') => (returned a, w')
    | (thrown, w') => handler w'
    end.

Declare Scope bot_scope.
Delimit Scope bot_scope with bot.
Notation "x <- m ;; k" := (bind m (fun x => k))
  (at level 61, m at next level, right associativity) : bot_scope.
Notation "m ;;; k" := (bind m (fun _ => k))
  (at level 61, right associativity) : bot_scope.
Local Open Scope bot_scope.

(** A venue call: ask the client, record the call and its settlement. *)
Definition call {A} (answer : history -> settled A) (ev : settled A -> event)
  : M (settled A) :=
  fun w =>
    let r := answer (log w) in
    (returned r, {| positions := positions w; log := log w ++ [ev r] |}).

(** [await] of a settled promise. *)
Definition await {A} (r : settled A) : M A :=
  match r with
  | fulfilled v => ret v
  | rejected => throw
  end.

(** [await Promise.all([a, b])]: both calls are started, then either
    rejection is thrown. *)
Definition promise_all2 {A B} (a : M (settled A)) (b : M (settled B)) : M (A * B) :=
  ra <- a ;;
  rb <- b ;;
  va <- await ra ;;
  vb <- await rb ;;
  ret (va, vb).

(** [await Promise.allSettled([a, b])] *)
Definition promise_allSettled2 {A B} (a : M (settled A)) (b : M (settled B))
  : M (settled A * settled B) :=
  ra <- a ;;
  rb <- b ;;
  ret (ra, rb).

(** [await Promise.allSettled(promises)] *)
Fixpoint promise_allSettled {A} (promises : list (M (settled A)))
  : M (list (settled A)) :=
  match promises with
  | [] => ret []
  | p :: rest =>
      r <- p ;;
      rs <- promise_allSettled rest ;;
      ret (r :: rs)
  end.

Definition get_positions : M (list Position) :=
  fun w => (returned (positions w), w).

(** [this.positions.push(position)] *)
Definition push_position (p : Position) : M unit :=
  fun w => (returned tt, {| positions := positions w ++ [p]; log := log w |}).

(** Replace the element at index [i], if there is one. *)
Fixpoint update_nth {A} (i : nat) (f : A -> A) (l : list A) {struct l} : list A :=
  match l, i with
  | [], _ => []
  | x :: rest, O => f x :: rest
  | x :: rest, S j => x :: update_nth j f rest
  end.

(** [position.status = s] for the Position object stored at index [i]. *)
Definition assign_status (i : nat) (s : PositionStatus) : M unit :=
  fun w =>
    (returned tt,
     {| positions := update_nth i (set_status s) (positions w); log := log w |}).

(** Configuration read from the process environment. *)
Record TraderConfig : Type := {
  minTradeAmount : Q;
  maxTradeAmount : Q;
  TRADE_PERCENTAGE : Q
}.

Record BotConfig : Type := {
  TAKE_PROFIT : Q;
  trader : TraderConfig;
  AVAILABLE_BALANCE : Q
}.

(** [s.includes(sub)] *)
Fixpoint includes (s sub : string) : bool :=
  String.prefix sub s ||
  match s with
  | EmptyString => false
  | String _ rest => includes rest sub
  end.

Section Bot.

Variable runtime : Runtime.
Variable polymarketClient : PolymarketClient.
Variable kalshiClient : KalshiClient.

(** [Date.now()] *)
Definition now : M Z :=
  fun w => (returned (date_now runtime (log w)), w).

(** ** core/marketMatcher: MarketMatcher *)

Definition date_truthy (d : jsdate) : bool :=
  match d with
  | DUndefined => false
  | DNumber ms => negb (ms =? 0)%Z
  | DString s => negb (String.eqb s EmptyString)
  end.

(** [a || b] on raw date values. *)
Definition or_date (a b : jsdate) : jsdate :=
  if date_truthy a then a else b.

(** [new Date(d).getTime()]: a millisecond count, or NaN ([None]). *)
Definition getTime (d : jsdate) : option Z :=
  match d with
  | DUndefined => None
  | DNumber ms => if (Z.abs ms <=? 8640000000000000)%Z then Some ms else None
  | DString s => date_parse runtime s
  end.

(** [Math.abs(a - b)] on time values. *)
Definition abs_diff (a b : option Z) : option Z :=
  match a, b with
  | Some x, Some y => Some (Z.abs (x - y))
  | _, _ => None
  end.

(** [t < bound]; false on NaN. *)
Definition time_ltb (t : option Z) (bound : Z) : bool :=
  match t with
  | Some v => (v <? bound)%Z
  | None => false
  end.

(** The test of the loop body of [findMatchingKalshiMarket]. *)
Definition kalshi_matches (polyEndTime : option Z) (kalshiMarket : KalshiMarket)
  : bool :=
  let kalshiEndTime := getTime (km_expiration_time kalshiMarket) in
  let timeDiff := abs_diff polyEndTime kalshiEndTime in
  time_ltb timeDiff 60000 &&
  match km_series_ticker kalshiMarket with
  | Some s => includes s "BTC-15M"
  | None => false
  end.

Definition findMatchingKalshiMarket (polyMarket : PolyMarket)
           (kalshiMarkets : list KalshiMarket) : option KalshiMarket :=
  let polyEndTime :=
    getTime (or_date (pm_endDate polyMarket) (pm_end_time polyMarket)) in
  find (kalshi_matches polyEndTime) kalshiMarkets.

Definition status_is_resolved (s : option string) : bool :=
  match s with
  | Some v => String.eqb v "resolved"
  | None => false
  end.

(** The record pushed for a matched pair. *)
Definition matched_market (polyMarket : PolyMarket) (kalshiMarket : KalshiMarket)
           (polyPrices kalshiPrices : MarketPrice) : MarketData :=
  {| marketId := pm_id polyMarket;
     marketTitle := JS.or_string (pm_question polyMarket) (pm_title polyMarket);
     endTime := or_date (pm_endDate polyMarket) (km_expiration_time kalshiMarket);
     isResolved :=
       pm_resolved polyMarket || status_is_resolved (km_status kalshiMarket);
     resolvedPrice :=
       JS.or_number (pm_resolvedPrice polyMarket) (km_betted_price kalshiMarket);
     polymarket := polyPrices;
     kalshi := kalshiPrices |}.

(** The [for (const polyMarket of polyMarkets)] loop of [matchMarkets]. *)
Fixpoint match_loop (polyMarkets : list PolyMarket)
         (kalshiMarkets : list KalshiMarket) (matchedMarkets : list MarketData)
  : M (list MarketData) :=
  match polyMarkets with
  | [] => ret matchedMarkets
  | polyMarket :: rest =>
      match findMatchingKalshiMarket polyMarket kalshiMarkets with
      | Some kalshiMarket =>
          prices <-
            promise_all2
              (call (fun h => p_getMarketPrices polymarketClient h (pm_id polyMarket))
                    (PolyGetMarketPrices (pm_id polyMarket)))
              (call (fun h => k_getMarketPrices kalshiClient h (km_ticker kalshiMarket))
                    (KalshiGetMarketPrices (km_ticker kalshiMarket))) ;;
          match_loop rest kalshiMarkets
            (matchedMarkets ++
             [matched_market polyMarket kalshiMarket (fst prices) (snd prices)])
      | None => match_loop rest kalshiMarkets matchedMarkets
      end
  end.

Definition matchMarkets : M (list MarketData) :=
  try_catch
    (markets <-
       promise_all2
         (call (p_getActiveBTCMarkets polymarketClient) PolyGetActiveBTCMarkets)
         (call (k_getActiveBTCMarkets kalshiClient) KalshiGetActiveBTCMarkets) ;;
     match_loop (fst markets) (snd markets) [])
    (ret []).

(** ** core/trader: Trader *)

Section Trader.

Variable config : TraderConfig.

(** [let trade = null; if (result.status === 'fulfilled') trade = result.value] *)
Definition fulfilled_value {A} (r : settled A) : option A :=
  match r with
  | fulfilled v => Some v
  | rejected => None
  end.

(** The two order placements of one branch of [executeArbitrage]. *)
Definition place_legs (id : string) (outcome : PolyOutcome) (polyPrice : Q)
           (kside : KalshiSide) (kalshiPrice : Q) (amount : Q)
  : M (option Trade * option Trade) :=
  results <-
    promise_allSettled2
      (call (fun h => p_buyToken polymarketClient h id outcome amount polyPrice)
            (PolyBuyToken id outcome amount polyPrice))
      (call (fun h => k_buyToken kalshiClient h id kside amount kalshiPrice)
            (KalshiBuyToken id kside amount kalshiPrice)) ;;
  ret (fulfilled_value (fst results), fulfilled_value (snd results)).

(** The Position record built when both trades are present. *)
Definition new_position (opportunity : ArbitrageOpportunity) (amount : Q)
  : Position :=
  {| pos_marketId := opp_marketId opportunity;
     polyUp :=
       match action opportunity with buy_poly_up_kalshi_down => amount | _ => 0 end;
     polyDown :=
       match action opportunity with buy_poly_down_kalshi_up => amount | _ => 0 end;
     kalshiUp :=
       match action opportunity with buy_poly_down_kalshi_up => amount | _ => 0 end;
     kalshiDown :=
       match action opportunity with buy_poly_up_kalshi_down => amount | _ => 0 end;
     pos_totalCost := totalCost opportunity * amount / 100;
     expectedProfit := JS.divq (JS.mulq (profitPotential opportunity) amount) 100;
     status := active |}.

Definition executeArbitrage (opportunity : ArbitrageOpportunity) (amount : Q)
  : M (option Position) :=
  if JS.ltb amount (minTradeAmount config) || JS.gtb amount (maxTradeAmount config)
  then ret None
  else
    try_catch
      (trades <-
         match action opportunity with
         | buy_poly_up_kalshi_down =>
             place_legs (opp_marketId opportunity)
                        YES (polyUpPrice opportunity)
                        no (kalshiDownPrice opportunity) amount
         | buy_poly_down_kalshi_up =>
             place_legs (opp_marketId opportunity)
                        NO (polyDownPrice opportunity)
                        yes (kalshiUpPrice opportunity) amount
         | skip => ret (None, None)
         end ;;
       match trades with
       | (Some _, Some _) => ret (Some (new_position opportunity amount))
       | _ => ret None
       end)
      (ret None).

Definition calculateTradeAmount (opportunity : ArbitrageOpportunity)
           (availableBalance : Q) : Q :=
  let percentage := TRADE_PERCENTAGE config in
  let calculatedAmount := availableBalance * percentage in
  Qmin (Qmax calculatedAmount (minTradeAmount config)) (maxTradeAmount config).

End Trader.

(** ** core/redeemer: Redeemer *)

(** The redemption calls [redeemPosition] pushes, in order. *)
Definition redeem_promises (position : Position) : list (M (settled bool)) :=
  let id := pos_marketId position in
  (if JS.gtb (polyUp position) 0
   then [call (fun h => p_redeemTokens polymarketClient h id YES)
              (PolyRedeemTokens id YES)]
   else []) ++
  (if JS.gtb (polyDown position) 0
   then [call (fun h => p_redeemTokens polymarketClient h id NO)
              (PolyRedeemTokens id NO)]
   else []) ++
  (if JS.gtb (kalshiUp position) 0
   then [call (fun h => k_redeemTokens kalshiClient h id yes)
              (KalshiRedeemTokens id yes)]
   else []) ++
  (if JS.gtb (kalshiDown position) 0
   then [call (fun h => k_redeemTokens kalshiClient h id no)
              (KalshiRedeemTokens id no)]
   else []).

(** [r.status === 'fulfilled' && r.value === true] *)
Definition succeeded (r : settled bool) : bool :=
  match r with
  | fulfilled true => true
  | _ => false
  end.

(** [i] is the index of [position] in the shared array. *)
Definition redeemPosition (i : nat) (position : Position) : M unit :=
  try_catch
    (results <- promise_allSettled (redeem_promises position) ;;
     let allSucceeded := forallb succeeded results in
     if allSucceeded then assign_status i redeemed else ret tt)
    (ret tt).

(** The body of the loop of [checkAndRedeem] for the Position at index [i]. *)
Definition check_position (i : nat) (position : Position) : M unit :=
  if negb (is_active position) then ret tt
  else
    try_catch
      (resolved <-
         promise_all2
           (call (fun h => p_isMarketResolved polymarketClient h (pos_marketId position))
                 (PolyIsMarketResolved (pos_marketId position)))
           (call (fun h => k_isMarketResolved kalshiClient h (pos_marketId position))
                 (KalshiIsMarketResolved (pos_marketId position))) ;;
       if fst resolved && snd resolved then redeemPosition i position else ret tt)
      (ret tt).

(** [for (const position of positions)], from index [i], at most [n] elements. *)
Fixpoint check_from (i n : nat) : M unit :=
  match n with
  | O => ret tt
  | S n' =>
      ps <- get_positions ;;
      match nth_error ps i with
      | Some position => check_position i position ;;; check_from (S i) n'
      | None => ret tt
      end
  end.

Definition checkAndRedeem : M unit :=
  ps <- get_positions ;;
  check_from 0 (length ps).

(** ** index: ArbitrageBot *)

Section ArbitrageBot.

Variable bot : BotConfig.

(** The body of the loop of [scanAndTrade] for one matched market. *)
Definition scan_market (market : MarketData) : M unit :=
  if isResolved market then ret tt
  else
    t <- now ;;
    match detectOpportunity (TAKE_PROFIT bot) t market with
    | Some opportunity =>
        ps <- get_positions ;;
        let existingPosition :=
          find (fun p => String.eqb (pos_marketId p) (opp_marketId opportunity)) ps in
        if match existingPosition with
           | Some p => is_active p
           | None => false
           end
        then ret tt
        else
          let availableBalance := AVAILABLE_BALANCE bot in
          let tradeAmount :=
            calculateTradeAmount (trader bot) opportunity availableBalance in
          position <- executeArbitrage (trader bot) opportunity tradeAmount ;;
          match position with
          | Some p => push_position p
          | None => ret tt
          end
    | None => ret tt
    end.

Fixpoint scan_loop (matchedMarkets : list MarketData) : M unit :=
  match matchedMarkets with
  | [] => ret tt
  | market :: rest => scan_market market ;;; scan_loop rest
  end.

Definition scanAndTrade : M unit :=
  try_catch
    (matchedMarkets <- matchMarkets ;;
     if (length matchedMarkets =? 0)%nat then ret tt
     else scan_loop matchedMarkets)
    (ret tt).

(** One firing of the scan loop or of the redemption timer. *)
Inductive tick : Type := Scan | Poll.

Definition run_tick (t : tick) (w : World) : World :=
  match t with
  | Scan => snd (scanAndTrade w)
  | Poll => snd (checkAndRedeem w)
  end.

Definition run (ticks : list tick) (w : World) : World :=
  fold_left (fun w t => run_tick t w) ticks w.

End ArbitrageBot.

End Bot.

(** The bot starts with an empty ledger and no venue call made. *)
Definition initial : World := {| positions := []; log := [] |}.

(** * More of the program *)

(** ** index: getPositionsSummary *)

(** [x + y] on numbers that may be infinite or NaN. *)
Definition number_add (x y : JS.number) : JS.number :=
  match x, y with
  | JS.NaN, _ => JS.NaN
  | _, JS.NaN => JS.NaN
  | JS.Fin a, JS.Fin b => JS.Fin (a + b)
  | JS.Fin _, inf => inf
  | inf, JS.Fin _ => inf
  | JS.PosInf, JS.PosInf => JS.PosInf
  | JS.NegInf, JS.NegInf => JS.NegInf
  | JS.PosInf, JS.NegInf => JS.NaN
  | JS.NegInf, JS.PosInf => JS.NaN
  end.

(** The four values [getPositionsSummary] prints, before formatting. *)
Record PositionsSummary : Type := {
  summary_active : nat;
  summary_redeemed : nat;
  summary_totalCost : Q;
  summary_expectedProfit : JS.number
}.

Definition is_redeemed (p : Position) : bool :=
  match status p with redeemed => true | _ => false end.

Definition getPositionsSummary (positions : list Position) : PositionsSummary :=
  let active := filter is_active positions in
  let redeemed := filter is_redeemed positions in
  {| summary_active := length active;
     summary_redeemed := length redeemed;
     summary_totalCost :=
       fold_left (fun sum p => sum + pos_totalCost p) positions 0;
     summary_expectedProfit :=
       fold_left (fun sum p => number_add sum (expectedProfit p)) positions (JS.Fin 0) |}.

(** ** clients/kalshi: KalshiClient over the kalshi-typescript SDK *)

(** The market object of [MarketApi.getMarket]; the fields the client reads. *)
Record KalshiMarketInfo : Type := {
  yes_ask : option Q;
  yes_bid : option Q;
  no_ask : option Q;
  no_bid : option Q;
  info_betted_price : option Q;
  info_status : option string
}.

(** The argument of [OrdersApi.createOrder]. *)
Record KalshiOrderRequest : Type := {
  req_ticker : string;
  req_side : KalshiSide;
  req_action : string;
  req_count : Q;
  req_type : string;
  req_time_in_force : string;
  req_yes_price : option Q;
  req_no_price : option Q
}.

(** The [order] of a [createOrder] response. *)
Record KalshiOrder : Type := {
  order_id : option string;
  order_status : option string
}.

(** One page of [MarketApi.getMarkets]. *)
Record KalshiMarketsPage : Type := {
  page_markets : option (list KalshiMarket);
  page_cursor : option string
}.

(** The SDK is opaque to the client.  [sdk_getMarkets] also sees the cursors
    requested so far, so it may answer the same cursor differently. *)
Record KalshiSdk : Type := {
  sdk_getMarket : history -> string -> settled (option KalshiMarketInfo);
  sdk_getMarkets :
    history -> list (option string) -> option string -> settled KalshiMarketsPage;
  sdk_createOrder : history -> KalshiOrderRequest -> settled (option KalshiOrder)
}.

(** [a || d] for an optional number [a] and a number [d]. *)
Definition number_or (a : option Q) (d : Q) : Q :=
  match a with
  | Some q => if Qeq_bool q 0 then d else q
  | None => d
  end.

(** [a || d] for an optional string [a] and a string [d]. *)
Definition string_or (a : option string) (d : string) : string :=
  match a with
  | Some s => if String.eqb s EmptyString then d else s
  | None => d
  end.

Section KalshiClient.

Variable runtime : Runtime.
Variable sdk : KalshiSdk.

Definition kalshi_getMarketPrices (h : history) (marketId : string)
  : settled MarketPrice :=
  match sdk_getMarket sdk h marketId with
  | fulfilled (Some market) =>
      let upPrice := number_or (yes_ask market) (number_or (yes_bid market) 50) in
      let downPrice := number_or (no_ask market) (number_or (no_bid market) 50) in
      let bettedPrice := JS.or_number (info_betted_price market) None in
      fulfilled {| upPrice := upPrice;
                   downPrice := downPrice;
                   bettedPrice := bettedPrice;
                   price_timestamp := date_now runtime h |}
  | fulfilled None => rejected
  | rejected => rejected
  end.

(** The request [buyToken] sends. *)
Definition kalshi_order_request (marketId : string) (side : KalshiSide)
           (amount maxPrice : Q) : KalshiOrderRequest :=
  let price := Qmax 1 (Qmin 99 maxPrice) in
  {| req_ticker := marketId;
     req_side := side;
     req_action := "buy";
     req_count := amount;
     req_type := "limit";
     req_time_in_force := "good_till_canceled";
     req_yes_price := match side with yes => Some price | no => None end;
     req_no_price := match side with yes => None | no => Some price end |}.

Definition kalshi_buyToken (h : history) (marketId : string) (side : KalshiSide)
           (amount maxPrice : Q) : settled Trade :=
  match sdk_createOrder sdk h (kalshi_order_request marketId side amount maxPrice) with
  | fulfilled order =>
      let orderId :=
        string_or (match order with Some o => order_id o | None => None end)
                  "unknown" in
      fulfilled
        {| trade_id := orderId;
           trade_marketId := marketId;
           platform := platform_kalshi;
           side := match side with yes => side_up | no => side_down end;
           trade_amount := amount;
           trade_price := maxPrice;
           trade_timestamp := date_now runtime h;
           trade_status :=
             match order with
             | Some o =>
                 match order_status o with
                 | Some s => if String.eqb s "filled" then filled else pending
                 | None => pending
                 end
             | None => pending
             end;
           txHash := Some orderId |}
  | rejected => rejected
  end.

Definition kalshi_isMarketResolved (h : history) (marketId : string)
  : settled bool :=
  match sdk_getMarket sdk h marketId with
  | fulfilled (Some market) => fulfilled (status_is_resolved (info_status market))
  | fulfilled None => fulfilled false
  | rejected => fulfilled false
  end.

Definition kalshi_redeemTokens (h : history) (marketId : string) (side : KalshiSide)
  : settled bool :=
  match kalshi_isMarketResolved h marketId with
  | fulfilled isResolved => if negb isResolved then fulfilled false else fulfilled true
  | rejected => fulfilled false
  end.

(** The [do ... while] loop of [getActiveBTCMarkets]: [requests] are the
    cursors asked so far.  [None] when [fuel] iterations were not enough. *)
Fixpoint fetch_pages (fuel : nat) (h : history) (requests : list (option string))
         (allMarkets : list KalshiMarket) (cursor : option string)
  : option (settled (list KalshiMarket) * list (option string)) :=
  match fuel with
  | O => None
  | S fuel' =>
      match sdk_getMarkets sdk h requests cursor with
      | rejected => Some (rejected, requests ++ [cursor])
      | fulfilled response =>
          let markets :=
            match page_markets response with Some ms => ms | None => [] end in
          let pageSize := length markets in
          let allMarkets' := allMarkets ++ markets in
          let cursor' := JS.or_string (page_cursor response) None in
          if match cursor' with None => true | Some _ => false end ||
             (1000 <=? length allMarkets')%nat
          then Some (fulfilled allMarkets', requests ++ [cursor])
          else if (pageSize =? 200)%nat
               then fetch_pages fuel' h (requests ++ [cursor]) allMarkets' cursor'
               else Some (fulfilled allMarkets', requests ++ [cursor])
      end
  end.

(** Five iterations always end the loop (see [kalshi_listing_terminates]). *)
Definition kalshi_getActiveBTCMarkets (h : history) : settled (list KalshiMarket) :=
  match fetch_pages 5 h [] [] None with
  | Some (result, _) => result
  | None => rejected
  end.

(** The client the core is given. *)
Definition kalshiClient : KalshiClient :=
  {| k_getMarketPrices := kalshi_getMarketPrices;
     k_getActiveBTCMarkets := kalshi_getActiveBTCMarkets;
     k_buyToken := kalshi_buyToken;
     k_isMarketResolved := kalshi_isMarketResolved;
     k_redeemTokens := kalshi_redeemTokens |}.

End KalshiClient.

(** ** clients/polymarket: resolution and redemption over the CLOB client *)

(** A market of [ClobClient.getMarkets]; the fields the client reads. *)
Record ClobMarket : Type := {
  clob_conditionId : option string;
  clob_id : option string;
  clob_resolved : bool;
  clob_status : option string;
  clob_outcomeTokens : option (list string);
  clob_tokens : option (list string)
}.

(** The CLOB client: its initialisation ([ensureClient]) and the two methods
    used here.  [clob_redeemPosition] answers [None] for [null]. *)
Record ClobSdk : Type := {
  clob_ensureClient : history -> settled unit;
  clob_getMarkets : history -> settled (list ClobMarket);
  clob_redeemPosition : history -> string -> settled (option unit)
}.

(** [m.conditionId === marketId || m.id === marketId] *)
Definition clob_market_is (marketId : string) (m : ClobMarket) : bool :=
  match clob_conditionId m with
  | Some c => String.eqb c marketId
  | None => false
  end ||
  match clob_id m with
  | Some i => String.eqb i marketId
  | None => false
  end.

(** [tokens?.[i]] *)
Definition token_at (tokens : option (list string)) (i : nat) : option string :=
  match tokens with
  | Some l => nth_error l i
  | None => None
  end.

(** [market.outcomeTokens?.[i] || market.tokens?.[i] || marketId], with
    [i = 0] for YES and [i = 1] for NO. *)
Definition clob_token_id (market : ClobMarket) (outcome : PolyOutcome)
           (marketId : string) : string :=
  let i := match outcome with YES => 0%nat | NO => 1%nat end in
  string_or (token_at (clob_outcomeTokens market) i)
            (string_or (token_at (clob_tokens market) i) marketId).

Section PolymarketClient.

Variable clob : ClobSdk.

Definition poly_isMarketResolved (h : history) (marketId : string) : settled bool :=
  match clob_ensureClient clob h with
  | rejected => fulfilled false
  | fulfilled _ =>
      match clob_getMarkets clob h with
      | rejected => fulfilled false
      | fulfilled markets =>
          match find (clob_market_is marketId) markets with
          | None => fulfilled false
          | Some market =>
              fulfilled (clob_resolved market || status_is_resolved (clob_status market))
          end
      end
  end.

Definition poly_redeemTokens (h : history) (marketId : string) (outcome : PolyOutcome)
  : settled bool :=
  match clob_ensureClient clob h with
  | rejected => fulfilled false
  | fulfilled _ =>
      match clob_getMarkets clob h with
      | rejected => fulfilled false
      | fulfilled markets =>
          match find (clob_market_is marketId) markets with
          | None => fulfilled false
          | Some market =>
              let tokenId := clob_token_id market outcome marketId in
              match clob_redeemPosition clob h tokenId with
              | fulfilled result =>
                  fulfilled (match result with Some _ => true | None => false end)
              | rejected => fulfilled false
              end
          end
      end
  end.

End PolymarketClient.

(** ** core/arbitrage in binary64 *)

(** The detector decides by comparing sums of quotes with the threshold, and
    the comparison is sensitive to the rounding of the sum: venue A's price
    [0.57 * 100] is the double [56.999999999999993], and adding 33 to it
    gives exactly 90.  This module carries the detector on IEEE 754 binary64
    numbers, the numbers of the program: [+], [-], [*], [/], [<] and
    [Math.abs] are the operations of the format, NaN and the signed zeros
    included. *)

Module Binary64.

(** [Math.min(a, b)]: NaN when either argument is NaN, and [-0] below [+0]. *)
Definition Math_min (a b : float) : float :=
  if is_nan a || is_nan b then nan
  else if (a <? b)%float then a
  else if (b <? a)%float then b
  else if get_sign a then a else b.

(** The comparison of two doubles, read off the specification of the format. *)
Definition cmp (a b : float) : option comparison :=
  SFcompare (Prim2SF a) (Prim2SF b).

(** [x > y]. *)
Definition gtb (x y : float) : bool := (y <? x)%float.

Record MarketPrice : Type := {
  upPrice : float;
  downPrice : float;
  bettedPrice : option float;
  price_timestamp : Z
}.

Record MarketData : Type := {
  marketId : string;
  marketTitle : option string;
  endTime : jsdate;
  isResolved : bool;
  resolvedPrice : option float;
  polymarket : MarketPrice;
  kalshi : MarketPrice
}.

Record ArbitrageOpportunity : Type := {
  opp_marketId : string;
  opp_marketTitle : option string;
  opportunityType : OpportunityType;
  polyUpPrice : float;
  polyDownPrice : float;
  kalshiUpPrice : float;
  kalshiDownPrice : float;
  totalCost : float;
  profitPotential : float;
  polyBettedPrice : option float;
  kalshiBettedPrice : option float;
  action : Action;
  opp_timestamp : Z
}.

Section ArbitrageDetector.

(** The constructor argument [takeProfit] (default 90). *)
Variable PROFIT_THRESHOLD : float.

Definition determineAction (hasBoth hasPolyUpKalshiDown hasPolyDownKalshiUp : bool)
           (poly kalshi : MarketPrice) : Action :=
  let polyBetted := bettedPrice poly in
  let kalshiBetted := bettedPrice kalshi in
  if hasBoth then
    match polyBetted, kalshiBetted with
    | Some pb, Some kb =>
        if gtb kb pb then buy_poly_up_kalshi_down
        else if (kb <? pb)%float then buy_poly_down_kalshi_up
        else
          let cost1 := (upPrice poly + downPrice kalshi)%float in
          let cost2 := (downPrice poly + upPrice kalshi)%float in
          if (cost1 <? cost2)%float then buy_poly_up_kalshi_down
          else buy_poly_down_kalshi_up
    | _, _ =>
        let cost1 := (upPrice poly + downPrice kalshi)%float in
        let cost2 := (downPrice poly + upPrice kalshi)%float in
        if (cost1 <? cost2)%float then buy_poly_up_kalshi_down
        else buy_poly_down_kalshi_up
    end
  else if hasPolyUpKalshiDown then
    match polyBetted, kalshiBetted with
    | Some pb, Some kb =>
        if (pb <? kb)%float then buy_poly_up_kalshi_down else skip
    | _, _ => skip
    end
  else if hasPolyDownKalshiUp then
    match polyBetted, kalshiBetted with
    | Some pb, Some kb =>
        if gtb pb kb then buy_poly_down_kalshi_up else skip
    | _, _ => skip
    end
  else skip.

(** The profit metric [((100 - totalCost) / totalCost) * 100]. *)
Definition profit_of (totalCost : float) : float :=
  ((100 - totalCost) / totalCost * 100)%float.

(** [now] is the value of [Date.now()] at the call. *)
Definition detectOpportunity (now : Z) (marketData : MarketData)
  : option ArbitrageOpportunity :=
  let polymarket := polymarket marketData in
  let kalshi := kalshi marketData in
  let polyUpKalshiDown := (upPrice polymarket + downPrice kalshi)%float in
  let polyDownKalshiUp := (downPrice polymarket + upPrice kalshi)%float in
  let hasBothOpportunities :=
    (polyUpKalshiDown <? PROFIT_THRESHOLD)%float &&
    (polyDownKalshiUp <? PROFIT_THRESHOLD)%float in
  let hasPolyUpKalshiDown := (polyUpKalshiDown <? PROFIT_THRESHOLD)%float in
  let hasPolyDownKalshiUp := (polyDownKalshiUp <? PROFIT_THRESHOLD)%float in
  if negb hasPolyUpKalshiDown && negb hasPolyDownKalshiUp then None
  else
    let action :=
      determineAction hasBothOpportunities hasPolyUpKalshiDown
                      hasPolyDownKalshiUp polymarket kalshi in
    match action with
    | skip => None
    | _ =>
        let totalCost :=
          if hasBothOpportunities then Math_min polyUpKalshiDown polyDownKalshiUp
          else if hasPolyUpKalshiDown then polyUpKalshiDown
          else polyDownKalshiUp in
        let profitPotential := profit_of totalCost in
        let opportunityType :=
          if hasBothOpportunities then both
          else if hasPolyUpKalshiDown then poly_up_kalshi_down
          else poly_down_kalshi_up in
        Some {| opp_marketId := marketId marketData;
                opp_marketTitle := marketTitle marketData;
                opportunityType := opportunityType;
                polyUpPrice := upPrice polymarket;
                polyDownPrice := downPrice polymarket;
                kalshiUpPrice := upPrice kalshi;
                kalshiDownPrice := downPrice kalshi;
                totalCost := totalCost;
                profitPotential := profitPotential;
                polyBettedPrice := bettedPrice polymarket;
                kalshiBettedPrice := bettedPrice kalshi;
                action := action;
                opp_timestamp := now |}
    end.

Definition validateOpportunity (opportunity : ArbitrageOpportunity)
           (currentPoly currentKalshi : MarketPrice) : bool :=
  let priceChangeThreshold := 2%float in
  let polyUpDiff := abs (upPrice currentPoly - polyUpPrice opportunity) in
  let polyDownDiff := abs (downPrice currentPoly - polyDownPrice opportunity) in
  let kalshiUpDiff := abs (upPrice currentKalshi - kalshiUpPrice opportunity) in
  let kalshiDownDiff :=
    abs (downPrice currentKalshi - kalshiDownPrice opportunity) in
  (polyUpDiff <? priceChangeThreshold)%float &&
  (polyDownDiff <? priceChangeThreshold)%float &&
  (kalshiUpDiff <? priceChangeThreshold)%float &&
  (kalshiDownDiff <? priceChangeThreshold)%float.

End ArbitrageDetector.

(** The two combination costs of a matched market's quotes, as computed. *)
Definition costUpDown (md : MarketData) : float :=
  (upPrice (polymarket md) + downPrice (kalshi md))%float.

Definition costDownUp (md : MarketData) : float :=
  (downPrice (polymarket md) + upPrice (kalshi md))%float.

(** The cost of the combination an action buys. *)
Definition action_cost (md : MarketData) (a : Action) : float :=
  match a with
  | buy_poly_up_kalshi_down => costUpDown md
  | buy_poly_down_kalshi_up => costDownUp md
  | skip => 0%float
  end.

(** Both settlement prices are present and related by [R]. *)
Definition settlement_prices (R : float -> float -> bool) (md : MarketData) : Prop :=
  exists sA sB,
    bettedPrice (polymarket md) = Some sA /\
    bettedPrice (kalshi md) = Some sB /\
    R sA sB = true.

(** [current] is within a computed distance of less than 2 of [detected]. *)
Definition within_two (current detected : float) : Prop :=
  (abs (current - detected) <? 2)%float = true.

(** Quotes and matched markets used as concrete inputs. *)
Definition quote (up down : float) (settlement : option float) : MarketPrice :=
  {| upPrice := up; downPrice := down; bettedPrice := settlement;
     price_timestamp := 0 |}.

Definition market (id : string) (a b : MarketPrice) : MarketData :=
  {| marketId := id; marketTitle := None; endTime := DUndefined;
     isResolved := false; resolvedPrice := None; polymarket := a; kalshi := b |}.

(** costUpDown = 88, costDownUp = 108, settlement prices 38 and 42. *)
Definition md_single : MarketData :=
  market "m" (quote 40 63 (Some 38%float)) (quote 45 48 (Some 42%float)).

(** The same quotes without settlement prices. *)
Definition md_single_nodata : MarketData :=
  market "m" (quote 40 63 None) (quote 45 48 None).

(** costUpDown = 85, costDownUp = 87, no settlement prices. *)
Definition md_both : MarketData :=
  market "m" (quote 40 45 None) (quote 42 45 None).

(** costUpDown = 85, costDownUp = 87, settlement prices 60 and 50. *)
Definition md_both_settled : MarketData :=
  market "m" (quote 40 45 (Some 60%float)) (quote 42 45 (Some 50%float)).

(** Venue A's up price is [0.57 * 100], the double just below 57; with venue
    B's down price 33 the computed cost is exactly 90. *)
Definition md_rounded : MarketData :=
  market "m" (quote 0x1.c7fffffffffffp+5 63 (Some 38%float))
             (quote 45 33 (Some 42%float)).

End Binary64.

(** * Vocabulary of the properties *)

(** ** Matcher *)

(** The close time of a venue-A market, as [findMatchingKalshiMarket] reads it. *)
Definition poly_close_time (rt : Runtime) (p : PolyMarket) : option Z :=
  getTime rt (or_date (pm_endDate p) (pm_end_time p)).

(** The close time of a venue-B market. *)
Definition kalshi_close_time (rt : Runtime) (k : KalshiMarket) : option Z :=
  getTime rt (km_expiration_time k).

(** Both close times are valid and less than 60 seconds apart. *)
Definition within_tolerance (rt : Runtime) (p : PolyMarket) (k : KalshiMarket) : Prop :=
  exists tp tk,
    poly_close_time rt p = Some tp /\
    kalshi_close_time rt k = Some tk /\
    (Z.abs (tp - tk) < 60000)%Z.

(** The series ticker carries the marker of the 15-minute BTC series. *)
Definition btc_15m_series (k : KalshiMarket) : Prop :=
  exists s pre post,
    km_series_ticker k = Some s /\
    s = (pre ++ "BTC-15M" ++ post)%string.

Definition candidate (rt : Runtime) (p : PolyMarket) (k : KalshiMarket) : Prop :=
  within_tolerance rt p k /\ btc_15m_series k.

(** [md] is the record built for a listed Polymarket market and its match. *)
Definition matched_from (rt : Runtime) (pms : list PolyMarket)
           (kms : list KalshiMarket) (md : MarketData) : Prop :=
  exists pm km pp kp,
    In pm pms /\
    findMatchingKalshiMarket rt pm kms = Some km /\
    md = matched_market pm km pp kp.

(** The same Kalshi market under another ticker. *)
Definition with_ticker (ticker : string) (km : KalshiMarket) : KalshiMarket :=
  {| km_ticker := ticker;
     km_expiration_time := km_expiration_time km;
     km_status := km_status km;
     km_betted_price := km_betted_price km;
     km_series_ticker := km_series_ticker km |}.

(** ** Orders *)

(** The Polymarket leg of an action: outcome token and limit price. *)
Definition poly_leg (o : ArbitrageOpportunity) : PolyOutcome * Q :=
  match action o with
  | buy_poly_down_kalshi_up => (NO, polyDownPrice o)
  | _ => (YES, polyUpPrice o)
  end.

(** The Kalshi leg of an action: side and limit price. *)
Definition kalshi_leg (o : ArbitrageOpportunity) : KalshiSide * Q :=
  match action o with
  | buy_poly_down_kalshi_up => (yes, kalshiUpPrice o)
  | _ => (no, kalshiDownPrice o)
  end.

(** The way the Polymarket order of [o] settles when placed after [h]. *)
Definition poly_order (pc : PolymarketClient) (o : ArbitrageOpportunity)
           (amount : Q) (h : history) : settled Trade :=
  p_buyToken pc h (opp_marketId o) (fst (poly_leg o)) amount (snd (poly_leg o)).

Definition poly_order_event (pc : PolymarketClient) (o : ArbitrageOpportunity)
           (amount : Q) (h : history) : event :=
  PolyBuyToken (opp_marketId o) (fst (poly_leg o)) amount (snd (poly_leg o))
               (poly_order pc o amount h).

(** The way the Kalshi order of [o] settles when placed after [h]. *)
Definition kalshi_order (kc : KalshiClient) (o : ArbitrageOpportunity)
           (amount : Q) (h : history) : settled Trade :=
  k_buyToken kc h (opp_marketId o) (fst (kalshi_leg o)) amount (snd (kalshi_leg o)).

Definition kalshi_order_event (kc : KalshiClient) (o : ArbitrageOpportunity)
           (amount : Q) (h : history) : event :=
  KalshiBuyToken (opp_marketId o) (fst (kalshi_leg o)) amount (snd (kalshi_leg o))
                 (kalshi_order kc o amount h).

Definition is_fulfilled {A} (r : settled A) : Prop :=
  exists v, r = fulfilled v.

(** ** Redemption *)

(** The four leg fields of a Position. *)
Inductive leg : Type :=
| PolyLeg (outcome : PolyOutcome)
| KalshiLeg (side : KalshiSide).

Definition leg_amount (p : Position) (l : leg) : Q :=
  match l with
  | PolyLeg YES => polyUp p
  | PolyLeg NO => polyDown p
  | KalshiLeg yes => kalshiUp p
  | KalshiLeg no => kalshiDown p
  end.

(** The legs with a positive recorded amount, in the order of [redeemPosition]. *)
Definition legs_to_redeem (p : Position) : list leg :=
  filter (fun l => JS.gtb (leg_amount p l) 0)
         [PolyLeg YES; PolyLeg NO; KalshiLeg yes; KalshiLeg no].

(** The way the redemption of leg [l] of market [id] settles after [h]. *)
Definition redeem_answer (pc : PolymarketClient) (kc : KalshiClient)
           (id : string) (l : leg) (h : history) : settled bool :=
  match l with
  | PolyLeg o => p_redeemTokens pc h id o
  | KalshiLeg s => k_redeemTokens kc h id s
  end.

Definition redeem_event (id : string) (l : leg) (r : settled bool) : event :=
  match l with
  | PolyLeg o => PolyRedeemTokens id o r
  | KalshiLeg s => KalshiRedeemTokens id s r
  end.

(** The settlements of the redemption calls for [ls], made in order after [h]. *)
Fixpoint redeem_results (pc : PolymarketClient) (kc : KalshiClient)
         (id : string) (ls : list leg) (h : history) : list (settled bool) :=
  match ls with
  | [] => []
  | l :: rest =>
      let r := redeem_answer pc kc id l h in
      r :: redeem_results pc kc id rest (h ++ [redeem_event id l r])
  end.

(** The events these calls leave in the log. *)
Fixpoint redeem_events (pc : PolymarketClient) (kc : KalshiClient)
         (id : string) (ls : list leg) (h : history) : list event :=
  match ls with
  | [] => []
  | l :: rest =>
      let e := redeem_event id l (redeem_answer pc kc id l h) in
      e :: redeem_events pc kc id rest (h ++ [e])
  end.

Definition redeem_call (pc : PolymarketClient) (kc : KalshiClient)
           (id : string) (l : leg) : M (settled bool) :=
  call (redeem_answer pc kc id l) (redeem_event id l).

(** The two resolution checks of a poll step on [p], made after [h]. *)
Definition poly_resolved (pc : PolymarketClient) (p : Position) (h : history)
  : settled bool :=
  p_isMarketResolved pc h (pos_marketId p).

Definition kalshi_resolved (pc : PolymarketClient) (kc : KalshiClient)
           (p : Position) (h : history) : settled bool :=
  k_isMarketResolved kc (h ++ [PolyIsMarketResolved (pos_marketId p)
                                                    (poly_resolved pc p h)])
                     (pos_marketId p).

Definition resolution_events (pc : PolymarketClient) (kc : KalshiClient)
           (p : Position) (h : history) : list event :=
  [PolyIsMarketResolved (pos_marketId p) (poly_resolved pc p h);
   KalshiIsMarketResolved (pos_marketId p) (kalshi_resolved pc kc p h)].

(** Both venues report the market of [p] resolved. *)
Definition both_resolved (pc : PolymarketClient) (kc : KalshiClient)
           (p : Position) (h : history) : bool :=
  succeeded (poly_resolved pc p h) && succeeded (kalshi_resolved pc kc p h).

(** The poll step on the Position at index [i], in closed form. *)
Definition poll_step (pc : PolymarketClient) (kc : KalshiClient)
           (i : nat) (p : Position) (w : World) : World :=
  if negb (is_active p) then w
  else
    let h := log w ++ resolution_events pc kc p (log w) in
    if both_resolved pc kc p (log w) then
      let ls := legs_to_redeem p in
      {| positions :=
           if forallb succeeded (redeem_results pc kc (pos_marketId p) ls h)
           then update_nth i (set_status redeemed) (positions w)
           else positions w;
         log := h ++ redeem_events pc kc (pos_marketId p) ls h |}
    else {| positions := positions w; log := h |}.

(** The redemption calls a poll step on [p] makes after [h]: none unless both
    venues report the market resolved. *)
Definition attempted_redemptions (pc : PolymarketClient) (kc : KalshiClient)
           (p : Position) (h : history) : list event :=
  if both_resolved pc kc p h
  then redeem_events pc kc (pos_marketId p) (legs_to_redeem p)
                     (h ++ resolution_events pc kc p h)
  else [].

(** A redemption call that was fulfilled with [true]. *)
Definition redemption_succeeded (e : event) : Prop :=
  match e with
  | PolyRedeemTokens _ _ r => r = fulfilled true
  | KalshiRedeemTokens _ _ r => r = fulfilled true
  | _ => False
  end.

(** The market and leg a redemption event is about. *)
Definition redeemed_leg (e : event) : option (string * leg) :=
  match e with
  | PolyRedeemTokens id o _ => Some (id, PolyLeg o)
  | KalshiRedeemTokens id s _ => Some (id, KalshiLeg s)
  | _ => None
  end.

(** What a poll may do to a Position: nothing, or flip ACTIVE to REDEEMED. *)
Definition evolves (p p' : Position) : Prop :=
  (status p <> active -> p' = p) /\
  (p' = p \/ (status p = active /\ p' = set_status redeemed p)).

(** ** Ledger *)

(** Computations that leave the ledger as it is. *)
Definition keeps_positions {A} (m : M A) : Prop :=
  forall w, positions (snd (m w)) = positions w.

(** Computations that maintain a ledger invariant. *)
Definition maintains (P : list Position -> Prop) {A} (m : M A) : Prop :=
  forall w, P (positions w) -> P (positions (snd (m w))).

(** The guard of [scanAndTrade]: the first ledger entry for the market, if
    there is one, is ACTIVE. *)
Definition guarded (ps : list Position) (id : string) : bool :=
  match find (fun p => String.eqb (pos_marketId p) id) ps with
  | Some p => is_active p
  | None => false
  end.

(** The ledger invariant the guard maintains when no Position is ever
    redeemed: one entry per market, all ACTIVE. *)
Definition one_entry_per_market (ps : list Position) : Prop :=
  Forall (fun p => status p = active) ps /\ NoDup (map pos_marketId ps).

(** At most one ACTIVE Position per marketId. *)
Definition at_most_one_active (ps : list Position) : Prop :=
  forall i j p q,
    nth_error ps i = Some p -> nth_error ps j = Some q ->
    status p = active -> status q = active ->
    pos_marketId p = pos_marketId q -> i = j.

(** The ledger as (marketId, status) pairs. *)
Definition ledger_summary (w : World) : list (string * PositionStatus) :=
  map (fun p => (pos_marketId p, status p)) (positions w).

(** ** Venue-B identifiers *)

(** The market identifier a Kalshi order, resolution check or redemption was
    called with. *)
Definition kalshi_call_id (e : event) : option string :=
  match e with
  | KalshiBuyToken id _ _ _ _ => Some id
  | KalshiIsMarketResolved id _ => Some id
  | KalshiRedeemTokens id _ _ => Some id
  | _ => None
  end.

(** Every such call in [evs] was made with [id]. *)
Definition kalshi_calls_use (id : string) (evs : list event) : Prop :=
  Forall (fun e => forall id', kalshi_call_id e = Some id' -> id' = id) evs.

(** ** Concrete inputs *)

(** Quotes and matched markets used as concrete inputs. *)
Definition quote (up down : Q) (settlement : option Q) : MarketPrice :=
  {| upPrice := up; downPrice := down; bettedPrice := settlement;
     price_timestamp := 0 |}.

Definition market (id : string) (a b : MarketPrice) : MarketData :=
  {| marketId := id; marketTitle := None; endTime := DUndefined;
     isResolved := false; resolvedPrice := None; polymarket := a; kalshi := b |}.

(** costUpDown = 88, costDownUp = 108, settlement prices 38 and 42. *)
Definition md_single : MarketData :=
  market "m" (quote 40 63 (Some 38)) (quote 45 48 (Some 42)).

(** costUpDown = 85, costDownUp = 87, settlement prices 60 and 50. *)
Definition md_both_settled : MarketData :=
  market "m" (quote 40 45 (Some 60)) (quote 42 45 (Some 50)).


(** One Polymarket market and the Kalshi market it matches: same close time,
    BTC-15M series, different identifiers. *)
Definition pm_btc : PolyMarket :=
  {| pm_id := "0xbtc15";
     pm_question := Some "BTC up or down 15m"%string;
     pm_title := None;
     pm_endDate := DNumber 1700000900000;
     pm_end_time := DUndefined;
     pm_resolved := false;
     pm_resolvedPrice := None |}.

Definition km_btc : KalshiMarket :=
  {| km_ticker := "KXBTC-15M-T1";
     km_expiration_time := DNumber 1700000900000;
     km_status := Some "open"%string;
     km_betted_price := None;
     km_series_ticker := Some "KXBTC-15M"%string |}.

Definition a_runtime : Runtime :=
  {| date_now := fun _ => 0%Z; date_parse := fun _ => None |}.

Definition a_trade (id : string) (venue : Platform) (s : Side) (amount price : Q)
  : Trade :=
  {| trade_id := "order"; trade_marketId := id; platform := venue; side := s;
     trade_amount := amount; trade_price := price; trade_timestamp := 0;
     trade_status := filled; txHash := None |}.

(** Venues that list the pair above with the quotes of [md_single], fill
    every order, report every market resolved and pay every redemption. *)
Definition poly_venue : PolymarketClient :=
  {| p_getMarketPrices := fun _ _ => fulfilled (quote 40 63 (Some 38));
     p_getActiveBTCMarkets := fun _ => fulfilled [pm_btc];
     p_buyToken := fun _ id o amount price =>
       fulfilled (a_trade id platform_polymarket
                          (match o with YES => side_up | NO => side_down end)
                          amount price);
     p_isMarketResolved := fun _ _ => fulfilled true;
     p_redeemTokens := fun _ _ _ => fulfilled true |}.

Definition kalshi_venue : KalshiClient :=
  {| k_getMarketPrices := fun _ _ => fulfilled (quote 45 48 (Some 42));
     k_getActiveBTCMarkets := fun _ => fulfilled [km_btc];
     k_buyToken := fun _ id s amount price =>
       fulfilled (a_trade id platform_kalshi
                          (match s with yes => side_up | no => side_down end)
                          amount price);
     k_isMarketResolved := fun _ _ => fulfilled true;
     k_redeemTokens := fun _ _ _ => fulfilled true |}.

(** A Kalshi venue that rejects every order. *)
Definition kalshi_rejecting : KalshiClient :=
  {| k_getMarketPrices := k_getMarketPrices kalshi_venue;
     k_getActiveBTCMarkets := k_getActiveBTCMarkets kalshi_venue;
     k_buyToken := fun _ _ _ _ _ => rejected;
     k_isMarketResolved := k_isMarketResolved kalshi_venue;
     k_redeemTokens := k_redeemTokens kalshi_venue |}.

(** The defaults of the source: band [10, 1000], 10% of a balance of 1000. *)
Definition default_trader : TraderConfig :=
  {| minTradeAmount := 10; maxTradeAmount := 1000; TRADE_PERCENTAGE := 1 # 10 |}.

Definition default_bot : BotConfig :=
  {| TAKE_PROFIT := 90; trader := default_trader; AVAILABLE_BALANCE := 1000 |}.

(** The opportunity detected on [md_single]. *)
Definition opp_single : ArbitrageOpportunity :=
  {| opp_marketId := "m";
     opp_marketTitle := None;
     opportunityType := poly_up_kalshi_down;
     polyUpPrice := 40; polyDownPrice := 63;
     kalshiUpPrice := 45; kalshiDownPrice := 48;
     totalCost := 40 + 48;
     profitPotential := profit_of (40 + 48);
     polyBettedPrice := Some 38; kalshiBettedPrice := Some 42;
     action := buy_poly_up_kalshi_down;
     opp_timestamp := 0 |}.

(** A ledger holding the Position of [opp_single]. *)
Definition one_position : World :=
  {| positions := [new_position opp_single 100]; log := [] |}.

(** * Vocabulary of the further properties *)

(** ** Detector: eligibility *)

(** The combination [a] buys costs less than the threshold. *)
Definition eligible (T : Q) (md : MarketData) (a : Action) : Prop :=
  match a with
  | buy_poly_up_kalshi_down => costUpDown md < T
  | buy_poly_down_kalshi_up => costDownUp md < T
  | skip => False
  end.

(** ** Trader and ledger: what a recorded Position looks like *)

(** The amount every scan trades with: [calculateTradeAmount] on the
    configured balance. *)
Definition configured_amount (bot : BotConfig) : Q :=
  Qmin (Qmax (AVAILABLE_BALANCE bot * TRADE_PERCENTAGE (trader bot))
             (minTradeAmount (trader bot)))
       (maxTradeAmount (trader bot)).

(** One leg on each venue, on opposite outcomes, both of amount [a]. *)
Definition hedged (a : Q) (p : Position) : Prop :=
  (polyUp p = a /\ kalshiDown p = a /\ polyDown p = 0 /\ kalshiUp p = 0) \/
  (polyDown p = a /\ kalshiUp p = a /\ polyUp p = 0 /\ kalshiDown p = 0).

(** A Position as the bot records it: never EXPIRED, hedged with the
    configured amount, at a cost derived from a [totalCost] below the
    threshold. *)
Definition recorded_by (bot : BotConfig) (p : Position) : Prop :=
  status p <> expired /\
  hedged (configured_amount bot) p /\
  exists c, c < TAKE_PROFIT bot /\ pos_totalCost p = c * configured_amount bot / 100.

(** The ledger [ps'] continues [ps]: the entries of [ps] are still there, in
    place, each unchanged or flipped from ACTIVE to REDEEMED, and new entries
    come after them. *)
Definition continues (ps ps' : list Position) : Prop :=
  exists kept added, ps' = kept ++ added /\ Forall2 evolves ps kept.

(** Computations that only append to the ledger, and only Positions that
    satisfy [P]. *)
Definition appends (P : Position -> Prop) {A} (m : M A) : Prop :=
  forall w, exists added,
    positions (snd (m w)) = positions w ++ added /\ Forall P added.

(** The number of ACTIVE Positions. *)
Definition count_active (ps : list Position) : nat :=
  length (filter is_active ps).

(** ** Matcher: the calls of [matchMarkets] *)

(** A venue call whose promise was rejected. *)
Definition event_rejected (e : event) : bool :=
  match e with
  | PolyGetActiveBTCMarkets rejected => true
  | KalshiGetActiveBTCMarkets rejected => true
  | PolyGetMarketPrices _ rejected => true
  | KalshiGetMarketPrices _ rejected => true
  | PolyBuyToken _ _ _ _ rejected => true
  | KalshiBuyToken _ _ _ _ rejected => true
  | PolyIsMarketResolved _ rejected => true
  | KalshiIsMarketResolved _ rejected => true
  | PolyRedeemTokens _ _ rejected => true
  | KalshiRedeemTokens _ _ rejected => true
  | _ => false
  end.

(** The Polymarket market has a match in the Kalshi listing. *)
Definition has_match (rt : Runtime) (kms : list KalshiMarket) (pm : PolyMarket)
  : bool :=
  match findMatchingKalshiMarket rt pm kms with
  | Some _ => true
  | None => false
  end.

(** The two listing calls of [matchMarkets], made after [h]. *)
Definition poly_listing (pc : PolymarketClient) (h : history)
  : settled (list PolyMarket) :=
  p_getActiveBTCMarkets pc h.

Definition kalshi_listing (pc : PolymarketClient) (kc : KalshiClient) (h : history)
  : settled (list KalshiMarket) :=
  k_getActiveBTCMarkets kc (h ++ [PolyGetActiveBTCMarkets (poly_listing pc h)]).

Definition listing_events (pc : PolymarketClient) (kc : KalshiClient) (h : history)
  : list event :=
  [PolyGetActiveBTCMarkets (poly_listing pc h);
   KalshiGetActiveBTCMarkets (kalshi_listing pc kc h)].

(** A Polymarket market whose [endDate] does not parse, with a valid
    [end_time]. *)
Definition pm_unreadable : PolyMarket :=
  {| pm_id := "0xbtc15"; pm_question := None; pm_title := None;
     pm_endDate := DString "soon"; pm_end_time := DNumber 1700000900000;
     pm_resolved := false; pm_resolvedPrice := None |}.

(** A Kalshi venue whose listing request is rejected. *)
Definition kalshi_no_listing : KalshiClient :=
  {| k_getMarketPrices := k_getMarketPrices kalshi_venue;
     k_getActiveBTCMarkets := fun _ => rejected;
     k_buyToken := k_buyToken kalshi_venue;
     k_isMarketResolved := k_isMarketResolved kalshi_venue;
     k_redeemTokens := k_redeemTokens kalshi_venue |}.

(** ** Clients *)

(** Every page the SDK returns holds at most 200 markets, the page size the
    client asks for. *)
Definition pages_within_size (sdk : KalshiSdk) : Prop :=
  forall h requests cursor response ms,
    sdk_getMarkets sdk h requests cursor = fulfilled response ->
    page_markets response = Some ms ->
    (length ms <= 200)%nat.

(** A falsy optional number: [undefined] or zero, what [||] skips. *)
Definition falsy_number (a : option Q) : Prop :=
  a = None \/ exists q, a = Some q /\ q == 0.

(** A Kalshi SDK that knows no market and rejects orders. *)
Definition sdk_empty : KalshiSdk :=
  {| sdk_getMarket := fun _ _ => fulfilled None;
     sdk_getMarkets := fun _ _ _ =>
       fulfilled {| page_markets := Some [km_btc]; page_cursor := None |};
     sdk_createOrder := fun _ _ => rejected |}.

(** A Kalshi SDK whose one market has bids only and a settlement price of 0. *)
Definition sdk_bids_only : KalshiSdk :=
  {| sdk_getMarket := fun _ _ =>
       fulfilled (Some {| yes_ask := None; yes_bid := Some 45;
                          no_ask := Some 0; no_bid := Some 48;
                          info_betted_price := Some 0;
                          info_status := Some "resolved"%string |});
     sdk_getMarkets := sdk_getMarkets sdk_empty;
     sdk_createOrder := fun _ _ =>
       fulfilled (Some {| order_id := Some "o-1"%string;
                          order_status := Some "filled"%string |}) |}.

(** * Properties *)

(** ** Numbers *)

Lemma ltb_lt x y : JS.ltb x y = true <-> x < y.
Proof.
  unfold JS.ltb. rewrite negb_true_iff, <- not_true_iff_false, Qle_bool_iff.
  split; [apply Qnot_le_lt | apply Qlt_not_le].
Qed.

Lemma ltb_ge x y : JS.ltb x y = false <-> y <= x.
Proof.
  unfold JS.ltb. rewrite negb_false_iff. apply Qle_bool_iff.
Qed.

Lemma gtb_gt x y : JS.gtb x y = true <-> y < x.
Proof. apply ltb_lt. Qed.

Lemma gtb_le x y : JS.gtb x y = false <-> x <= y.
Proof. apply ltb_ge. Qed.

Lemma ltb_false x y : y <= x -> JS.ltb x y = false.
Proof. apply ltb_ge. Qed.

Lemma Qeq_bool_false x y : ~ x == y -> Qeq_bool x y = false.
Proof.
  intros H. apply not_true_iff_false. now rewrite Qeq_bool_iff.
Qed.

(** ** ArbitrageDetector *)

(** Turn the boolean comparisons in the context into order facts. *)
Ltac order_facts :=
  repeat match goal with
         | H : JS.ltb _ _ = true |- _ => apply ltb_lt in H
         | H : JS.ltb _ _ = false |- _ => apply ltb_ge in H
         | H : JS.gtb _ _ = true |- _ => apply gtb_gt in H
         | H : JS.gtb _ _ = false |- _ => apply gtb_le in H
         end.

(** The Opportunity record built for a non-skip action. *)
Lemma detectOpportunity_some T t md o :
  detectOpportunity T t md = Some o ->
  let hasUD := JS.ltb (costUpDown md) T in
  let hasDU := JS.ltb (costDownUp md) T in
  (hasUD = true \/ hasDU = true) /\
  action o = determineAction (hasUD && hasDU) hasUD hasDU (polymarket md) (kalshi md) /\
  action o <> skip /\
  totalCost o =
    (if hasUD && hasDU then Qmin (costUpDown md) (costDownUp md)
     else if hasUD then costUpDown md else costDownUp md) /\
  profitPotential o = profit_of (totalCost o) /\
  opp_marketId o = marketId md.
Proof.
  unfold detectOpportunity, costUpDown, costDownUp. cbv zeta.
  set (hasUD := JS.ltb _ T). set (hasDU := JS.ltb _ T).
  destruct (negb hasUD && negb hasDU) eqn:Hnone; [discriminate|].
  destruct (determineAction (hasUD && hasDU) hasUD hasDU (polymarket md) (kalshi md))
    eqn:Hact; intros H; inversion H; subst o; clear H; cbn [action totalCost profitPotential opp_marketId];
    (split; [destruct hasUD, hasDU; auto; discriminate|]);
    repeat split; congruence.
Qed.


Lemma determineAction_only_up_down poly kalshi :
  determineAction false true false poly kalshi =
  match bettedPrice poly, bettedPrice kalshi with
  | Some pb, Some kb => if JS.ltb pb kb then buy_poly_up_kalshi_down else skip
  | _, _ => skip
  end.
Proof. reflexivity. Qed.

Lemma determineAction_only_down_up poly kalshi :
  determineAction false false true poly kalshi =
  match bettedPrice poly, bettedPrice kalshi with
  | Some pb, Some kb => if JS.gtb pb kb then buy_poly_down_kalshi_up else skip
  | _, _ => skip
  end.
Proof. reflexivity. Qed.


(** ** Binary64 comparisons *)

Lemma CompOpp_compare_cont (p q : positive) :
  Pos.compare_cont Eq q p = CompOpp (Pos.compare_cont Eq p q).
Proof. exact (Pos.compare_antisym p q). Qed.

(** Swapping the arguments of a comparison reverses its answer. *)
Lemma SFcompare_swap (x y : spec_float) :
  SFcompare y x = option_map CompOpp (SFcompare x y).
Proof.
  destruct x as [sx|sx| |sx mx ex], y as [sy|sy| |sy my ey]; cbn;
    try reflexivity;
    try (destruct sx; reflexivity); try (destruct sy; reflexivity);
    try (destruct sx, sy; reflexivity).
  destruct sx, sy; cbn; try reflexivity;
    rewrite (Z.compare_antisym ex ey);
    destruct (ex ?= ey)%Z; cbn; try reflexivity;
    rewrite (CompOpp_compare_cont mx my); try reflexivity.
Qed.

Lemma SFcompare_refl (x : spec_float) :
  x <> S754_nan -> SFcompare x x = Some Eq.
Proof.
  destruct x as [s|s| |s m e]; cbn; try congruence; intros _.
  - now destruct s.
  - rewrite Z.compare_refl.
    change (Pos.compare_cont Eq m m) with (Pos.compare m m).
    rewrite Pos.compare_refl. now destruct s.
Qed.

Lemma SFcompare_nan_l (y : spec_float) : SFcompare S754_nan y = None.
Proof. reflexivity. Qed.

Lemma SFcompare_nan_r (x : spec_float) : SFcompare x S754_nan = None.
Proof. now destruct x. Qed.

Lemma SFcompare_some (x y : spec_float) :
  x <> S754_nan -> y <> S754_nan -> exists c, SFcompare x y = Some c.
Proof.
  destruct x, y; cbn; try congruence; eauto.
Qed.

Lemma ltb_cmp a b : (a <? b)%float = true <-> Binary64.cmp a b = Some Lt.
Proof.
  rewrite ltb_spec. unfold SFltb, Binary64.cmp.
  destruct (SFcompare _ _) as [[| |]|]; split; congruence.
Qed.

Lemma eqb_cmp a b : (a =? b)%float = true <-> Binary64.cmp a b = Some Eq.
Proof.
  rewrite eqb_spec. unfold SFeqb, Binary64.cmp.
  destruct (SFcompare _ _) as [[| |]|]; split; congruence.
Qed.

Lemma leb_cmp a b :
  (a <=? b)%float = true <-> Binary64.cmp a b = Some Lt \/ Binary64.cmp a b = Some Eq.
Proof.
  rewrite leb_spec. unfold SFleb, Binary64.cmp.
  destruct (SFcompare _ _) as [[| |]|]; split; intros H;
    try congruence; auto; destruct H; congruence.
Qed.

Lemma cmp_swap a b : Binary64.cmp b a = option_map CompOpp (Binary64.cmp a b).
Proof. apply SFcompare_swap. Qed.

Lemma is_nan_cmp a : is_nan a = true <-> Prim2SF a = S754_nan.
Proof.
  unfold is_nan. rewrite negb_true_iff, eqb_spec. unfold SFeqb.
  split.
  - intros H. destruct (Prim2SF a) eqn:E; try reflexivity;
      rewrite SFcompare_refl in H by congruence; discriminate.
  - intros ->. reflexivity.
Qed.

Lemma is_nan_false_cmp a : is_nan a = false <-> Prim2SF a <> S754_nan.
Proof.
  rewrite <- is_nan_cmp. destruct (is_nan a); split; congruence.
Qed.

(** [a < b] and [b < a] exclude each other. *)
Lemma ltb_asym a b : (a <? b)%float = true -> (b <? a)%float = false.
Proof.
  intros H. apply ltb_cmp in H. apply not_true_iff_false.
  rewrite ltb_cmp, (cmp_swap a b), H. discriminate.
Qed.

(** Equal numbers are not ordered either way. *)
Lemma eqb_not_ltb a b :
  (a =? b)%float = true -> (a <? b)%float = false /\ (b <? a)%float = false.
Proof.
  intros H. apply eqb_cmp in H.
  split; apply not_true_iff_false; rewrite ltb_cmp;
    [|rewrite (cmp_swap a b)]; rewrite H; discriminate.
Qed.

(** NaN is ordered with nothing. *)
Lemma nan_not_ltb a b :
  is_nan a = true \/ is_nan b = true ->
  (a <? b)%float = false /\ (b <? a)%float = false.
Proof.
  intros H.
  assert (E : Binary64.cmp a b = None).
  { unfold Binary64.cmp. destruct H as [H | H]; apply is_nan_cmp in H; rewrite H;
      [apply SFcompare_nan_l | apply SFcompare_nan_r]. }
  split; apply not_true_iff_false; rewrite ltb_cmp;
    [|rewrite (cmp_swap a b)]; rewrite E; discriminate.
Qed.

(** Whatever is below something is a number. *)
Lemma ltb_not_nan a b :
  (a <? b)%float = true -> is_nan a = false /\ is_nan b = false.
Proof.
  intros H. apply ltb_cmp in H. unfold Binary64.cmp in H.
  split; apply is_nan_false_cmp; intros E; rewrite E in H;
    [rewrite SFcompare_nan_l in H | rewrite SFcompare_nan_r in H]; discriminate.
Qed.

(** Numbers that are not ordered either way are equal. *)
Lemma not_ltb_eqb a b :
  is_nan a = false -> is_nan b = false ->
  (a <? b)%float = false -> (b <? a)%float = false -> (a =? b)%float = true.
Proof.
  intros Ha Hb H1 H2.
  apply is_nan_false_cmp in Ha. apply is_nan_false_cmp in Hb.
  destruct (SFcompare_some _ _ Ha Hb) as [c Hc]. fold (Binary64.cmp a b) in Hc.
  apply eqb_cmp. rewrite Hc.
  apply not_true_iff_false in H1. apply not_true_iff_false in H2.
  rewrite ltb_cmp in H1. rewrite ltb_cmp, (cmp_swap a b) in H2.
  rewrite Hc in H1, H2.
  destruct c; cbn in *; congruence.
Qed.

Lemma eqb_refl_number a : is_nan a = false -> (a =? a)%float = true.
Proof.
  unfold is_nan. now rewrite negb_false_iff.
Qed.

Lemma eqb_sym a b : (a =? b)%float = (b =? a)%float.
Proof.
  rewrite !eqb_spec. unfold SFeqb. rewrite (SFcompare_swap (Prim2SF a) (Prim2SF b)).
  destruct (SFcompare (Prim2SF a) (Prim2SF b)) as [[| |]|]; reflexivity.
Qed.

(** [Math.min] of two numbers is the first when it is the lower one, and
    otherwise equals the second. *)
Lemma Math_min_lt a b :
  (a <? b)%float = true -> Binary64.Math_min a b = a.
Proof.
  intros H. unfold Binary64.Math_min.
  destruct (ltb_not_nan _ _ H) as [-> ->]. cbn [orb]. now rewrite H.
Qed.

Lemma Math_min_ge a b :
  is_nan a = false -> is_nan b = false -> (a <? b)%float = false ->
  (b =? Binary64.Math_min a b)%float = true.
Proof.
  intros Ha Hb H. unfold Binary64.Math_min. rewrite Ha, Hb, H. cbn [orb].
  destruct (b <? a)%float eqn:H2; [now apply eqb_refl_number|].
  destruct (get_sign a); [|now apply eqb_refl_number].
  rewrite eqb_sym. now apply not_ltb_eqb.
Qed.

Lemma leb_of_eqb a b : (a =? b)%float = true -> (a <=? b)%float = true.
Proof.
  rewrite eqb_cmp, leb_cmp. auto.
Qed.

Lemma leb_of_ltb a b : (a <? b)%float = true -> (a <=? b)%float = true.
Proof.
  rewrite ltb_cmp, leb_cmp. auto.
Qed.

(** ** The detector on binary64 quotes *)

(** What [determineAction] returns when both combinations are eligible. *)
Lemma determineAction64_both b1 b2 poly kalshi :
  Binary64.determineAction true b1 b2 poly kalshi =
  match Binary64.bettedPrice poly, Binary64.bettedPrice kalshi with
  | Some pb, Some kb =>
      if (pb <? kb)%float then buy_poly_up_kalshi_down
      else if (kb <? pb)%float then buy_poly_down_kalshi_up
      else if (Binary64.upPrice poly + Binary64.downPrice kalshi
               <? Binary64.downPrice poly + Binary64.upPrice kalshi)%float
           then buy_poly_up_kalshi_down else buy_poly_down_kalshi_up
  | _, _ =>
      if (Binary64.upPrice poly + Binary64.downPrice kalshi
          <? Binary64.downPrice poly + Binary64.upPrice kalshi)%float
      then buy_poly_up_kalshi_down else buy_poly_down_kalshi_up
  end.
Proof.
  unfold Binary64.determineAction, Binary64.gtb.
  destruct (Binary64.bettedPrice poly), (Binary64.bettedPrice kalshi); reflexivity.
Qed.

Lemma determineAction64_both_not_skip b1 b2 poly kalshi :
  Binary64.determineAction true b1 b2 poly kalshi <> skip.
Proof.
  rewrite determineAction64_both.
  destruct (Binary64.bettedPrice poly), (Binary64.bettedPrice kalshi);
    repeat match goal with |- context [if ?c then _ else _] => destruct c end;
    discriminate.
Qed.

Lemma determineAction64_only_up_down poly kalshi :
  Binary64.determineAction false true false poly kalshi =
  match Binary64.bettedPrice poly, Binary64.bettedPrice kalshi with
  | Some pb, Some kb => if (pb <? kb)%float then buy_poly_up_kalshi_down else skip
  | _, _ => skip
  end.
Proof. reflexivity. Qed.

Lemma determineAction64_only_down_up poly kalshi :
  Binary64.determineAction false false true poly kalshi =
  match Binary64.bettedPrice poly, Binary64.bettedPrice kalshi with
  | Some pb, Some kb => if (kb <? pb)%float then buy_poly_down_kalshi_up else skip
  | _, _ => skip
  end.
Proof. reflexivity. Qed.

(** The Opportunity record built for a non-skip action. *)
Lemma detectOpportunity64_some T t md o :
  Binary64.detectOpportunity T t md = Some o ->
  let hasUD := (Binary64.costUpDown md <? T)%float in
  let hasDU := (Binary64.costDownUp md <? T)%float in
  (hasUD = true \/ hasDU = true) /\
  Binary64.action o =
    Binary64.determineAction (hasUD && hasDU) hasUD hasDU
                             (Binary64.polymarket md) (Binary64.kalshi md) /\
  Binary64.action o <> skip /\
  Binary64.totalCost o =
    (if hasUD && hasDU
     then Binary64.Math_min (Binary64.costUpDown md) (Binary64.costDownUp md)
     else if hasUD then Binary64.costUpDown md else Binary64.costDownUp md) /\
  Binary64.profitPotential o = Binary64.profit_of (Binary64.totalCost o) /\
  Binary64.opportunityType o =
    (if hasUD && hasDU then both
     else if hasUD then poly_up_kalshi_down else poly_down_kalshi_up) /\
  Binary64.polyUpPrice o = Binary64.upPrice (Binary64.polymarket md) /\
  Binary64.polyDownPrice o = Binary64.downPrice (Binary64.polymarket md) /\
  Binary64.kalshiUpPrice o = Binary64.upPrice (Binary64.kalshi md) /\
  Binary64.kalshiDownPrice o = Binary64.downPrice (Binary64.kalshi md).
Proof.
  unfold Binary64.detectOpportunity, Binary64.costUpDown, Binary64.costDownUp.
  cbv zeta.
  set (hasUD := (_ <? T)%float). set (hasDU := (_ <? T)%float).
  destruct (negb hasUD && negb hasDU) eqn:Hnone; [discriminate|].
  destruct (Binary64.determineAction (hasUD && hasDU) hasUD hasDU
              (Binary64.polymarket md) (Binary64.kalshi md)) eqn:Hact;
    intros H; inversion H; subst o; clear H;
    cbn [Binary64.action Binary64.totalCost Binary64.profitPotential
         Binary64.opportunityType Binary64.polyUpPrice Binary64.polyDownPrice
         Binary64.kalshiUpPrice Binary64.kalshiDownPrice];
    (split; [destruct hasUD, hasDU; auto; discriminate|]);
    repeat split; congruence.
Qed.

Lemma detectOpportunity64_returns T t md :
  let hasUD := (Binary64.costUpDown md <? T)%float in
  let hasDU := (Binary64.costDownUp md <? T)%float in
  hasUD = true \/ hasDU = true ->
  Binary64.determineAction (hasUD && hasDU) hasUD hasDU
                           (Binary64.polymarket md) (Binary64.kalshi md) <> skip ->
  exists o, Binary64.detectOpportunity T t md = Some o.
Proof.
  unfold Binary64.detectOpportunity, Binary64.costUpDown, Binary64.costDownUp.
  cbv zeta.
  set (hasUD := (_ <? T)%float). set (hasDU := (_ <? T)%float).
  intros Hel Hact.
  replace (negb hasUD && negb hasDU) with false
    by (destruct Hel as [E | E]; rewrite E; [|destruct hasUD]; reflexivity).
  destruct (Binary64.determineAction (hasUD && hasDU) hasUD hasDU
              (Binary64.polymarket md) (Binary64.kalshi md));
    [eexists; reflexivity | eexists; reflexivity | contradiction].
Qed.

Lemma detectOpportunity64_skipped T t md :
  let hasUD := (Binary64.costUpDown md <? T)%float in
  let hasDU := (Binary64.costDownUp md <? T)%float in
  Binary64.determineAction (hasUD && hasDU) hasUD hasDU
                           (Binary64.polymarket md) (Binary64.kalshi md) = skip ->
  Binary64.detectOpportunity T t md = None.
Proof.
  unfold Binary64.detectOpportunity, Binary64.costUpDown, Binary64.costDownUp.
  cbv zeta.
  set (hasUD := (_ <? T)%float). set (hasDU := (_ <? T)%float).
  intros ->. destruct (negb hasUD && negb hasDU); reflexivity.
Qed.

(** [C1] Both combinations eligible, the costs being the sums the program
    computes: an opportunity is returned; with both settlement prices
    present, venue B's above venue A's gives buy A-up/B-down and venue A's
    above venue B's gives buy A-down/B-up; with equal settlement prices, or
    one of them absent (or not a number), the action is the one of the
    cheaper combination: its cost equals the minimum of the two costs, and on
    a tie it is buy A-down/B-up. *)
Theorem C1_both_eligible (T : float) (t : Z) (md : Binary64.MarketData) :
  (Binary64.costUpDown md <? T)%float = true ->
  (Binary64.costDownUp md <? T)%float = true ->
  exists o,
    Binary64.detectOpportunity T t md = Some o /\
    (forall sA sB,
        Binary64.bettedPrice (Binary64.polymarket md) = Some sA ->
        Binary64.bettedPrice (Binary64.kalshi md) = Some sB ->
        (sA <? sB)%float = true ->
        Binary64.action o = buy_poly_up_kalshi_down) /\
    (forall sA sB,
        Binary64.bettedPrice (Binary64.polymarket md) = Some sA ->
        Binary64.bettedPrice (Binary64.kalshi md) = Some sB ->
        (sB <? sA)%float = true ->
        Binary64.action o = buy_poly_down_kalshi_up) /\
    ((Binary64.bettedPrice (Binary64.polymarket md) = None \/
      Binary64.bettedPrice (Binary64.kalshi md) = None \/
      (exists sA sB,
          Binary64.bettedPrice (Binary64.polymarket md) = Some sA /\
          Binary64.bettedPrice (Binary64.kalshi md) = Some sB /\
          ((sA =? sB)%float = true \/ is_nan sA = true \/ is_nan sB = true))) ->
     ((Binary64.costUpDown md <? Binary64.costDownUp md)%float = true ->
      Binary64.action o = buy_poly_up_kalshi_down) /\
     ((Binary64.costUpDown md <? Binary64.costDownUp md)%float = false ->
      Binary64.action o = buy_poly_down_kalshi_up) /\
     Binary64.action o <> skip /\
     (Binary64.action_cost md (Binary64.action o)
      =? Binary64.Math_min (Binary64.costUpDown md) (Binary64.costDownUp md))%float
     = true).
Proof.
  intros B1 B2.
  destruct (detectOpportunity64_returns T t md) as [o Ho].
  { left. exact B1. }
  { rewrite B1, B2. apply determineAction64_both_not_skip. }
  exists o. split; [exact Ho|].
  apply detectOpportunity64_some in Ho. cbv zeta in Ho.
  destruct Ho as (_ & Hact & Hns & _).
  rewrite B1, B2 in Hact. cbn [andb] in Hact.
  rewrite determineAction64_both in Hact.
  fold (Binary64.costUpDown md) in Hact. fold (Binary64.costDownUp md) in Hact.
  destruct (ltb_not_nan _ _ B1) as [N1 _]. destruct (ltb_not_nan _ _ B2) as [N2 _].
  assert (Hcheap :
            Binary64.action o =
              (if (Binary64.costUpDown md <? Binary64.costDownUp md)%float
               then buy_poly_up_kalshi_down else buy_poly_down_kalshi_up) ->
            ((Binary64.costUpDown md <? Binary64.costDownUp md)%float = true ->
             Binary64.action o = buy_poly_up_kalshi_down) /\
            ((Binary64.costUpDown md <? Binary64.costDownUp md)%float = false ->
             Binary64.action o = buy_poly_down_kalshi_up) /\
            Binary64.action o <> skip /\
            (Binary64.action_cost md (Binary64.action o)
             =? Binary64.Math_min (Binary64.costUpDown md) (Binary64.costDownUp md))%float
            = true).
  { intros E.
    destruct (Binary64.costUpDown md <? Binary64.costDownUp md)%float eqn:Hc;
      rewrite E; cbn [Binary64.action_cost];
      (split; [|split; [|split]]); try discriminate; try reflexivity.
    - rewrite (Math_min_lt _ _ Hc). now apply eqb_refl_number.
    - now apply Math_min_ge. }
  split; [|split].
  - intros sA sB EA EB Hlt. rewrite EA, EB in Hact. now rewrite Hlt in Hact.
  - intros sA sB EA EB Hlt. rewrite EA, EB in Hact.
    now rewrite (ltb_asym _ _ Hlt), Hlt in Hact.
  - intros [EA | [EB | (sA & sB & EA & EB & Hun)]]; apply Hcheap.
    + now rewrite EA in Hact.
    + rewrite EB in Hact. now destruct (Binary64.bettedPrice (Binary64.polymarket md)).
    + rewrite EA, EB in Hact.
      assert (Hno : (sA <? sB)%float = false /\ (sB <? sA)%float = false).
      { destruct Hun as [He | Hn]; [now apply eqb_not_ltb | now apply nan_not_ltb]. }
      destruct Hno as [H1 H2]. now rewrite H1, H2 in Hact.
Qed.

Lemma C1_both_eligible_witness :
  exists o,
    Binary64.detectOpportunity 90 0 Binary64.md_both = Some o /\
    Binary64.action o = buy_poly_up_kalshi_down /\
    (Binary64.action_cost Binary64.md_both (Binary64.action o) =? 85)%float = true.
Proof.
  destruct (C1_both_eligible 90 0 Binary64.md_both) as (o & Ho & _ & _ & Hcheap);
    [reflexivity | reflexivity |].
  exists o. split; [exact Ho|].
  destruct Hcheap as (Hud & _ & _ & Hmin); [left; reflexivity|].
  split; [apply Hud; reflexivity | exact Hmin].
Defined.

Lemma only_up_down_decision64 T t md :
  (Binary64.costUpDown md <? T)%float = true ->
  (Binary64.costDownUp md <? T)%float = false ->
  (Binary64.settlement_prices ltb md ->
   exists o, Binary64.detectOpportunity T t md = Some o /\
             Binary64.action o = buy_poly_up_kalshi_down) /\
  (~ Binary64.settlement_prices ltb md -> Binary64.detectOpportunity T t md = None).
Proof.
  intros B1 B2.
  split.
  - intros (sA & sB & EA & EB & Hlt).
    assert (Hact : Binary64.determineAction false true false
                     (Binary64.polymarket md) (Binary64.kalshi md)
                   = buy_poly_up_kalshi_down).
    { rewrite determineAction64_only_up_down, EA, EB. now rewrite Hlt. }
    destruct (detectOpportunity64_returns T t md) as [o Ho].
    { left. exact B1. }
    { rewrite B1, B2. cbn [andb]. rewrite Hact. discriminate. }
    exists o. split; [exact Ho|].
    apply detectOpportunity64_some in Ho. cbv zeta in Ho.
    destruct Ho as (_ & Ha & _). rewrite B1, B2 in Ha. cbn [andb] in Ha. congruence.
  - intros Hno. apply detectOpportunity64_skipped. cbv zeta.
    rewrite B1, B2. cbn [andb]. rewrite determineAction64_only_up_down.
    destruct (Binary64.bettedPrice (Binary64.polymarket md)) as [sA|] eqn:EA;
      [|reflexivity].
    destruct (Binary64.bettedPrice (Binary64.kalshi md)) as [sB|] eqn:EB;
      [|reflexivity].
    destruct (sA <? sB)%float eqn:Hc; [|reflexivity].
    exfalso. apply Hno. exists sA, sB. auto.
Qed.

Lemma only_down_up_decision64 T t md :
  (Binary64.costUpDown md <? T)%float = false ->
  (Binary64.costDownUp md <? T)%float = true ->
  (Binary64.settlement_prices Binary64.gtb md ->
   exists o, Binary64.detectOpportunity T t md = Some o /\
             Binary64.action o = buy_poly_down_kalshi_up) /\
  (~ Binary64.settlement_prices Binary64.gtb md ->
   Binary64.detectOpportunity T t md = None).
Proof.
  intros B1 B2.
  split.
  - intros (sA & sB & EA & EB & Hlt).
    assert (Hact : Binary64.determineAction false false true
                     (Binary64.polymarket md) (Binary64.kalshi md)
                   = buy_poly_down_kalshi_up).
    { rewrite determineAction64_only_down_up, EA, EB.
      unfold Binary64.gtb in Hlt. now rewrite Hlt. }
    destruct (detectOpportunity64_returns T t md) as [o Ho].
    { right. exact B2. }
    { rewrite B1, B2. cbn [andb]. rewrite Hact. discriminate. }
    exists o. split; [exact Ho|].
    apply detectOpportunity64_some in Ho. cbv zeta in Ho.
    destruct Ho as (_ & Ha & _). rewrite B1, B2 in Ha. cbn [andb] in Ha. congruence.
  - intros Hno. apply detectOpportunity64_skipped. cbv zeta.
    rewrite B1, B2. cbn [andb]. rewrite determineAction64_only_down_up.
    destruct (Binary64.bettedPrice (Binary64.polymarket md)) as [sA|] eqn:EA;
      [|reflexivity].
    destruct (Binary64.bettedPrice (Binary64.kalshi md)) as [sB|] eqn:EB;
      [|reflexivity].
    destruct (sB <? sA)%float eqn:Hc; [|reflexivity].
    exfalso. apply Hno. exists sA, sB. auto.
Qed.

Lemma settlement_prices_dec R md :
  Binary64.settlement_prices R md \/ ~ Binary64.settlement_prices R md.
Proof.
  unfold Binary64.settlement_prices.
  destruct (Binary64.bettedPrice (Binary64.polymarket md)) as [sA|];
    [|right; intros (a & b & E & _); discriminate].
  destruct (Binary64.bettedPrice (Binary64.kalshi md)) as [sB|];
    [|right; intros (a & b & _ & E & _); discriminate].
  destruct (R sA sB) eqn:r.
  - left. now exists sA, sB.
  - right. intros (a & b & EA & EB & r'). congruence.
Qed.

Lemma settlement_prices_missing R md :
  Binary64.bettedPrice (Binary64.polymarket md) = None \/
  Binary64.bettedPrice (Binary64.kalshi md) = None ->
  ~ Binary64.settlement_prices R md.
Proof.
  intros [E | E] (a & b & EA & EB & _); congruence.
Qed.

(** [C2] Exactly one combination eligible, the costs being the sums the
    program computes.  If it is A-up/B-down, that action is returned if and
    only if both settlement prices are present and venue A's is strictly
    below venue B's; if it is A-down/B-up, that action is returned if and
    only if both are present and venue A's is strictly above venue B's; in
    every other case, a missing settlement price included,
    [detectOpportunity] returns no opportunity. *)
Theorem C2_single_eligible (T : float) (t : Z) (md : Binary64.MarketData) :
  ((Binary64.costUpDown md <? T)%float = true ->
   (Binary64.costDownUp md <? T)%float = false ->
   ((exists o, Binary64.detectOpportunity T t md = Some o /\
               Binary64.action o = buy_poly_up_kalshi_down) <->
    Binary64.settlement_prices (fun sA sB => (sA <? sB)%float) md) /\
   (~ Binary64.settlement_prices (fun sA sB => (sA <? sB)%float) md ->
    Binary64.detectOpportunity T t md = None) /\
   (Binary64.bettedPrice (Binary64.polymarket md) = None \/
    Binary64.bettedPrice (Binary64.kalshi md) = None ->
    Binary64.detectOpportunity T t md = None)) /\
  ((Binary64.costUpDown md <? T)%float = false ->
   (Binary64.costDownUp md <? T)%float = true ->
   ((exists o, Binary64.detectOpportunity T t md = Some o /\
               Binary64.action o = buy_poly_down_kalshi_up) <->
    Binary64.settlement_prices (fun sA sB => (sB <? sA)%float) md) /\
   (~ Binary64.settlement_prices (fun sA sB => (sB <? sA)%float) md ->
    Binary64.detectOpportunity T t md = None) /\
   (Binary64.bettedPrice (Binary64.polymarket md) = None \/
    Binary64.bettedPrice (Binary64.kalshi md) = None ->
    Binary64.detectOpportunity T t md = None)).
Proof.
  split; intros H1 H2.
  - destruct (only_up_down_decision64 T t md H1 H2) as [Hyes Hno].
    split; [|split].
    + split; [|exact Hyes].
      intros (o & Ho & _).
      destruct (settlement_prices_dec ltb md) as [Hs | Hs]; [exact Hs|].
      rewrite (Hno Hs) in Ho. discriminate.
    + exact Hno.
    + intros Hm. apply Hno. exact (settlement_prices_missing _ _ Hm).
  - destruct (only_down_up_decision64 T t md H1 H2) as [Hyes Hno].
    split; [|split].
    + split; [|exact Hyes].
      intros (o & Ho & _).
      destruct (settlement_prices_dec Binary64.gtb md) as [Hs | Hs]; [exact Hs|].
      rewrite (Hno Hs) in Ho. discriminate.
    + exact Hno.
    + intros Hm. apply Hno. exact (settlement_prices_missing _ _ Hm).
Qed.

Lemma C2_single_eligible_witness :
  (exists o, Binary64.detectOpportunity 90 0 Binary64.md_single = Some o /\
             Binary64.action o = buy_poly_up_kalshi_down) /\
  Binary64.detectOpportunity 90 0 Binary64.md_single_nodata = None.
Proof.
  split.
  - apply (proj1 (C2_single_eligible 90 0 Binary64.md_single));
      [reflexivity | reflexivity |].
    exists 38%float, 42%float. repeat split.
  - apply (proj1 (C2_single_eligible 90 0 Binary64.md_single_nodata));
      [reflexivity | reflexivity |].
    left. reflexivity.
Defined.

(** The rounding of the sum decides: venue A's up price [0.57 * 100] and
    venue B's down price 33 add up to exactly 90 in binary64, so the
    combination is not eligible under a threshold of 90 and nothing is
    returned, although the settlement prices would allow the trade. *)
Lemma rounded_sum_is_not_eligible :
  (Binary64.costUpDown Binary64.md_rounded =? 90)%float = true /\
  Binary64.detectOpportunity 90 0 Binary64.md_rounded = None.
Proof. split; reflexivity. Qed.

(** [C10] The cost recorded in an opportunity is not always the cost of the
    combination it buys.  With computed costs 85 and 87, both below the
    threshold 90, and settlement prices 60 (venue A) and 50 (venue B), the
    action is buy A-down/B-up, whose combination costs 87, while [totalCost]
    is 85, the cost of the other combination, and [profitPotential] is the
    profit of that other combination, above the profit of the one bought. *)
Theorem C10_totalCost_of_the_other_combination :
  exists o,
    Binary64.detectOpportunity 90 0 Binary64.md_both_settled = Some o /\
    Binary64.action o = buy_poly_down_kalshi_up /\
    Binary64.action_cost Binary64.md_both_settled (Binary64.action o) = 87%float /\
    Binary64.totalCost o = 85%float /\
    Binary64.profitPotential o = Binary64.profit_of 85 /\
    (Binary64.profit_of 87 <? Binary64.profitPotential o)%float = true.
Proof.
  eexists. split; [reflexivity|]. repeat split.
Qed.

(** On doubles the profit metric is not strictly decreasing: the two adjacent
    costs 0.15 and its successor give the same profit. *)
Remark profit_metric_of_adjacent_costs :
  (0x1.3333333333333p-3 <? next_up 0x1.3333333333333p-3)%float = true /\
  Binary64.profit_of 0x1.3333333333333p-3
  = Binary64.profit_of (next_up 0x1.3333333333333p-3).
Proof. split; reflexivity. Qed.

(** ** MarketMatcher *)

Lemma prefix_app sub s :
  String.prefix sub s = true <-> exists post, s = (sub ++ post)%string.
Proof.
  revert s. induction sub as [|c sub IH]; intros s.
  - split; [intros _; now exists s | intros _; destruct s; reflexivity].
  - destruct s as [|d s]; cbn [String.prefix String.append].
    + split; [discriminate | intros [post E]; discriminate].
    + destruct (Ascii.ascii_dec c d) as [-> | Hne].
      * rewrite IH. split; intros [post E]; exists post; congruence.
      * split; [discriminate | intros [post E]; congruence].
Qed.

Lemma includes_substring s sub :
  includes s sub = true <-> exists pre post, s = (pre ++ sub ++ post)%string.
Proof.
  induction s as [|c s IH].
  - cbn [includes]. rewrite orb_false_r, prefix_app. split.
    + intros [post E]. now exists EmptyString, post.
    + intros (pre & post & E). destruct pre as [|d pre]; [now exists post|].
      discriminate.
  - cbn [includes]. rewrite orb_true_iff, prefix_app, IH. split.
    + intros [[post E] | (pre & post & E)].
      * now exists EmptyString, post.
      * exists (String c pre), post. cbn. now rewrite E.
    + intros (pre & post & E). destruct pre as [|d pre].
      * left. now exists post.
      * right. exists pre, post. cbn in E. congruence.
Qed.

Lemma and_iff_both (A B C D : Prop) :
  (A <-> B) -> (C <-> D) -> (A /\ C <-> B /\ D).
Proof. tauto. Qed.

(** The loop test decides [candidate]. *)
Lemma kalshi_matches_candidate rt p k :
  kalshi_matches rt (poly_close_time rt p) k = true <-> candidate rt p k.
Proof.
  unfold kalshi_matches, candidate, within_tolerance, btc_15m_series,
    kalshi_close_time.
  rewrite andb_true_iff.
  apply and_iff_both.
  - destruct (poly_close_time rt p) as [tp|], (getTime rt (km_expiration_time k)) as [tk|];
      cbn [abs_diff time_ltb].
    + rewrite Z.ltb_lt. split.
      * intros H. now exists tp, tk.
      * intros (a & b & Ea & Eb & H). congruence.
    + split; [discriminate | intros (a & b & _ & E & _); discriminate].
    + split; [discriminate | intros (a & b & E & _); discriminate].
    + split; [discriminate | intros (a & b & E & _); discriminate].
  - destruct (km_series_ticker k) as [s|].
    + rewrite includes_substring. split.
      * intros (pre & post & E). now exists s, pre, post.
      * intros (s' & pre & post & E & Es). exists pre, post. congruence.
    + split; [discriminate | intros (s & pre & post & E & _); discriminate].
Qed.

(** [find] returns the first element that passes the test. *)
Lemma find_first {A} (f : A -> bool) (l : list A) (x : A) :
  find f l = Some x <->
  exists before after,
    l = before ++ x :: after /\ f x = true /\
    forall y, In y before -> f y = false.
Proof.
  induction l as [|a l IH]; cbn [find].
  - split; [discriminate|]. intros (before & after & E & _).
    destruct before; discriminate.
  - destruct (f a) eqn:Ha.
    + split.
      * intros E. injection E as <-. exists [], l. repeat split; auto.
        intros y [].
      * intros (before & after & E & Hx & Hb).
        destruct before as [|b before]; cbn in E; injection E as -> ->; auto.
        rewrite Hb in Ha by (now left). discriminate.
    + rewrite IH. split.
      * intros (before & after & -> & Hx & Hb).
        exists (a :: before), after. repeat split; auto.
        intros y [<- | Hy]; auto.
      * intros (before & after & E & Hx & Hb).
        destruct before as [|b before]; cbn in E; injection E as -> ->.
        -- congruence.
        -- exists before, after. repeat split; auto.
           intros y Hy. apply Hb. now right.
Qed.

Lemma find_none_iff {A} (f : A -> bool) (l : list A) :
  find f l = None <-> forall y, In y l -> f y = false.
Proof.
  split; [apply find_none|].
  induction l as [|a l IH]; intros H; cbn [find]; [reflexivity|].
  rewrite (H a) by (now left). apply IH. intros y Hy. apply H. now right.
Qed.

(** [C9] The matcher returns the first venue-B market, in list order, whose
    close time is less than 60 seconds from the venue-A close time and whose
    series ticker marks the 15-minute BTC series; it returns no match exactly
    when no listed market satisfies both.  The result is a single market,
    decided by position in the list only. *)
Theorem C9_first_match_wins (rt : Runtime) (p : PolyMarket) (ks : list KalshiMarket) :
  (forall k,
      findMatchingKalshiMarket rt p ks = Some k <->
      exists before after,
        ks = before ++ k :: after /\
        candidate rt p k /\
        forall k', In k' before -> ~ candidate rt p k') /\
  (findMatchingKalshiMarket rt p ks = None <->
   forall k, In k ks -> ~ candidate rt p k).
Proof.
  unfold findMatchingKalshiMarket. fold (poly_close_time rt p). split.
  - intros k. rewrite find_first. split.
    + intros (before & after & E & Hk & Hb). exists before, after.
      split; [exact E|]. split; [now apply kalshi_matches_candidate|].
      intros k' Hin Hc. apply kalshi_matches_candidate in Hc.
      rewrite (Hb k' Hin) in Hc. discriminate.
    + intros (before & after & E & Hk & Hb). exists before, after.
      split; [exact E|]. split; [now apply kalshi_matches_candidate|].
      intros k' Hin. apply not_true_iff_false. intros Hc.
      apply (Hb k' Hin). now apply kalshi_matches_candidate.
  - rewrite find_none_iff. split.
    + intros H k Hin Hc. apply kalshi_matches_candidate in Hc.
      rewrite (H k Hin) in Hc. discriminate.
    + intros H k Hin. apply not_true_iff_false. intros Hc.
      apply (H k Hin). now apply kalshi_matches_candidate.
Qed.

(** ** Trader *)

Lemma executeArbitrage_out_of_band pc kc cfg o amount w :
  amount < minTradeAmount cfg \/ maxTradeAmount cfg < amount ->
  executeArbitrage pc kc cfg o amount w = (returned None, w).
Proof.
  intros H. unfold executeArbitrage.
  replace (JS.ltb amount (minTradeAmount cfg) || JS.gtb amount (maxTradeAmount cfg))
    with true; [reflexivity|].
  symmetry. apply orb_true_iff.
  destruct H as [H | H]; [left; now apply ltb_lt | right; now apply gtb_gt].
Qed.

Lemma executeArbitrage_in_band pc kc cfg o amount w :
  minTradeAmount cfg <= amount -> amount <= maxTradeAmount cfg ->
  action o <> skip ->
  let ep := poly_order_event pc o amount (log w) in
  let ek := kalshi_order_event kc o amount (log w ++ [ep]) in
  executeArbitrage pc kc cfg o amount w =
  (returned
     (match poly_order pc o amount (log w),
            kalshi_order kc o amount (log w ++ [ep]) with
      | fulfilled _, fulfilled _ => Some (new_position o amount)
      | _, _ => None
      end),
   {| positions := positions w; log := log w ++ [ep; ek] |}).
Proof.
  intros Hmin Hmax Hact. cbv zeta. unfold executeArbitrage.
  rewrite (ltb_false _ _ Hmin), (proj2 (gtb_le _ _) Hmax). cbn [orb].
  set (ep := poly_order_event pc o amount (log w)).
  set (ek := kalshi_order_event kc o amount (log w ++ [ep])).
  replace (log w ++ [ep; ek]) with ((log w ++ [ep]) ++ [ek])
    by (now rewrite <- app_assoc).
  subst ep ek.
  unfold poly_order_event, kalshi_order_event, poly_order, kalshi_order,
    poly_leg, kalshi_leg.
  destruct (action o); [| |contradiction];
    unfold try_catch, bind, place_legs, promise_allSettled2, bind, call, ret;
    cbn [fst snd log positions];
    match goal with
    | |- context [p_buyToken pc ?h ?i ?s ?a ?p] =>
        destruct (p_buyToken pc h i s a p)
    end;
    match goal with
    | |- context [k_buyToken kc ?h ?i ?s ?a ?p] =>
        destruct (k_buyToken kc h i s a p)
    end; reflexivity.
Qed.

(** An in-band amount: both orders are placed, and two fulfilled
    placements give the Position. *)
Lemma executeArbitrage_accepts pc kc cfg o amount w :
  action o <> skip ->
  minTradeAmount cfg <= amount -> amount <= maxTradeAmount cfg ->
  let ep := poly_order_event pc o amount (log w) in
  let ek := kalshi_order_event kc o amount (log w ++ [ep]) in
  let result := executeArbitrage pc kc cfg o amount w in
  log (snd result) = log w ++ [ep; ek] /\
  (is_fulfilled (poly_order pc o amount (log w)) ->
   is_fulfilled (kalshi_order kc o amount (log w ++ [ep])) ->
   fst result = returned (Some (new_position o amount))).
Proof.
  intros Hact Hmin Hmax. cbv zeta.
  rewrite (executeArbitrage_in_band pc kc cfg o amount w Hmin Hmax Hact).
  cbn [fst snd log]. split; [reflexivity|].
  intros [tp Ep] [tk Ek]. now rewrite Ep, Ek.
Qed.

(** [C5] For an action other than SKIP and an amount inside the band,
    [executeArbitrage] places the two legs, one call per venue, each settling
    on its own, and makes no other venue call; it returns a Position if and
    only if both placements are fulfilled.  When either placement is
    rejected the result is null, nothing is added to the ledger, and the
    other leg's order stays as placed. *)
Theorem C5_position_iff_both_legs
        (pc : PolymarketClient) (kc : KalshiClient) (cfg : TraderConfig)
        (o : ArbitrageOpportunity) (amount : Q) (w : World) :
  action o <> skip ->
  minTradeAmount cfg <= amount ->
  amount <= maxTradeAmount cfg ->
  let rp := poly_order pc o amount (log w) in
  let ep := poly_order_event pc o amount (log w) in
  let rk := kalshi_order kc o amount (log w ++ [ep]) in
  let ek := kalshi_order_event kc o amount (log w ++ [ep]) in
  let result := executeArbitrage pc kc cfg o amount w in
  log (snd result) = log w ++ [ep; ek] /\
  positions (snd result) = positions w /\
  ((exists p, fst result = returned (Some p)) <->
   is_fulfilled rp /\ is_fulfilled rk) /\
  (is_fulfilled rp /\ is_fulfilled rk ->
   fst result = returned (Some (new_position o amount))) /\
  (rp = rejected \/ rk = rejected -> fst result = returned None).
Proof.
  intros Hact Hmin Hmax. cbv zeta.
  rewrite (executeArbitrage_in_band pc kc cfg o amount w Hmin Hmax Hact).
  cbn [fst snd log positions]. unfold is_fulfilled.
  split; [reflexivity|]. split; [reflexivity|].
  destruct (poly_order pc o amount (log w)) as [tp|];
    destruct (kalshi_order kc o amount _) as [tk|];
    (split; [split|split]).
  all: try (intros [p E]; discriminate).
  all: try (intros [[v E] [v' E']]; discriminate).
  all: try (intros [E | E]; discriminate).
  all: try reflexivity.
  - intros _. split; eexists; reflexivity.
  - intros _. eexists; reflexivity.
Qed.

(** [C8] An amount strictly below [minTradeAmount] or strictly above
    [maxTradeAmount] makes [executeArbitrage] return null with no venue call
    and no exception; every amount with [min <= amount <= max] passes the
    guard, so both boundaries of the band are accepted and the two orders are
    placed. *)
Theorem C8_band_is_inclusive
        (pc : PolymarketClient) (kc : KalshiClient) (cfg : TraderConfig)
        (o : ArbitrageOpportunity) (amount : Q) (w : World) :
  let ep := poly_order_event pc o amount (log w) in
  let ek := kalshi_order_event kc o amount (log w ++ [ep]) in
  let result := executeArbitrage pc kc cfg o amount w in
  (amount < minTradeAmount cfg \/ maxTradeAmount cfg < amount ->
   result = (returned None, w)) /\
  (action o <> skip ->
   minTradeAmount cfg <= amount -> amount <= maxTradeAmount cfg ->
   log (snd result) = log w ++ [ep; ek] /\
   (is_fulfilled (poly_order pc o amount (log w)) ->
    is_fulfilled (kalshi_order kc o amount (log w ++ [ep])) ->
    fst result = returned (Some (new_position o amount)))) /\
  (action o <> skip ->
   minTradeAmount cfg <= maxTradeAmount cfg ->
   amount == minTradeAmount cfg \/ amount == maxTradeAmount cfg ->
   log (snd result) = log w ++ [ep; ek] /\
   (is_fulfilled (poly_order pc o amount (log w)) ->
    is_fulfilled (kalshi_order kc o amount (log w ++ [ep])) ->
    fst result = returned (Some (new_position o amount)))).
Proof.
  cbv zeta.
  pose proof (executeArbitrage_accepts pc kc cfg o amount w) as Hin. cbv zeta in Hin.
  split; [apply executeArbitrage_out_of_band|].
  split; [exact Hin|].
  intros Hact Hband [E | E]; apply Hin; auto; rewrite E; auto using Qle_refl.
Qed.

(** ** Redeemer *)

Lemma redeem_promises_legs pc kc p :
  redeem_promises pc kc p =
  map (redeem_call pc kc (pos_marketId p)) (legs_to_redeem p).
Proof.
  unfold redeem_promises, legs_to_redeem. cbn [filter leg_amount].
  destruct (JS.gtb (polyUp p) 0), (JS.gtb (polyDown p) 0),
    (JS.gtb (kalshiUp p) 0), (JS.gtb (kalshiDown p) 0); reflexivity.
Qed.

Lemma promise_allSettled_legs pc kc id ls w :
  promise_allSettled (map (redeem_call pc kc id) ls) w =
  (returned (redeem_results pc kc id ls (log w)),
   {| positions := positions w;
      log := log w ++ redeem_events pc kc id ls (log w) |}).
Proof.
  revert w. induction ls as [|l ls IH]; intros w.
  - cbn. rewrite app_nil_r. now destruct w.
  - cbn [map promise_allSettled redeem_results redeem_events].
    unfold bind at 1. unfold redeem_call at 1. unfold call at 1.
    unfold bind. rewrite IH. cbn [log positions ret].
    now rewrite <- app_assoc.
Qed.

Lemma nth_error_update_nth {A} (f : A -> A) (l : list A) (i j : nat) :
  nth_error (update_nth i f l) j =
  if Nat.eqb i j then option_map f (nth_error l j) else nth_error l j.
Proof.
  revert i j. induction l as [|x l IH]; intros i j.
  - cbn. destruct j, (Nat.eqb i _); reflexivity.
  - destruct i, j; cbn; try reflexivity. apply IH.
Qed.

Lemma length_update_nth {A} (f : A -> A) (l : list A) (i : nat) :
  length (update_nth i f l) = length l.
Proof.
  revert i. induction l as [|x l IH]; intros i; [reflexivity|].
  destruct i; cbn; [reflexivity | now rewrite IH].
Qed.

Lemma check_position_poll_step pc kc i p w :
  check_position pc kc i p w = (returned tt, poll_step pc kc i p w).
Proof.
  unfold check_position, poll_step.
  destruct (negb (is_active p)); [reflexivity|].
  unfold both_resolved, resolution_events, kalshi_resolved, poly_resolved.
  unfold try_catch at 1, bind at 1, promise_all2, bind, call, await.
  cbn [log positions].
  destruct (p_isMarketResolved pc (log w) (pos_marketId p)) as [[|]|];
    destruct (k_isMarketResolved kc _ (pos_marketId p)) as [[|]|];
    cbn [ret throw succeeded andb fst snd];
    try (rewrite <- app_assoc; reflexivity).
  unfold redeemPosition, try_catch, bind.
  rewrite redeem_promises_legs, promise_allSettled_legs. cbn [log positions].
  rewrite <- !app_assoc. cbn [app].
  destruct (forallb succeeded _); reflexivity.
Qed.

Lemma evolves_refl p : evolves p p.
Proof. split; auto. Qed.

Lemma evolves_redeem p : status p = active -> evolves p (set_status redeemed p).
Proof. intros H. split; [congruence | auto]. Qed.

Lemma evolves_trans p q r : evolves p q -> evolves q r -> evolves p r.
Proof.
  intros [Hn1 [-> | [Ha ->]]] [Hn2 H2]; [split; assumption|].
  rewrite Hn2 by (cbn; discriminate). now apply evolves_redeem.
Qed.

Lemma Forall2_evolves_refl l : Forall2 evolves l l.
Proof. induction l; constructor; auto using evolves_refl. Qed.

Lemma Forall2_evolves_trans l1 l2 l3 :
  Forall2 evolves l1 l2 -> Forall2 evolves l2 l3 -> Forall2 evolves l1 l3.
Proof.
  intros H12. revert l3. induction H12; intros l3 H23; inversion H23; subst;
    constructor; eauto using evolves_trans.
Qed.

Lemma Forall2_evolves_update i p l :
  nth_error l i = Some p -> status p = active ->
  Forall2 evolves l (update_nth i (set_status redeemed) l).
Proof.
  revert i. induction l as [|x l IH]; intros i Hi Ha.
  - destruct i; discriminate.
  - destruct i; cbn in *.
    + injection Hi as ->. constructor; [now apply evolves_redeem|].
      apply Forall2_evolves_refl.
    + constructor; [apply evolves_refl | now apply IH].
Qed.

Lemma redeem_results_events pc kc id ls h :
  forallb succeeded (redeem_results pc kc id ls h) = true <->
  Forall redemption_succeeded (redeem_events pc kc id ls h).
Proof.
  revert h. induction ls as [|l ls IH]; intros h; cbn.
  - split; auto.
  - rewrite andb_true_iff, IH. split.
    + intros [Hr Hrest]. constructor; [|exact Hrest].
      destruct l, (redeem_answer pc kc id _ h) as [[|]|]; cbn in *;
        try discriminate; reflexivity.
    + intros H. inversion H as [|e es He Hes]; subst. split; [|exact Hes].
      destruct l, (redeem_answer pc kc id _ h) as [[|]|]; cbn in *;
        try discriminate; reflexivity.
Qed.

Lemma redeem_events_legs pc kc id ls h :
  map redeemed_leg (redeem_events pc kc id ls h) = map (fun l => Some (id, l)) ls.
Proof.
  revert h. induction ls as [|l ls IH]; intros h; cbn; [reflexivity|].
  rewrite IH. now destruct l.
Qed.

Lemma is_active_status p : is_active p = true <-> status p = active.
Proof. unfold is_active. destruct (status p); split; congruence. Qed.

Lemma succeeded_true r : succeeded r = true <-> r = fulfilled true.
Proof. destruct r as [[|]|]; cbn; split; congruence. Qed.

(** One poll step only touches the Position it processes. *)
Lemma poll_step_evolves pc kc i p w :
  nth_error (positions w) i = Some p ->
  Forall2 evolves (positions w) (positions (poll_step pc kc i p w)).
Proof.
  intros Hi. unfold poll_step.
  destruct (is_active p) eqn:Ha; cbn [negb]; [|apply Forall2_evolves_refl].
  destruct (both_resolved pc kc p (log w)); cbn [positions];
    [|apply Forall2_evolves_refl].
  destruct (forallb succeeded _); [|apply Forall2_evolves_refl].
  apply Forall2_evolves_update with p; [exact Hi | now apply is_active_status].
Qed.

Lemma check_from_S pc kc i n w :
  check_from pc kc i (S n) w =
  match nth_error (positions w) i with
  | Some p => check_from pc kc (S i) n (poll_step pc kc i p w)
  | None => (returned tt, w)
  end.
Proof.
  cbn [check_from]. unfold bind, get_positions.
  destruct (nth_error (positions w) i);
    [rewrite check_position_poll_step|]; reflexivity.
Qed.

Lemma check_from_evolves pc kc n i w :
  fst (check_from pc kc i n w) = returned tt /\
  Forall2 evolves (positions w) (positions (snd (check_from pc kc i n w))).
Proof.
  revert i w. induction n as [|n IH]; intros i w.
  - split; [reflexivity | apply Forall2_evolves_refl].
  - rewrite check_from_S.
    destruct (nth_error (positions w) i) as [p|] eqn:Hi.
    + destruct (IH (S i) (poll_step pc kc i p w)) as [Hr Hev].
      split; [exact Hr|].
      eapply Forall2_evolves_trans; [|exact Hev].
      now apply poll_step_evolves.
    + split; [reflexivity | apply Forall2_evolves_refl].
Qed.

(** [C7] A poll step on an ACTIVE Position checks both venues and, only when
    both report resolved, calls redemption once for each leg with a positive
    amount.  The Position becomes REDEEMED exactly when both venues reported
    resolved and every one of these calls was fulfilled with [true]; if any
    attempted redemption fails it stays ACTIVE.  A Position that is not
    ACTIVE (REDEEMED or EXPIRED) is left untouched, without any venue call;
    over a whole poll every Position is either unchanged or flipped from
    ACTIVE to REDEEMED, so REDEEMED never goes back to ACTIVE. *)
Theorem C7_redeemed_only_when_all_succeed
        (pc : PolymarketClient) (kc : KalshiClient) :
  (forall i p w,
      nth_error (positions w) i = Some p ->
      let w' := snd (check_position pc kc i p w) in
      let attempts := attempted_redemptions pc kc p (log w) in
      fst (check_position pc kc i p w) = returned tt /\
      Forall2 evolves (positions w) (positions w') /\
      (forall j, j <> i -> nth_error (positions w') j = nth_error (positions w) j) /\
      (status p <> active -> w' = w) /\
      (status p = active ->
       log w' = log w ++ resolution_events pc kc p (log w) ++ attempts /\
       map redeemed_leg attempts =
         (if both_resolved pc kc p (log w)
          then map (fun l => Some (pos_marketId p, l)) (legs_to_redeem p)
          else []) /\
       (nth_error (positions w') i = Some (set_status redeemed p) <->
        poly_resolved pc p (log w) = fulfilled true /\
        kalshi_resolved pc kc p (log w) = fulfilled true /\
        Forall redemption_succeeded attempts) /\
       (Exists (fun e => ~ redemption_succeeded e) attempts ->
        nth_error (positions w') i = Some p))) /\
  (forall w,
      fst (checkAndRedeem pc kc w) = returned tt /\
      Forall2 evolves (positions w) (positions (snd (checkAndRedeem pc kc w)))).
Proof.
  split.
  - intros i p w Hi. cbv zeta. rewrite check_position_poll_step. cbn [fst snd].
    split; [reflexivity|]. split; [now apply poll_step_evolves|].
    unfold poll_step, attempted_redemptions.
    destruct (status p) eqn:Hst.
    2,3: assert (Hna : is_active p = false) by (unfold is_active; now rewrite Hst);
      rewrite Hna; cbn [negb]; repeat split; auto; discriminate.
    assert (Ha : is_active p = true) by (unfold is_active; now rewrite Hst).
    rewrite Ha. cbn [negb].
    assert (Hp_ne : Some p <> Some (set_status redeemed p)).
    { intros E. injection E as E. apply (f_equal status) in E. cbn in E. congruence. }
    unfold both_resolved.
    destruct (succeeded (poly_resolved pc p (log w))) eqn:Hrp; cbn [andb];
      [destruct (succeeded (kalshi_resolved pc kc p (log w))) eqn:Hrk|].
    + cbn [positions log]. apply succeeded_true in Hrp, Hrk.
      pose proof (redeem_results_events pc kc (pos_marketId p) (legs_to_redeem p)
                    (log w ++ resolution_events pc kc p (log w))) as Hall.
      set (evs := redeem_events pc kc (pos_marketId p) (legs_to_redeem p) _) in *.
      destruct (forallb succeeded _) eqn:Hf.
      * split.
        { intros j Hj. rewrite nth_error_update_nth.
          destruct (Nat.eqb i j) eqn:E; [apply Nat.eqb_eq in E; congruence|reflexivity]. }
        split; [congruence|]. intros _.
        split; [now rewrite app_assoc|].
        split; [apply redeem_events_legs|].
        split.
        { rewrite nth_error_update_nth, Nat.eqb_refl, Hi. cbn [option_map].
          split; [intros _ | reflexivity].
          repeat split; auto. now apply Hall. }
        { intros Hex. exfalso. apply Exists_exists in Hex.
          destruct Hex as (e & Hin & Hne). apply Hne.
          assert (HF : Forall redemption_succeeded evs) by now apply Hall.
          rewrite Forall_forall in HF. now apply HF. }
      * split; [reflexivity|]. split; [congruence|]. intros _.
        split; [now rewrite app_assoc|].
        split; [apply redeem_events_legs|].
        split; [|intros _; exact Hi].
        rewrite Hi. split; [intros E; now apply Hp_ne in E|].
        intros (_ & _ & HF). apply Hall in HF. congruence.
    + (* Kalshi does not report resolved *)
      cbn [positions log].
      split; [reflexivity|]. split; [congruence|]. intros _.
      split; [now rewrite app_nil_r|]. split; [reflexivity|].
      split; [|intros _; exact Hi].
      rewrite Hi. split; [intros E; now apply Hp_ne in E|].
      intros (_ & E & _). apply succeeded_true in E. congruence.
    + (* Polymarket does not report resolved *)
      cbn [positions log].
      split; [reflexivity|]. split; [congruence|]. intros _.
      split; [now rewrite app_nil_r|]. split; [reflexivity|].
      split; [|intros _; exact Hi].
      rewrite Hi. split; [intros E; now apply Hp_ne in E|].
      intros (E & _). apply succeeded_true in E. congruence.
  - intros w. unfold checkAndRedeem, bind, get_positions.
    apply check_from_evolves.
Qed.

(** ** Computations that leave the ledger alone *)

Create HintDb ledger discriminated.

Lemma keeps_ret {A} (a : A) : keeps_positions (ret a).
Proof. intros w. reflexivity. Qed.

Lemma keeps_throw {A} : keeps_positions (@throw A).
Proof. intros w. reflexivity. Qed.

Lemma keeps_call {A} (answer : history -> settled A) ev :
  keeps_positions (call answer ev).
Proof. intros w. reflexivity. Qed.

Lemma keeps_bind {A B} (m : M A) (k : A -> M B) :
  keeps_positions m -> (forall a, keeps_positions (k a)) ->
  keeps_positions (bind m k).
Proof.
  intros Hm Hk w. unfold bind. specialize (Hm w).
  destruct (m w) as [[a|] w1]; cbn [snd] in *; [|exact Hm].
  now rewrite Hk.
Qed.

Lemma keeps_try_catch {A} (m h : M A) :
  keeps_positions m -> keeps_positions h -> keeps_positions (try_catch m h).
Proof.
  intros Hm Hh w. unfold try_catch. specialize (Hm w).
  destruct (m w) as [[a|] w1]; cbn [snd] in *; [exact Hm|].
  now rewrite Hh.
Qed.

Lemma keeps_await {A} (r : settled A) : keeps_positions (await r).
Proof. destruct r; [apply keeps_ret | apply keeps_throw]. Qed.

#[local] Hint Resolve keeps_ret keeps_throw keeps_call keeps_await : ledger.
#[local] Hint Extern 2 (keeps_positions (bind _ _)) =>
  apply keeps_bind; [|intros ?] : ledger.
#[local] Hint Extern 2 (keeps_positions (try_catch _ _)) =>
  apply keeps_try_catch : ledger.

Lemma keeps_promise_all2 {A B} (a : M (settled A)) (b : M (settled B)) :
  keeps_positions a -> keeps_positions b -> keeps_positions (promise_all2 a b).
Proof. intros Ha Hb. unfold promise_all2. auto 10 with ledger. Qed.

Lemma keeps_promise_allSettled2 {A B} (a : M (settled A)) (b : M (settled B)) :
  keeps_positions a -> keeps_positions b ->
  keeps_positions (promise_allSettled2 a b).
Proof. intros Ha Hb. unfold promise_allSettled2. auto 10 with ledger. Qed.

#[local] Hint Resolve keeps_promise_all2 keeps_promise_allSettled2 : ledger.

Lemma keeps_match_loop rt pc kc pms kms acc :
  keeps_positions (match_loop rt pc kc pms kms acc).
Proof.
  revert acc. induction pms as [|pm pms IH]; intros acc; cbn [match_loop].
  - auto with ledger.
  - destruct (findMatchingKalshiMarket rt pm kms); auto 10 with ledger.
Qed.

Lemma keeps_matchMarkets rt pc kc : keeps_positions (matchMarkets rt pc kc).
Proof.
  unfold matchMarkets. pose proof (keeps_match_loop rt pc kc).
  auto 10 with ledger.
Qed.

Lemma keeps_executeArbitrage pc kc cfg o amount :
  keeps_positions (executeArbitrage pc kc cfg o amount).
Proof.
  unfold executeArbitrage, place_legs.
  destruct (_ || _); [auto with ledger|].
  apply keeps_try_catch; [|auto with ledger].
  apply keeps_bind.
  - destruct (action o); auto 10 with ledger.
  - intros [[tp|] [tk|]]; auto with ledger.
Qed.

(** ** ArbitrageBot: the duplicate guard *)

Lemma executeArbitrage_result pc kc cfg o amount w :
  fst (executeArbitrage pc kc cfg o amount w) = returned None \/
  fst (executeArbitrage pc kc cfg o amount w) = returned (Some (new_position o amount)).
Proof.
  destruct (Qlt_le_dec amount (minTradeAmount cfg)) as [Hlo | Hlo].
  { left. rewrite executeArbitrage_out_of_band; auto. }
  destruct (Qlt_le_dec (maxTradeAmount cfg) amount) as [Hhi | Hhi].
  { left. rewrite executeArbitrage_out_of_band; auto. }
  assert (Hin : action o <> skip ->
                fst (executeArbitrage pc kc cfg o amount w) = returned None \/
                fst (executeArbitrage pc kc cfg o amount w) =
                returned (Some (new_position o amount))).
  { intros Hact. rewrite executeArbitrage_in_band by assumption. cbn [fst].
    destruct (poly_order pc o amount (log w)); [|now left].
    destruct (kalshi_order kc o amount _); [now right | now left]. }
  destruct (action o) eqn:Hact; try (apply Hin; discriminate).
  left. unfold executeArbitrage.
  rewrite (ltb_false _ _ Hlo), (proj2 (gtb_le _ _) Hhi), Hact. reflexivity.
Qed.

Lemma scan_market_eq rt pc kc bot md w :
  scan_market rt pc kc bot md w =
  if isResolved md then (returned tt, w)
  else
    match detectOpportunity (TAKE_PROFIT bot) (date_now rt (log w)) md with
    | None => (returned tt, w)
    | Some o =>
        if guarded (positions w) (opp_marketId o) then (returned tt, w)
        else
          let amount := calculateTradeAmount (trader bot) o (AVAILABLE_BALANCE bot) in
          match executeArbitrage pc kc (trader bot) o amount w with
          | (returned (Some p), w1) => push_position p w1
          | (returned None, w1) => (returned tt, w1)
          | (thrown, w1) => (thrown, w1)
          end
    end.
Proof.
  unfold scan_market, bind, now, get_positions, guarded.
  destruct (isResolved md); [reflexivity|].
  destruct (detectOpportunity _ _ md) as [o|]; [|reflexivity].
  destruct (match find _ (positions w) with Some p => is_active p | None => false end);
    [reflexivity|].
  cbv zeta.
  destruct (executeArbitrage pc kc (trader bot) o _ w) as [[[p|]|] w1]; reflexivity.
Qed.

(** One market of a scan either leaves the ledger as it is, or, the guard
    being open, appends the Position of a detected opportunity. *)
Lemma scan_market_positions rt pc kc bot md w :
  fst (scan_market rt pc kc bot md w) = returned tt /\
  (positions (snd (scan_market rt pc kc bot md w)) = positions w \/
   exists o amount,
     detectOpportunity (TAKE_PROFIT bot) (date_now rt (log w)) md = Some o /\
     guarded (positions w) (opp_marketId o) = false /\
     positions (snd (scan_market rt pc kc bot md w)) =
     positions w ++ [new_position o amount]).
Proof.
  rewrite scan_market_eq.
  destruct (isResolved md); [split; [reflexivity | now left]|].
  destruct (detectOpportunity (TAKE_PROFIT bot) (date_now rt (log w)) md) as [o|] eqn:Ho;
    [|split; [reflexivity | now left]].
  destruct (guarded (positions w) (opp_marketId o)) eqn:Hg;
    [split; [reflexivity | now left]|].
  cbv zeta.
  pose proof (executeArbitrage_result pc kc (trader bot) o
                (calculateTradeAmount (trader bot) o (AVAILABLE_BALANCE bot)) w) as Hr.
  pose proof (keeps_executeArbitrage pc kc (trader bot) o
                (calculateTradeAmount (trader bot) o (AVAILABLE_BALANCE bot)) w) as Hk.
  destruct (executeArbitrage pc kc (trader bot) o _ w) as [r w1].
  cbn [fst snd] in *.
  destruct Hr as [-> | ->].
  - split; [reflexivity|]. left. exact Hk.
  - split; [reflexivity|]. right.
    exists o, (calculateTradeAmount (trader bot) o (AVAILABLE_BALANCE bot)).
    repeat split; auto. cbn. now rewrite Hk.
Qed.

Lemma guarded_false_fresh ps id :
  Forall (fun p => status p = active) ps ->
  guarded ps id = false -> ~ In id (map pos_marketId ps).
Proof.
  intros Hall Hg Hin. unfold guarded in Hg.
  destruct (find _ ps) as [p|] eqn:Hf.
  - apply find_some in Hf. destruct Hf as [Hp _].
    rewrite Forall_forall in Hall. apply Hall in Hp.
    apply is_active_status in Hp. congruence.
  - apply in_map_iff in Hin. destruct Hin as (p & <- & Hp).
    apply (find_none _ _ Hf) in Hp. cbn in Hp.
    now rewrite String.eqb_refl in Hp.
Qed.

Lemma scan_market_invariant rt pc kc bot md w :
  one_entry_per_market (positions w) ->
  one_entry_per_market (positions (snd (scan_market rt pc kc bot md w))).
Proof.
  intros [Hall Hnd].
  destruct (scan_market_positions rt pc kc bot md w) as [_ [-> | (o & a & _ & Hg & ->)]];
    [now split|].
  split.
  - apply Forall_app. split; [exact Hall|]. now constructor.
  - rewrite map_app. cbn [map new_position pos_marketId].
    apply NoDup_app; [exact Hnd | repeat constructor; intros [] |].
    intros id Hin [<- | []]. revert Hin. now apply guarded_false_fresh.
Qed.

Lemma maintains_keeps P {A} (m : M A) : keeps_positions m -> maintains P m.
Proof. intros H w Hw. now rewrite H. Qed.

Lemma maintains_bind P {A B} (m : M A) (k : A -> M B) :
  maintains P m -> (forall a, maintains P (k a)) -> maintains P (bind m k).
Proof.
  intros Hm Hk w Hw. unfold bind. specialize (Hm w Hw).
  destruct (m w) as [[a|] w1]; cbn [snd] in *; [|exact Hm].
  now apply Hk.
Qed.

Lemma maintains_try_catch P {A} (m h : M A) :
  maintains P m -> maintains P h -> maintains P (try_catch m h).
Proof.
  intros Hm Hh w Hw. unfold try_catch. specialize (Hm w Hw).
  destruct (m w) as [[a|] w1]; cbn [snd] in *; [exact Hm|].
  now apply Hh.
Qed.

Lemma scan_loop_invariant rt pc kc bot mds :
  maintains one_entry_per_market (scan_loop rt pc kc bot mds).
Proof.
  induction mds as [|md mds IH]; cbn [scan_loop].
  - apply maintains_keeps, keeps_ret.
  - apply maintains_bind; [|intros _; exact IH].
    intros w. apply scan_market_invariant.
Qed.

Lemma scanAndTrade_invariant rt pc kc bot :
  maintains one_entry_per_market (scanAndTrade rt pc kc bot).
Proof.
  unfold scanAndTrade.
  apply maintains_try_catch; [|apply maintains_keeps, keeps_ret].
  apply maintains_bind; [apply maintains_keeps, keeps_matchMarkets|].
  intros mds. destruct (length mds =? 0)%nat;
    [apply maintains_keeps, keeps_ret | apply scan_loop_invariant].
Qed.

Lemma one_entry_at_most_one_active ps :
  one_entry_per_market ps -> at_most_one_active ps.
Proof.
  intros [_ Hnd] i j p q Hi Hj _ _ Hid.
  apply (proj1 (NoDup_nth_error (map pos_marketId ps)) Hnd).
  - apply nth_error_Some. rewrite nth_error_map, Hi. discriminate.
  - rewrite !nth_error_map, Hi, Hj. cbn. now rewrite Hid.
Qed.

(** The guard does its job as long as nothing is redeemed: after any number
    of scan ticks there is at most one ACTIVE Position per marketId. *)
Lemma scans_at_most_one_active rt pc kc bot (n : nat) :
  at_most_one_active
    (positions (run rt pc kc bot (repeat Scan n) initial)).
Proof.
  apply one_entry_at_most_one_active.
  assert (H : forall w, one_entry_per_market (positions w) ->
                        one_entry_per_market
                          (positions (run rt pc kc bot (repeat Scan n) w))).
  { induction n as [|n IH]; intros w Hw; [exact Hw|].
    cbn [repeat run fold_left]. apply IH. now apply scanAndTrade_invariant. }
  apply H. split; constructor.
Qed.

Example detect_md_single : detectOpportunity 90 0 md_single = Some opp_single.
Proof. reflexivity. Qed.

(** [C6] The duplicate guard looks at the first ledger entry of the market
    only.  Scan, poll (the Position is redeemed), scan, scan: the redeemed
    first entry hides the second one from the guard, and the ledger ends with
    two ACTIVE Positions on the same marketId. *)
Theorem C6_two_active_positions_after_redemption :
  let w := run a_runtime poly_venue kalshi_venue default_bot
               [Scan; Poll; Scan; Scan] initial in
  ledger_summary w =
    [("0xbtc15"%string, redeemed); ("0xbtc15"%string, active);
     ("0xbtc15"%string, active)] /\
  ~ at_most_one_active (positions w).
Proof.
  cbv zeta.
  assert (E : ledger_summary
                (run a_runtime poly_venue kalshi_venue default_bot
                     [Scan; Poll; Scan; Scan] initial) =
              [("0xbtc15"%string, redeemed); ("0xbtc15"%string, active);
               ("0xbtc15"%string, active)]) by (vm_compute; reflexivity).
  split; [exact E|].
  intros H. unfold ledger_summary in E.
  destruct (positions (run a_runtime poly_venue kalshi_venue default_bot
                           [Scan; Poll; Scan; Scan] initial))
    as [|p0 [|p1 [|p2 [|p3 ps]]]]; try discriminate.
  cbn in E. injection E as E0a E0b E1a E1b E2a E2b.
  specialize (H 1%nat 2%nat p1 p2 eq_refl eq_refl E1b E2b).
  rewrite E1a, E2a in H. specialize (H eq_refl). discriminate.
Qed.

(** ** The identifier handed to venue B *)

Lemma match_loop_matched rt pc kc pms kms acc w :
  match fst (match_loop rt pc kc pms kms acc w) with
  | returned mds =>
      exists new, mds = acc ++ new /\ Forall (matched_from rt pms kms) new
  | thrown => True
  end.
Proof.
  revert acc w. induction pms as [|pm pms IH]; intros acc w; cbn [match_loop].
  - cbn. exists []. split; [now rewrite app_nil_r | constructor].
  - assert (Hmono : forall new, Forall (matched_from rt pms kms) new ->
                                Forall (matched_from rt (pm :: pms) kms) new).
    { intros new. apply Forall_impl. intros md (pm' & km & pp & kp & Hin & Hf & E).
      exists pm', km, pp, kp. repeat split; auto. now right. }
    destruct (findMatchingKalshiMarket rt pm kms) as [km|] eqn:Hf.
    + unfold bind at 1.
      destruct (promise_all2 _ _ w) as [[[pp kp]|] w1]; [|exact I].
      specialize (IH (acc ++ [matched_market pm km pp kp]) w1). cbn [fst snd].
      destruct (fst (match_loop rt pc kc pms kms _ w1)) as [mds|]; [|exact I].
      destruct IH as (new & -> & Hnew).
      exists (matched_market pm km pp kp :: new). split; [now rewrite <- app_assoc|].
      constructor; [|now apply Hmono].
      exists pm, km, pp, kp. repeat split; auto. now left.
    + specialize (IH acc w).
      destruct (fst (match_loop rt pc kc pms kms acc w)) as [mds|]; [|exact I].
      destruct IH as (new & -> & Hnew). exists new. split; [reflexivity|].
      now apply Hmono.
Qed.

Lemma matchMarkets_matched rt pc kc w :
  exists mds,
    fst (matchMarkets rt pc kc w) = returned mds /\
    Forall (fun md =>
              exists pms kms,
                p_getActiveBTCMarkets pc (log w) = fulfilled pms /\
                k_getActiveBTCMarkets kc
                  (log w ++ [PolyGetActiveBTCMarkets (fulfilled pms)]) =
                fulfilled kms /\
                matched_from rt pms kms md) mds.
Proof.
  unfold matchMarkets, try_catch. unfold bind at 1.
  unfold promise_all2, bind, call, await. cbn [log positions].
  destruct (p_getActiveBTCMarkets pc (log w)) as [pms|] eqn:Hp;
    destruct (k_getActiveBTCMarkets kc _) as [kms|] eqn:Hk;
    cbn [ret throw fst snd];
    try (exists []; split; [reflexivity | constructor]).
  match goal with |- context [match_loop rt pc kc pms kms [] ?w1] =>
    pose proof (match_loop_matched rt pc kc pms kms [] w1) as H;
    destruct (match_loop rt pc kc pms kms [] w1) as [[mds|] w2] end;
    cbn [fst] in *.
  - destruct H as (new & -> & Hnew). exists new. split; [reflexivity|].
    revert Hnew. apply Forall_impl. intros md Hmd. now exists pms, kms.
  - exists []. split; [reflexivity | constructor].
Qed.

Lemma executeArbitrage_skip pc kc cfg o amount w :
  action o = skip ->
  executeArbitrage pc kc cfg o amount w = (returned None, w).
Proof.
  intros Hact. unfold executeArbitrage. rewrite Hact.
  destruct (_ || _); reflexivity.
Qed.

Lemma executeArbitrage_calls pc kc cfg o amount w :
  exists new,
    log (snd (executeArbitrage pc kc cfg o amount w)) = log w ++ new /\
    kalshi_calls_use (opp_marketId o) new.
Proof.
  destruct (Qlt_le_dec amount (minTradeAmount cfg)) as [Hlo | Hlo].
  { rewrite executeArbitrage_out_of_band by auto.
    exists []. split; [now rewrite app_nil_r | constructor]. }
  destruct (Qlt_le_dec (maxTradeAmount cfg) amount) as [Hhi | Hhi].
  { rewrite executeArbitrage_out_of_band by auto.
    exists []. split; [now rewrite app_nil_r | constructor]. }
  assert (Hin : action o <> skip ->
                exists new,
                  log (snd (executeArbitrage pc kc cfg o amount w)) = log w ++ new /\
                  kalshi_calls_use (opp_marketId o) new).
  { intros Hact. rewrite executeArbitrage_in_band by assumption. cbn [snd log].
    eexists. split; [reflexivity|].
    repeat constructor; cbn; intros id' E; congruence. }
  destruct (action o) eqn:Hact; try (apply Hin; discriminate).
  rewrite executeArbitrage_skip by assumption.
  exists []. split; [now rewrite app_nil_r | constructor].
Qed.

Lemma redeem_events_use pc kc id ls h :
  kalshi_calls_use id (redeem_events pc kc id ls h).
Proof.
  revert h. induction ls as [|l ls IH]; intros h; cbn [redeem_events].
  - constructor.
  - constructor; [|apply IH].
    destruct l; cbn; intros id' E; congruence.
Qed.

Lemma poll_step_calls pc kc i p w :
  exists new,
    log (poll_step pc kc i p w) = log w ++ new /\
    kalshi_calls_use (pos_marketId p) new.
Proof.
  unfold poll_step.
  destruct (negb (is_active p)).
  { exists []. split; [now rewrite app_nil_r | constructor]. }
  assert (Hres : kalshi_calls_use (pos_marketId p) (resolution_events pc kc p (log w))).
  { repeat constructor; cbn; intros id' E; congruence. }
  destruct (both_resolved pc kc p (log w)); cbn [log].
  - eexists. split; [now rewrite <- app_assoc|].
    apply Forall_app. split; [exact Hres | apply redeem_events_use].
  - eexists. split; [reflexivity | exact Hres].
Qed.

(** [C4] Every record [matchMarkets] returns is built from a listed
    Polymarket market and its Kalshi match, carries the Polymarket id as its
    only identifier, and does not depend on the Kalshi ticker.  The
    identifier stays the Polymarket id in the Opportunity and in the
    Position, and it is what every Kalshi order, resolution check and
    redemption is called with; when the ticker differs from it, no such call
    uses the ticker. *)
Theorem C4_kalshi_called_with_polymarket_id
        (rt : Runtime) (pc : PolymarketClient) (kc : KalshiClient) :
  (forall w, exists mds,
      fst (matchMarkets rt pc kc w) = returned mds /\
      Forall (fun md =>
                exists pms kms,
                  p_getActiveBTCMarkets pc (log w) = fulfilled pms /\
                  k_getActiveBTCMarkets kc
                    (log w ++ [PolyGetActiveBTCMarkets (fulfilled pms)]) =
                  fulfilled kms /\
                  matched_from rt pms kms md) mds) /\
  (forall pm km pp kp,
      marketId (matched_market pm km pp kp) = pm_id pm /\
      forall ticker,
        matched_market pm (with_ticker ticker km) pp kp = matched_market pm km pp kp) /\
  (forall pm km pp kp T t o cfg amount w,
      detectOpportunity T t (matched_market pm km pp kp) = Some o ->
      opp_marketId o = pm_id pm /\
      pos_marketId (new_position o amount) = pm_id pm /\
      (forall p,
          fst (executeArbitrage pc kc cfg o amount w) = returned (Some p) ->
          pos_marketId p = pm_id pm) /\
      exists new,
        log (snd (executeArbitrage pc kc cfg o amount w)) = log w ++ new /\
        kalshi_calls_use (pm_id pm) new /\
        (minTradeAmount cfg <= amount -> amount <= maxTradeAmount cfg ->
         exists s price r, In (KalshiBuyToken (pm_id pm) s amount price r) new) /\
        (km_ticker km <> pm_id pm ->
         Forall (fun e => kalshi_call_id e <> Some (km_ticker km)) new)) /\
  (forall i p w,
      exists new,
        log (snd (check_position pc kc i p w)) = log w ++ new /\
        kalshi_calls_use (pos_marketId p) new /\
        (status p = active ->
         exists r, In (KalshiIsMarketResolved (pos_marketId p) r) new)).
Proof.
  split; [apply matchMarkets_matched|].
  split; [intros pm km pp kp; split; reflexivity|].
  split.
  - intros pm km pp kp T t o cfg amount w Ho.
    pose proof (detectOpportunity_some _ _ _ _ Ho) as Hs. cbv zeta in Hs.
    destruct Hs as (_ & _ & Hns & _ & _ & Hid). cbn [marketId matched_market] in Hid.
    split; [exact Hid|]. split; [exact Hid|]. split.
    + intros p Hp.
      destruct (executeArbitrage_result pc kc cfg o amount w) as [E | E];
        rewrite E in Hp; [discriminate|].
      injection Hp as <-. exact Hid.
    + destruct (executeArbitrage_calls pc kc cfg o amount w) as (new & Hlog & Huse).
      rewrite Hid in Huse.
      exists new. split; [exact Hlog|]. split; [exact Huse|]. split.
      * intros Hmin Hmax.
        rewrite executeArbitrage_in_band in Hlog by assumption.
        cbn [snd log] in Hlog. apply app_inv_head in Hlog. subst new.
        unfold kalshi_order_event. rewrite Hid.
        do 3 eexists. right. left. reflexivity.
      * intros Hne. revert Huse. apply Forall_impl.
        intros e He E. apply He in E. congruence.
  - intros i p w. rewrite check_position_poll_step. cbn [snd].
    destruct (poll_step_calls pc kc i p w) as (new & Hlog & Huse).
    exists new. split; [exact Hlog|]. split; [exact Huse|].
    intros Hact. unfold poll_step in Hlog.
    rewrite (proj2 (is_active_status p) Hact) in Hlog. cbn [negb] in Hlog.
    destruct (both_resolved pc kc p (log w)); cbn [log] in Hlog;
      rewrite <- ?app_assoc in Hlog; apply app_inv_head in Hlog; subst new;
      eexists; right; left; reflexivity.
Qed.

(** ** The theorems at concrete inputs *)

Lemma C5_position_iff_both_legs_witness :
  fst (executeArbitrage poly_venue kalshi_venue default_trader opp_single 100 initial)
  = returned (Some (new_position opp_single 100)) /\
  fst (executeArbitrage poly_venue kalshi_rejecting default_trader opp_single 100 initial)
  = returned None.
Proof.
  split.
  - apply (C5_position_iff_both_legs
             poly_venue kalshi_venue default_trader opp_single 100 initial);
      [discriminate | discriminate | discriminate |].
    split; eexists; reflexivity.
  - apply (C5_position_iff_both_legs
             poly_venue kalshi_rejecting default_trader opp_single 100 initial);
      [discriminate | discriminate | discriminate |].
    right. reflexivity.
Defined.

Lemma C8_band_is_inclusive_witness :
  executeArbitrage poly_venue kalshi_venue default_trader opp_single 9 initial
  = (returned None, initial) /\
  fst (executeArbitrage poly_venue kalshi_venue default_trader opp_single 10 initial)
  = returned (Some (new_position opp_single 10)) /\
  fst (executeArbitrage poly_venue kalshi_venue default_trader opp_single 1000 initial)
  = returned (Some (new_position opp_single 1000)).
Proof.
  split; [|split].
  - apply (C8_band_is_inclusive
             poly_venue kalshi_venue default_trader opp_single 9 initial).
    left. reflexivity.
  - apply (C8_band_is_inclusive
             poly_venue kalshi_venue default_trader opp_single 10 initial);
      [discriminate | discriminate | left; reflexivity | |]; eexists; reflexivity.
  - apply (C8_band_is_inclusive
             poly_venue kalshi_venue default_trader opp_single 1000 initial);
      [discriminate | discriminate | right; reflexivity | |]; eexists; reflexivity.
Defined.

Lemma C7_redeemed_only_when_all_succeed_witness :
  nth_error
    (positions (snd (check_position poly_venue kalshi_venue 0
                                    (new_position opp_single 100) one_position))) 0
  = Some (set_status redeemed (new_position opp_single 100)).
Proof.
  apply (proj1 (C7_redeemed_only_when_all_succeed poly_venue kalshi_venue)
               0%nat (new_position opp_single 100) one_position eq_refl);
    [reflexivity|].
  repeat split. vm_compute. repeat constructor.
Defined.

Lemma C4_kalshi_called_with_polymarket_id_witness :
  exists new,
    log (snd (executeArbitrage poly_venue kalshi_venue default_trader
                               {| opp_marketId := "0xbtc15";
                                  opp_marketTitle := Some "BTC up or down 15m"%string;
                                  opportunityType := poly_up_kalshi_down;
                                  polyUpPrice := 40; polyDownPrice := 63;
                                  kalshiUpPrice := 45; kalshiDownPrice := 48;
                                  totalCost := 40 + 48;
                                  profitPotential := profit_of (40 + 48);
                                  polyBettedPrice := Some 38;
                                  kalshiBettedPrice := Some 42;
                                  action := buy_poly_up_kalshi_down;
                                  opp_timestamp := 0 |} 100 initial))
    = log initial ++ new /\
    Forall (fun e => kalshi_call_id e <> Some "KXBTC-15M-T1"%string) new.
Proof.
  destruct (proj1 (proj2 (proj2
              (C4_kalshi_called_with_polymarket_id a_runtime poly_venue kalshi_venue)))
              pm_btc km_btc (quote 40 63 (Some 38)) (quote 45 48 (Some 42))
              90 0%Z _ default_trader 100 initial eq_refl)
    as (_ & _ & _ & new & Hlog & _ & _ & Hticker).
  exists new. split; [exact Hlog|]. apply Hticker. discriminate.
Defined.

(** * Further properties *)

(** ** More on the detector *)

(** The action of a returned opportunity, by eligibility. *)
Lemma detected_action_eligible T t md o :
  detectOpportunity T t md = Some o -> eligible T md (action o).
Proof.
  intros Ho.
  pose proof (detectOpportunity_some T t md o Ho) as Hs. cbv zeta in Hs.
  destruct Hs as (Hel & Hact & Hns & _).
  destruct (JS.ltb (costUpDown md) T) eqn:B1, (JS.ltb (costDownUp md) T) eqn:B2;
    cbn [andb] in Hact; order_facts.
  - destruct (action o); cbn [eligible]; auto.
  - rewrite determineAction_only_up_down in Hact.
    destruct (bettedPrice (polymarket md)), (bettedPrice (kalshi md));
      try congruence.
    destruct (JS.ltb q q0); try congruence. now rewrite Hact.
  - rewrite determineAction_only_down_up in Hact.
    destruct (bettedPrice (polymarket md)), (bettedPrice (kalshi md));
      try congruence.
    destruct (JS.gtb q q0); try congruence. now rewrite Hact.
  - destruct Hel; discriminate.
Qed.

Lemma detected_totalCost_lt T t md o :
  detectOpportunity T t md = Some o -> totalCost o < T.
Proof.
  intros Ho.
  pose proof (detected_action_eligible T t md o Ho) as Hel.
  pose proof (detectOpportunity_some T t md o Ho) as Hs. cbv zeta in Hs.
  destruct Hs as (_ & _ & _ & Htc & _). rewrite Htc.
  destruct (JS.ltb (costUpDown md) T) eqn:B1, (JS.ltb (costDownUp md) T) eqn:B2;
    cbn [andb]; order_facts; auto.
  - eapply Qle_lt_trans; [apply Q.le_min_l | exact B1].
  - exfalso. destruct (action o); cbn [eligible] in Hel; try contradiction; lra.
Qed.



(** ** More on the detector, in binary64 *)

(** The action of a returned opportunity when one combination is eligible. *)
Lemma detected_single_action T t md o :
  Binary64.detectOpportunity T t md = Some o ->
  ((Binary64.costUpDown md <? T)%float = true ->
   (Binary64.costDownUp md <? T)%float = false ->
   Binary64.action o = buy_poly_up_kalshi_down) /\
  ((Binary64.costUpDown md <? T)%float = false ->
   (Binary64.costDownUp md <? T)%float = true ->
   Binary64.action o = buy_poly_down_kalshi_up).
Proof.
  intros Ho.
  pose proof (detectOpportunity64_some T t md o Ho) as Hs. cbv zeta in Hs.
  destruct Hs as (_ & Hact & Hns & _).
  split; intros B1 B2; rewrite B1, B2 in Hact; cbn [andb] in Hact.
  - rewrite determineAction64_only_up_down in Hact.
    destruct (Binary64.bettedPrice (Binary64.polymarket md)) as [pb|],
             (Binary64.bettedPrice (Binary64.kalshi md)) as [kb|];
      try congruence.
    destruct (pb <? kb)%float; congruence.
  - rewrite determineAction64_only_down_up in Hact.
    destruct (Binary64.bettedPrice (Binary64.polymarket md)) as [pb|],
             (Binary64.bettedPrice (Binary64.kalshi md)) as [kb|];
      try congruence.
    destruct (kb <? pb)%float; congruence.
Qed.

(** Without an eligible combination nothing is returned, whatever the
    settlement prices are; a cost that is NaN is not eligible. *)
Lemma no_eligibility_no_opportunity64 T t md :
  (Binary64.costUpDown md <? T)%float = false ->
  (Binary64.costDownUp md <? T)%float = false ->
  Binary64.detectOpportunity T t md = None.
Proof.
  intros B1 B2. unfold Binary64.detectOpportunity.
  fold (Binary64.costUpDown md). fold (Binary64.costDownUp md).
  now rewrite B1, B2.
Qed.

Lemma Math_min_cases a b :
  is_nan a = false -> is_nan b = false ->
  Binary64.Math_min a b = a \/ Binary64.Math_min a b = b.
Proof.
  intros Ha Hb. unfold Binary64.Math_min. rewrite Ha, Hb. cbn [orb].
  destruct (a <? b)%float; [now left|].
  destruct (b <? a)%float; [now right|].
  destruct (get_sign a); auto.
Qed.

(** A returned opportunity buys a combination whose computed cost is below
    the threshold, and records a cost below the threshold. *)
Lemma detected_below_threshold64 T t md o :
  Binary64.detectOpportunity T t md = Some o ->
  Binary64.action o <> skip /\
  (Binary64.action_cost md (Binary64.action o) <? T)%float = true /\
  (Binary64.totalCost o <? T)%float = true.
Proof.
  intros Ho.
  destruct (detected_single_action T t md o Ho) as [Hud Hdu].
  pose proof (detectOpportunity64_some T t md o Ho) as Hs. cbv zeta in Hs.
  destruct Hs as (Hany & _ & Hns & Htc & _).
  split; [exact Hns|].
  destruct (Binary64.costUpDown md <? T)%float eqn:B1,
           (Binary64.costDownUp md <? T)%float eqn:B2;
    cbn [andb] in Htc.
  - split.
    + destruct (Binary64.action o); cbn [Binary64.action_cost];
        [exact B1 | exact B2 | congruence].
    + destruct (ltb_not_nan _ _ B1) as [N1 _].
      destruct (ltb_not_nan _ _ B2) as [N2 _].
      rewrite Htc.
      destruct (Math_min_cases _ _ N1 N2) as [E | E]; now rewrite E.
  - rewrite Htc, (Hud eq_refl eq_refl). cbn [Binary64.action_cost]. now split.
  - rewrite Htc, (Hdu eq_refl eq_refl). cbn [Binary64.action_cost]. now split.
  - destruct Hany; discriminate.
Qed.

(** [X2] The [opportunityType] of a returned opportunity says which
    combinations are eligible, by the sums the program computes: [both]
    exactly when both are, and otherwise the one that is, which is then also
    the action. *)
Theorem opportunity_type_tells_eligibility
        (T : float) (t : Z) (md : Binary64.MarketData)
        (o : Binary64.ArbitrageOpportunity) :
  Binary64.detectOpportunity T t md = Some o ->
  (Binary64.opportunityType o = both <->
   (Binary64.costUpDown md <? T)%float = true /\
   (Binary64.costDownUp md <? T)%float = true) /\
  (Binary64.opportunityType o = poly_up_kalshi_down <->
   (Binary64.costUpDown md <? T)%float = true /\
   (Binary64.costDownUp md <? T)%float = false) /\
  (Binary64.opportunityType o = poly_down_kalshi_up <->
   (Binary64.costUpDown md <? T)%float = false /\
   (Binary64.costDownUp md <? T)%float = true) /\
  (Binary64.opportunityType o = poly_up_kalshi_down ->
   Binary64.action o = buy_poly_up_kalshi_down) /\
  (Binary64.opportunityType o = poly_down_kalshi_up ->
   Binary64.action o = buy_poly_down_kalshi_up).
Proof.
  intros Ho.
  destruct (detected_single_action T t md o Ho) as [Hud Hdu].
  pose proof (detectOpportunity64_some T t md o Ho) as Hs. cbv zeta in Hs.
  destruct Hs as (Hany & _ & _ & _ & _ & Hty & _).
  destruct (Binary64.costUpDown md <? T)%float eqn:B1,
           (Binary64.costDownUp md <? T)%float eqn:B2;
    cbn [andb] in Hty; rewrite Hty.
  - repeat split; try discriminate; auto; intros [H1 H2]; discriminate.
  - repeat split; try discriminate; auto; intros [H1 H2]; discriminate.
  - repeat split; try discriminate; auto; intros [H1 H2]; discriminate.
  - destruct Hany; discriminate.
Qed.

Lemma opportunity_type_tells_eligibility_witness :
  exists o, Binary64.detectOpportunity 90 0 Binary64.md_single = Some o /\
            Binary64.action o = buy_poly_up_kalshi_down.
Proof.
  eexists. split; [reflexivity|].
  apply (opportunity_type_tells_eligibility 90 0 Binary64.md_single _ eq_refl).
  reflexivity.
Defined.

(** ** The tolerance of [validateOpportunity] *)

(** A finite double is a zero or has a mantissa and an exponent. *)
Lemma is_finite_cases x :
  is_finite x = true <->
  (exists s, Prim2SF x = S754_zero s) \/
  (exists s m e, Prim2SF x = S754_finite s m e).
Proof.
  unfold is_finite, is_infinity.
  rewrite negb_true_iff, orb_false_iff, is_nan_false_cmp.
  rewrite eqb_spec, abs_spec.
  change (Prim2SF infinity) with (S754_infinity false).
  destruct (Prim2SF x) as [s|s| |s m e]; cbn; split.
  - eauto.
  - intros _. split; [discriminate | reflexivity].
  - intros [_ H]. discriminate.
  - intros [(s' & H) | (s' & m & e & H)]; discriminate.
  - intros [H _]. congruence.
  - intros [(s' & H) | (s' & m & e & H)]; discriminate.
  - eauto 6.
  - intros _. split; [discriminate | reflexivity].
Qed.

(** The computed distance of a number from itself is below 2 exactly when
    the number is finite: for an infinity or NaN it is NaN. *)
Lemma within_two_refl x : Binary64.within_two x x <-> is_finite x = true.
Proof.
  unfold Binary64.within_two.
  rewrite ltb_spec, abs_spec, sub_spec, is_finite_cases.
  change (Prim2SF 2) with (S754_finite false 4503599627370496 (-51)).
  unfold SF64sub.
  destruct (Prim2SF x) as [s|s| |s m e]; split.
  - eauto.
  - intros _. now destruct s.
  - now destruct s.
  - intros [(s' & H) | (s' & m & e & H)]; discriminate.
  - discriminate.
  - intros [(s' & H) | (s' & m & e & H)]; discriminate.
  - eauto 6.
  - intros _. cbn [SFsub]. cbv zeta. rewrite Z.sub_diag. reflexivity.
Qed.

Lemma validateOpportunity64_tolerance
        (o : Binary64.ArbitrageOpportunity)
        (currentPoly currentKalshi : Binary64.MarketPrice) :
  Binary64.validateOpportunity o currentPoly currentKalshi = true <->
  Binary64.within_two (Binary64.upPrice currentPoly) (Binary64.polyUpPrice o) /\
  Binary64.within_two (Binary64.downPrice currentPoly) (Binary64.polyDownPrice o) /\
  Binary64.within_two (Binary64.upPrice currentKalshi) (Binary64.kalshiUpPrice o) /\
  Binary64.within_two (Binary64.downPrice currentKalshi) (Binary64.kalshiDownPrice o).
Proof.
  unfold Binary64.validateOpportunity, Binary64.within_two. cbv zeta.
  rewrite !andb_true_iff. tauto.
Qed.

(** [X3] An opportunity is valid against later quotes exactly when each of
    the four prices is at a computed distance of less than 2 from the quote
    it was detected from; settlement prices and timestamps play no part.  It
    is valid against the very quotes it was detected from exactly when these
    four quotes are finite: an infinite or NaN quote is at no distance from
    itself. *)
Theorem detected_opportunity_validates
        (T : float) (t : Z) (md : Binary64.MarketData)
        (o : Binary64.ArbitrageOpportunity)
        (currentPoly currentKalshi : Binary64.MarketPrice) :
  Binary64.detectOpportunity T t md = Some o ->
  (Binary64.validateOpportunity o currentPoly currentKalshi = true <->
   Binary64.within_two (Binary64.upPrice currentPoly)
                       (Binary64.upPrice (Binary64.polymarket md)) /\
   Binary64.within_two (Binary64.downPrice currentPoly)
                       (Binary64.downPrice (Binary64.polymarket md)) /\
   Binary64.within_two (Binary64.upPrice currentKalshi)
                       (Binary64.upPrice (Binary64.kalshi md)) /\
   Binary64.within_two (Binary64.downPrice currentKalshi)
                       (Binary64.downPrice (Binary64.kalshi md))) /\
  (Binary64.validateOpportunity o (Binary64.polymarket md) (Binary64.kalshi md)
   = true <->
   is_finite (Binary64.upPrice (Binary64.polymarket md)) = true /\
   is_finite (Binary64.downPrice (Binary64.polymarket md)) = true /\
   is_finite (Binary64.upPrice (Binary64.kalshi md)) = true /\
   is_finite (Binary64.downPrice (Binary64.kalshi md)) = true).
Proof.
  intros Ho.
  pose proof (detectOpportunity64_some T t md o Ho) as Hs. cbv zeta in Hs.
  destruct Hs as (_ & _ & _ & _ & _ & _ & E1 & E2 & E3 & E4).
  rewrite !validateOpportunity64_tolerance, E1, E2, E3, E4.
  split; [tauto|]. rewrite !within_two_refl. tauto.
Qed.

Lemma detected_opportunity_validates_witness :
  exists o,
    Binary64.detectOpportunity 90 0 Binary64.md_single = Some o /\
    Binary64.validateOpportunity o (Binary64.quote 40 63 (Some 38%float))
                                 (Binary64.quote 45 48 (Some 42%float)) = true.
Proof.
  eexists. split; [reflexivity|].
  apply (detected_opportunity_validates 90 0 Binary64.md_single _
           (Binary64.quote 40 63 None) (Binary64.quote 45 48 None) eq_refl).
  repeat split.
Defined.

(** The tolerance is the computed one: the doubles nearest to 2.4 and 0.4 are
    less than 2 apart, but their computed difference is exactly 2, so a move
    from 0.4 to 2.4 is outside the tolerance. *)
Lemma computed_distance_of_two :
  (0x1.3333333333333p+1 - 0x1.999999999999ap-2 =? 2)%float = true /\
  ~ Binary64.within_two 0x1.3333333333333p+1 0x1.999999999999ap-2.
Proof. split; [reflexivity | discriminate]. Qed.

(** ** The cost an opportunity records *)

Lemma Math_min_gt a b :
  (b <? a)%float = true -> Binary64.Math_min a b = b.
Proof.
  intros H. unfold Binary64.Math_min.
  destruct (ltb_not_nan _ _ H) as [-> ->]. cbn [orb].
  now rewrite (ltb_asym _ _ H), H.
Qed.

(** [Math.min] of two numbers is not above either of them. *)
Lemma Math_min_leb a b :
  is_nan a = false -> is_nan b = false ->
  (Binary64.Math_min a b <=? a)%float = true /\
  (Binary64.Math_min a b <=? b)%float = true.
Proof.
  intros Ha Hb. unfold Binary64.Math_min. rewrite Ha, Hb. cbn [orb].
  destruct (a <? b)%float eqn:H1.
  { split; [now apply leb_of_eqb, eqb_refl_number | now apply leb_of_ltb]. }
  destruct (b <? a)%float eqn:H2.
  { split; [now apply leb_of_ltb | now apply leb_of_eqb, eqb_refl_number]. }
  pose proof (not_ltb_eqb a b Ha Hb H1 H2) as He.
  destruct (get_sign a).
  - split; [now apply leb_of_eqb, eqb_refl_number | now apply leb_of_eqb].
  - split; [apply leb_of_eqb; now rewrite eqb_sym
           | now apply leb_of_eqb, eqb_refl_number].
Qed.

(** [X24] With exactly one combination eligible, the [totalCost] recorded in
    the opportunity is the cost of the combination it buys.  With both
    eligible it is [Math.min] of the two costs whatever the action is: never
    above the cost of the combination bought, and strictly below it when the
    settlement prices select the costlier combination. *)
Theorem recorded_cost_and_bought_cost
        (T : float) (t : Z) (md : Binary64.MarketData)
        (o : Binary64.ArbitrageOpportunity) :
  Binary64.detectOpportunity T t md = Some o ->
  ((Binary64.costUpDown md <? T)%float && (Binary64.costDownUp md <? T)%float
   = false ->
   Binary64.totalCost o = Binary64.action_cost md (Binary64.action o)) /\
  ((Binary64.costUpDown md <? T)%float = true ->
   (Binary64.costDownUp md <? T)%float = true ->
   Binary64.totalCost o
   = Binary64.Math_min (Binary64.costUpDown md) (Binary64.costDownUp md) /\
   (Binary64.totalCost o <=? Binary64.action_cost md (Binary64.action o))%float
   = true /\
   (forall sA sB,
       Binary64.bettedPrice (Binary64.polymarket md) = Some sA ->
       Binary64.bettedPrice (Binary64.kalshi md) = Some sB ->
       ((sB <? sA)%float = true /\
        (Binary64.costUpDown md <? Binary64.costDownUp md)%float = true) \/
       ((sA <? sB)%float = true /\
        (Binary64.costDownUp md <? Binary64.costUpDown md)%float = true) ->
       (Binary64.totalCost o <? Binary64.action_cost md (Binary64.action o))%float
       = true)).
Proof.
  intros Ho.
  destruct (detected_single_action T t md o Ho) as [Hud Hdu].
  pose proof (detectOpportunity64_some T t md o Ho) as Hs. cbv zeta in Hs.
  destruct Hs as (Hany & Hact & Hns & Htc & _).
  split.
  - intros Hnb. rewrite Hnb in Htc.
    destruct (Binary64.costUpDown md <? T)%float eqn:B1,
             (Binary64.costDownUp md <? T)%float eqn:B2;
      try discriminate.
    + now rewrite Htc, Hud.
    + now rewrite Htc, Hdu.
    + destruct Hany; discriminate.
  - intros B1 B2. rewrite B1, B2 in Htc, Hact. cbn [andb] in Htc, Hact.
    destruct (ltb_not_nan _ _ B1) as [N1 _]. destruct (ltb_not_nan _ _ B2) as [N2 _].
    destruct (Math_min_leb _ _ N1 N2) as [L1 L2].
    split; [exact Htc|]. split.
    + rewrite Htc.
      destruct (Binary64.action o); cbn [Binary64.action_cost];
        [exact L1 | exact L2 | congruence].
    + intros sA sB EA EB Hsel.
      rewrite determineAction64_both, EA, EB in Hact.
      fold (Binary64.costUpDown md) in Hact. fold (Binary64.costDownUp md) in Hact.
      destruct Hsel as [[Hs Hc] | [Hs Hc]].
      * rewrite (ltb_asym _ _ Hs), Hs in Hact.
        rewrite Htc, Hact, (Math_min_lt _ _ Hc). exact Hc.
      * rewrite Hs in Hact.
        rewrite Htc, Hact, (Math_min_gt _ _ Hc). exact Hc.
Qed.

Lemma recorded_cost_and_bought_cost_witness :
  exists o,
    Binary64.detectOpportunity 90 0 Binary64.md_both_settled = Some o /\
    (Binary64.totalCost o
     <? Binary64.action_cost Binary64.md_both_settled (Binary64.action o))%float
    = true.
Proof.
  eexists. split; [reflexivity|].
  destruct (recorded_cost_and_bought_cost 90 0 Binary64.md_both_settled _ eq_refl)
    as [_ Hboth].
  destruct (Hboth eq_refl eq_refl) as (_ & _ & Hlt).
  apply (Hlt 60%float 50%float eq_refl eq_refl). left. split; reflexivity.
Defined.

(** ** More on the trader *)









(** ** More on the ledger *)

Lemma scan_market_appends_position rt pc kc bot md w :
  positions (snd (scan_market rt pc kc bot md w)) = positions w \/
  exists o,
    detectOpportunity (TAKE_PROFIT bot) (date_now rt (log w)) md = Some o /\
    positions (snd (scan_market rt pc kc bot md w)) =
    positions w ++ [new_position o (configured_amount bot)].
Proof.
  rewrite scan_market_eq.
  destruct (isResolved md); [now left|].
  destruct (detectOpportunity _ _ md) as [o|] eqn:Ho; [|now left].
  destruct (guarded (positions w) (opp_marketId o)); [now left|].
  cbv zeta.
  change (calculateTradeAmount (trader bot) o (AVAILABLE_BALANCE bot))
    with (configured_amount bot).
  pose proof (executeArbitrage_result pc kc (trader bot) o (configured_amount bot) w) as Hr.
  pose proof (keeps_executeArbitrage pc kc (trader bot) o (configured_amount bot) w) as Hk.
  destruct (executeArbitrage pc kc (trader bot) o (configured_amount bot) w) as [r w1].
  cbn [fst snd] in *.
  destruct Hr as [-> | ->]; [left; exact Hk|].
  right. exists o. split; [reflexivity|]. cbn. now rewrite Hk.
Qed.

Lemma new_position_hedged o a :
  action o <> skip -> hedged a (new_position o a).
Proof.
  intros Hns. unfold hedged, new_position. cbn.
  destruct (action o); [left | right | contradiction]; repeat split.
Qed.

Lemma new_position_recorded bot t md o :
  detectOpportunity (TAKE_PROFIT bot) t md = Some o ->
  recorded_by bot (new_position o (configured_amount bot)).
Proof.
  intros Ho.
  pose proof (detectOpportunity_some _ _ _ _ Ho) as Hs. cbv zeta in Hs.
  destruct Hs as (_ & _ & Hns & _).
  split; [cbn; discriminate|].
  split; [now apply new_position_hedged|].
  exists (totalCost o). split; [|reflexivity].
  now apply detected_totalCost_lt with t md.
Qed.

Lemma recorded_set_status bot p :
  recorded_by bot p -> recorded_by bot (set_status redeemed p).
Proof.
  intros (_ & Hh & Hc). split; [cbn; discriminate|]. split; [exact Hh | exact Hc].
Qed.

Lemma Forall_evolves (P : Position -> Prop) l l' :
  (forall p, P p -> P (set_status redeemed p)) ->
  Forall2 evolves l l' -> Forall P l -> Forall P l'.
Proof.
  intros Hclosed H. induction H as [|p p' l l' Hev _ IH]; intros HP; [constructor|].
  inversion HP; subst. constructor; [|now apply IH].
  destruct Hev as [_ [-> | [_ ->]]]; auto.
Qed.

Lemma scan_market_recorded rt pc kc bot md :
  maintains (Forall (recorded_by bot)) (scan_market rt pc kc bot md).
Proof.
  intros w Hw.
  destruct (scan_market_appends_position rt pc kc bot md w) as [-> | (o & Ho & ->)];
    [exact Hw|].
  apply Forall_app. split; [exact Hw|].
  constructor; [|constructor]. now apply new_position_recorded with (date_now rt (log w)) md.
Qed.

Lemma scan_loop_maintains P rt pc kc bot mds :
  (forall md, maintains P (scan_market rt pc kc bot md)) ->
  maintains P (scan_loop rt pc kc bot mds).
Proof.
  intros Hm. induction mds as [|md mds IH]; cbn [scan_loop].
  - apply maintains_keeps, keeps_ret.
  - apply maintains_bind; [apply Hm | intros _; exact IH].
Qed.

Lemma scanAndTrade_maintains P rt pc kc bot :
  (forall md, maintains P (scan_market rt pc kc bot md)) ->
  maintains P (scanAndTrade rt pc kc bot).
Proof.
  intros Hm. unfold scanAndTrade.
  apply maintains_try_catch; [|apply maintains_keeps, keeps_ret].
  apply maintains_bind; [apply maintains_keeps, keeps_matchMarkets|].
  intros mds. destruct (length mds =? 0)%nat;
    [apply maintains_keeps, keeps_ret | now apply scan_loop_maintains].
Qed.

Lemma checkAndRedeem_evolves pc kc w :
  fst (checkAndRedeem pc kc w) = returned tt /\
  Forall2 evolves (positions w) (positions (snd (checkAndRedeem pc kc w))).
Proof.
  unfold checkAndRedeem, bind, get_positions. apply check_from_evolves.
Qed.

Lemma reachable_positions_recorded_aux rt pc kc bot ticks :
  Forall (recorded_by bot) (positions (run rt pc kc bot ticks initial)).
Proof.
  assert (H : forall w, Forall (recorded_by bot) (positions w) ->
                        Forall (recorded_by bot)
                               (positions (run rt pc kc bot ticks w))).
  { induction ticks as [|tk ticks IH]; intros w Hw; [exact Hw|].
    cbn [run fold_left]. apply IH. destruct tk; cbn [run_tick].
    - apply scanAndTrade_maintains; [|exact Hw]. apply scan_market_recorded.
    - destruct (checkAndRedeem_evolves pc kc w) as [_ Hev].
      eapply Forall_evolves; [|exact Hev | exact Hw].
      apply recorded_set_status. }
  apply H. constructor.
Qed.



Lemma hedged_legs_to_redeem a p :
  hedged a p ->
  legs_to_redeem p =
    (if JS.gtb a 0
     then if JS.gtb (polyUp p) 0 then [PolyLeg YES; KalshiLeg no]
          else [PolyLeg NO; KalshiLeg yes]
     else []).
Proof.
  unfold legs_to_redeem. cbn [filter leg_amount].
  intros [(-> & -> & -> & ->) | (-> & -> & -> & ->)];
    change (JS.gtb 0 0) with false; destruct (JS.gtb a 0); reflexivity.
Qed.

(** [X9] For a Position of a reachable ledger, redemption is attempted on
    exactly two legs, the Polymarket leg and the opposite Kalshi leg, when the
    trade amount is positive, and on no leg at all when it is not (the
    Position is then marked REDEEMED as soon as both venues report resolved). *)
Theorem reachable_positions_redeem_two_legs
        (rt : Runtime) (pc : PolymarketClient) (kc : KalshiClient)
        (bot : BotConfig) (ticks : list tick) (p : Position) :
  In p (positions (run rt pc kc bot ticks initial)) ->
  (0 < configured_amount bot ->
   legs_to_redeem p = [PolyLeg YES; KalshiLeg no] \/
   legs_to_redeem p = [PolyLeg NO; KalshiLeg yes]) /\
  (configured_amount bot <= 0 -> legs_to_redeem p = []).
Proof.
  intros Hin.
  pose proof (reachable_positions_recorded_aux rt pc kc bot ticks) as Hall.
  rewrite Forall_forall in Hall. destruct (Hall p Hin) as (_ & Hh & _).
  rewrite (hedged_legs_to_redeem _ _ Hh). split.
  - intros Hpos. rewrite (proj2 (gtb_gt _ _) Hpos).
    destruct (JS.gtb (polyUp p) 0); auto.
  - intros Hle. now rewrite (proj2 (gtb_le _ _) Hle).
Qed.

Lemma reachable_positions_redeem_two_legs_witness :
  exists p,
    In p (positions (run a_runtime poly_venue kalshi_venue default_bot [Scan] initial)) /\
    (legs_to_redeem p = [PolyLeg YES; KalshiLeg no] \/
     legs_to_redeem p = [PolyLeg NO; KalshiLeg yes]).
Proof.
  eexists. split; [left; reflexivity|].
  apply (reachable_positions_redeem_two_legs a_runtime poly_venue kalshi_venue
           default_bot [Scan]); [left; reflexivity | reflexivity].
Defined.

(** ** The ledger only grows *)

Lemma appends_keeps P {A} (m : M A) : keeps_positions m -> appends P m.
Proof. intros H w. exists []. rewrite H, app_nil_r. split; [reflexivity | constructor]. Qed.

Lemma appends_bind P {A B} (m : M A) (k : A -> M B) :
  appends P m -> (forall a, appends P (k a)) -> appends P (bind m k).
Proof.
  intros Hm Hk w. unfold bind. destruct (Hm w) as (a1 & H1 & P1).
  destruct (m w) as [[a|] w1]; cbn [snd] in *; [|now exists a1].
  destruct (Hk a w1) as (a2 & H2 & P2). exists (a1 ++ a2).
  split; [now rewrite H2, H1, app_assoc | now apply Forall_app].
Qed.

Lemma appends_try_catch P {A} (m h : M A) :
  appends P m -> appends P h -> appends P (try_catch m h).
Proof.
  intros Hm Hh w. unfold try_catch. destruct (Hm w) as (a1 & H1 & P1).
  destruct (m w) as [[a|] w1]; cbn [snd] in *; [now exists a1|].
  destruct (Hh w1) as (a2 & H2 & P2). exists (a1 ++ a2).
  split; [now rewrite H2, H1, app_assoc | now apply Forall_app].
Qed.

(** What a scan appends: ACTIVE Positions as the bot records them. *)
Lemma appends_scan_market rt pc kc bot md :
  appends (fun p => status p = active /\ recorded_by bot p)
          (scan_market rt pc kc bot md).
Proof.
  intros w.
  destruct (scan_market_appends_position rt pc kc bot md w) as [-> | (o & Ho & ->)].
  - exists []. rewrite app_nil_r. split; [reflexivity | constructor].
  - eexists. split; [reflexivity|]. constructor; [|constructor].
    split; [reflexivity|]. now apply new_position_recorded with (date_now rt (log w)) md.
Qed.

Lemma appends_scanAndTrade rt pc kc bot :
  appends (fun p => status p = active /\ recorded_by bot p)
          (scanAndTrade rt pc kc bot).
Proof.
  unfold scanAndTrade.
  apply appends_try_catch; [|apply appends_keeps, keeps_ret].
  apply appends_bind; [apply appends_keeps, keeps_matchMarkets|].
  intros mds. destruct (length mds =? 0)%nat; [apply appends_keeps, keeps_ret|].
  induction mds as [|md mds IH]; cbn [scan_loop].
  - apply appends_keeps, keeps_ret.
  - apply appends_bind; [apply appends_scan_market | intros _; exact IH].
Qed.

Lemma continues_refl ps : continues ps ps.
Proof.
  exists ps, []. split; [now rewrite app_nil_r | apply Forall2_evolves_refl].
Qed.

Lemma continues_trans ps1 ps2 ps3 :
  continues ps1 ps2 -> continues ps2 ps3 -> continues ps1 ps3.
Proof.
  intros (k1 & a1 & -> & H1) (k2 & a2 & -> & H2).
  apply Forall2_app_inv_l in H2. destruct H2 as (k2a & k2b & Ha & Hb & ->).
  exists k2a, (k2b ++ a2). split; [now rewrite app_assoc|].
  eapply Forall2_evolves_trans; eassumption.
Qed.

Lemma run_tick_continues rt pc kc bot tk w :
  continues (positions w) (positions (run_tick rt pc kc bot tk w)).
Proof.
  destruct tk; cbn [run_tick].
  - destruct (appends_scanAndTrade rt pc kc bot w) as (added & -> & _).
    exists (positions w), added. split; [reflexivity | apply Forall2_evolves_refl].
  - destruct (checkAndRedeem_evolves pc kc w) as [_ Hev].
    exists (positions (snd (checkAndRedeem pc kc w))), [].
    split; [now rewrite app_nil_r | exact Hev].
Qed.

Lemma run_continues rt pc kc bot ticks w :
  continues (positions w) (positions (run rt pc kc bot ticks w)).
Proof.
  revert w. induction ticks as [|tk ticks IH]; intros w; [apply continues_refl|].
  cbn [run fold_left]. eapply continues_trans; [|apply IH].
  apply run_tick_continues.
Qed.

Lemma Forall2_nth_error {A B} (R : A -> B -> Prop) l l' i a :
  Forall2 R l l' -> nth_error l i = Some a ->
  exists b, nth_error l' i = Some b /\ R a b.
Proof.
  intros H. revert i. induction H as [|x y l l' Hxy _ IH]; intros i Hi.
  - destruct i; discriminate.
  - destruct i; cbn in *; [injection Hi as <-; eauto | now apply IH].
Qed.

(** [X10] The ledger is append-only under any sequence of scan ticks and
    polls: it never gets shorter, an entry never moves, and the only change
    an entry ever sees is the flip from ACTIVE to REDEEMED; in particular a
    REDEEMED entry stays as it is for good. *)
Theorem ledger_is_append_only
        (rt : Runtime) (pc : PolymarketClient) (kc : KalshiClient)
        (bot : BotConfig) (ticks : list tick) (w : World) (i : nat) (p : Position) :
  nth_error (positions w) i = Some p ->
  (length (positions w) <= length (positions (run rt pc kc bot ticks w)))%nat /\
  exists p',
    nth_error (positions (run rt pc kc bot ticks w)) i = Some p' /\
    evolves p p' /\
    (status p = redeemed -> p' = p).
Proof.
  intros Hi.
  destruct (run_continues rt pc kc bot ticks w) as (kept & added & E & Hev).
  rewrite E. split.
  - rewrite length_app, <- (Forall2_length Hev). apply Nat.le_add_r.
  - destruct (Forall2_nth_error _ _ _ _ _ Hev Hi) as (p' & Hp' & Hpp').
    exists p'. split; [|split; [exact Hpp'|]].
    + rewrite nth_error_app1; [exact Hp'|].
      apply nth_error_Some. rewrite Hp'. discriminate.
    + intros Hst. apply Hpp'. rewrite Hst. discriminate.
Qed.

Lemma ledger_is_append_only_witness :
  exists p',
    nth_error (positions (run a_runtime poly_venue kalshi_venue default_bot
                              [Poll; Scan] one_position)) 0 = Some p' /\
    evolves (new_position opp_single 100) p'.
Proof.
  destruct (ledger_is_append_only a_runtime poly_venue kalshi_venue default_bot
              [Poll; Scan] one_position 0 (new_position opp_single 100) eq_refl)
    as (_ & p' & Hp' & Hev & _).
  exists p'. split; [exact Hp' | exact Hev].
Defined.

(** ** The calls of a poll *)

Lemma skipn_update_nth {A} (f : A -> A) (l : list A) (i : nat) :
  skipn (S i) (update_nth i f l) = skipn (S i) l.
Proof.
  revert i. induction l as [|x l IH]; intros i; [reflexivity|].
  destruct i; cbn [update_nth skipn]; [reflexivity | apply IH].
Qed.

Lemma skipn_nth_error {A} (l : list A) (i : nat) (a : A) :
  nth_error l i = Some a -> skipn i l = a :: skipn (S i) l.
Proof.
  revert i. induction l as [|x l IH]; intros i Hi; destruct i; try discriminate.
  - now injection Hi as ->.
  - cbn in Hi. cbn [skipn]. now apply IH.
Qed.

Lemma length_redeem_events pc kc id ls h :
  length (redeem_events pc kc id ls h) = length ls.
Proof.
  revert h. induction ls as [|l ls IH]; intros h; cbn; [reflexivity|].
  now rewrite IH.
Qed.

Lemma length_legs_to_redeem p : (length (legs_to_redeem p) <= 4)%nat.
Proof.
  unfold legs_to_redeem. cbn [filter].
  destruct (JS.gtb _ 0), (JS.gtb _ 0), (JS.gtb _ 0), (JS.gtb _ 0); cbn; lia.
Qed.

(** The calls of one poll step: none on a Position that is not ACTIVE, at
    most six on one that is; the rest of the ledger is not touched. *)
Lemma poll_step_calls_bounded pc kc i p w :
  exists new,
    log (poll_step pc kc i p w) = log w ++ new /\
    (length new <= if is_active p then 6 else 0)%nat /\
    (is_active p = false -> poll_step pc kc i p w = w) /\
    skipn (S i) (positions (poll_step pc kc i p w)) = skipn (S i) (positions w).
Proof.
  unfold poll_step. destruct (is_active p); cbn [negb].
  2:{ exists []. rewrite app_nil_r. repeat split; auto. }
  destruct (both_resolved pc kc p (log w)); cbn [log positions].
  - eexists. split; [now rewrite <- app_assoc|]. split; [|split; [discriminate|]].
    + rewrite length_app, length_redeem_events. cbn [resolution_events length].
      pose proof (length_legs_to_redeem p). lia.
    + destruct (forallb succeeded _); [apply skipn_update_nth | reflexivity].
  - eexists. split; [reflexivity|]. split; [cbn; lia|]. split; [discriminate | reflexivity].
Qed.

Lemma check_from_calls_bounded pc kc n i w :
  exists new,
    log (snd (check_from pc kc i n w)) = log w ++ new /\
    (length new <= 6 * count_active (firstn n (skipn i (positions w))))%nat /\
    (count_active (firstn n (skipn i (positions w))) = 0%nat ->
     snd (check_from pc kc i n w) = w).
Proof.
  revert i w. induction n as [|n IH]; intros i w.
  - exists []. rewrite app_nil_r. cbn. repeat split; auto.
  - rewrite check_from_S.
    destruct (nth_error (positions w) i) as [p|] eqn:Hi.
    + destruct (poll_step_calls_bounded pc kc i p w) as (n1 & L1 & B1 & U1 & S1).
      destruct (IH (S i) (poll_step pc kc i p w)) as (n2 & L2 & B2 & U2).
      rewrite S1 in B2, U2.
      rewrite (skipn_nth_error _ _ _ Hi). cbn [firstn]. unfold count_active in *.
      cbn [filter]. exists (n1 ++ n2). split; [now rewrite L2, L1, app_assoc|].
      rewrite length_app. destruct (is_active p); cbn [length] in *.
      * split; [lia | discriminate].
      * split; [lia|]. intros Hz. rewrite (U2 Hz). now apply U1.
    + exists []. rewrite app_nil_r. cbn [snd length]. repeat split; auto. lia.
Qed.

(** [X11] A poll makes no venue call and changes nothing when the ledger
    holds no ACTIVE Position (an empty ledger included); otherwise it makes at
    most six calls per ACTIVE Position, two resolution checks and up to four
    redemptions. *)
Theorem poll_calls_are_bounded
        (pc : PolymarketClient) (kc : KalshiClient) (w : World) :
  (count_active (positions w) = 0%nat ->
   checkAndRedeem pc kc w = (returned tt, w)) /\
  exists new,
    log (snd (checkAndRedeem pc kc w)) = log w ++ new /\
    (length new <= 6 * count_active (positions w))%nat.
Proof.
  destruct (check_from_calls_bounded pc kc (length (positions w)) 0 w)
    as (new & Hlog & Hlen & Hsame).
  cbn [skipn] in *. rewrite firstn_all in *.
  assert (E : checkAndRedeem pc kc w = check_from pc kc 0 (length (positions w)) w)
    by reflexivity.
  rewrite E. split.
  - intros Hz. destruct (check_from_evolves pc kc (length (positions w)) 0 w) as [Hr _].
    specialize (Hsame Hz).
    destruct (check_from pc kc 0 (length (positions w)) w) as [r w'].
    cbn [fst snd] in *. now subst.
  - exists new. split; assumption.
Qed.

(** ** More on the matcher *)

Lemma match_loop_all_or_nothing rt pc kc pms kms acc w :
  exists new,
    log (snd (match_loop rt pc kc pms kms acc w)) = log w ++ new /\
    match fst (match_loop rt pc kc pms kms acc w) with
    | returned mds =>
        map marketId mds =
        map marketId acc ++ map pm_id (filter (has_match rt kms) pms) /\
        existsb event_rejected new = false
    | thrown => existsb event_rejected new = true
    end.
Proof.
  revert acc w. induction pms as [|pm pms IH]; intros acc w;
    cbn [match_loop filter].
  - exists []. cbn. rewrite !app_nil_r. auto.
  - unfold has_match at 1.
    destruct (findMatchingKalshiMarket rt pm kms) as [km|] eqn:Hf; [|apply IH].
    unfold bind at 1 2, promise_all2, bind, call, await. cbn [log positions].
    destruct (p_getMarketPrices pc (log w) (pm_id pm)) as [pp|];
      destruct (k_getMarketPrices kc _ (km_ticker km)) as [kp|];
      cbn [ret throw fst snd].
    2-4: eexists; split; [rewrite <- app_assoc; reflexivity|];
      cbn; rewrite ?orb_true_r; reflexivity.
    match goal with |- context [match_loop rt pc kc pms kms ?a ?w1] =>
      destruct (IH a w1) as (new & Hlog & Hres) end.
    cbn [log] in Hlog.
    eexists. split; [rewrite Hlog, <- !app_assoc; reflexivity|].
    cbn [app existsb event_rejected orb].
    destruct (fst (match_loop rt pc kc pms kms _ _)) as [mds|]; [|exact Hres].
    destruct Hres as [Hids Hok]. split; [|exact Hok].
    rewrite Hids, map_app, <- app_assoc. reflexivity.
Qed.

Lemma listing_rejected_closed rt pc kc w :
  poly_listing pc (log w) = rejected \/ kalshi_listing pc kc (log w) = rejected ->
  matchMarkets rt pc kc w =
  (returned [],
   {| positions := positions w; log := log w ++ listing_events pc kc (log w) |}).
Proof.
  unfold listing_events, kalshi_listing, poly_listing, matchMarkets, try_catch.
  unfold bind at 1. unfold promise_all2, bind, call, await. cbn [log positions].
  intros H.
  destruct (p_getActiveBTCMarkets pc (log w)) as [pms|];
    destruct (k_getActiveBTCMarkets kc _) as [kms|];
    cbn [ret throw fst snd]; rewrite <- ?app_assoc; try reflexivity.
  destruct H; discriminate.
Qed.

(** [X12] [matchMarkets] always requests both listings, the Kalshi one also
    when the Polymarket one was rejected; when either is rejected it returns
    the empty list, without throwing and without requesting any price. *)
Theorem matchMarkets_listing_failure
        (rt : Runtime) (pc : PolymarketClient) (kc : KalshiClient) (w : World) :
  poly_listing pc (log w) = rejected \/ kalshi_listing pc kc (log w) = rejected ->
  fst (matchMarkets rt pc kc w) = returned [] /\
  positions (snd (matchMarkets rt pc kc w)) = positions w /\
  log (snd (matchMarkets rt pc kc w)) =
    log w ++ [PolyGetActiveBTCMarkets (poly_listing pc (log w));
              KalshiGetActiveBTCMarkets (kalshi_listing pc kc (log w))].
Proof.
  intros H. rewrite (listing_rejected_closed rt pc kc w H).
  repeat split.
Qed.

Lemma matchMarkets_listing_failure_witness :
  fst (matchMarkets a_runtime poly_venue kalshi_no_listing initial) = returned [].
Proof.
  apply (matchMarkets_listing_failure a_runtime poly_venue kalshi_no_listing initial).
  right. reflexivity.
Defined.

(** [X13] [matchMarkets] is all or nothing.  It never throws and never
    touches the ledger.  If any call it makes is rejected, a price request
    for a single pair included, the result is the empty list and the pairs
    matched before are dropped.  If none is rejected, the result holds one
    record per Polymarket market that has a match, in listing order, each
    under that market's Polymarket id. *)
Theorem matchMarkets_all_or_nothing
        (rt : Runtime) (pc : PolymarketClient) (kc : KalshiClient) (w : World) :
  exists mds new,
    fst (matchMarkets rt pc kc w) = returned mds /\
    positions (snd (matchMarkets rt pc kc w)) = positions w /\
    log (snd (matchMarkets rt pc kc w)) = log w ++ listing_events pc kc (log w) ++ new /\
    (existsb event_rejected (listing_events pc kc (log w) ++ new) = true ->
     mds = []) /\
    (existsb event_rejected (listing_events pc kc (log w) ++ new) = false ->
     exists pms kms,
       poly_listing pc (log w) = fulfilled pms /\
       kalshi_listing pc kc (log w) = fulfilled kms /\
       map marketId mds = map pm_id (filter (has_match rt kms) pms) /\
       (length mds <= length pms)%nat).
Proof.
  unfold listing_events, kalshi_listing, poly_listing.
  unfold matchMarkets, try_catch. unfold bind at 1 2 3.
  unfold promise_all2, bind, call, await. cbn [log positions].
  destruct (p_getActiveBTCMarkets pc (log w)) as [pms|];
    destruct (k_getActiveBTCMarkets kc _) as [kms|];
    cbn [ret throw fst snd].
  2-4: exists [], []; rewrite <- ?app_assoc; cbn;
    repeat split; auto; discriminate.
  match goal with |- context [match_loop rt pc kc pms kms [] ?w1] =>
    destruct (match_loop_all_or_nothing rt pc kc pms kms [] w1) as (new & Hlog & Hres);
    pose proof (keeps_match_loop rt pc kc pms kms [] w1) as Hkeep;
    destruct (match_loop rt pc kc pms kms [] w1) as [[mds|] w2] end;
    unfold ret; cbn [fst snd log positions] in *.
  - destruct Hres as [Hids Hok]. exists mds, new.
    split; [reflexivity|]. split; [exact Hkeep|].
    split; [rewrite Hlog, <- !app_assoc; reflexivity|].
    cbn [app existsb event_rejected orb]. rewrite Hok.
    split; [discriminate|]. intros _. exists pms, kms.
    cbn [map app] in Hids.
    split; [reflexivity|]. split; [reflexivity|]. split; [exact Hids|].
    rewrite <- (length_map marketId mds), Hids, length_map. apply filter_length_le.
  - exists [], new. split; [reflexivity|]. split; [exact Hkeep|].
    split; [rewrite Hlog, <- !app_assoc; reflexivity|].
    cbn [app existsb event_rejected orb]. rewrite Hres.
    split; [reflexivity | discriminate].
Qed.

(** [X14] A Polymarket market whose close date cannot be read never matches,
    whatever the Kalshi listing holds: that is the case when both [endDate]
    and [end_time] are missing, and also when [endDate] is a non-empty string
    that does not parse, since [end_time] is only consulted when [endDate] is
    falsy.  A returned market always comes from the listing and carries a
    series ticker. *)
Theorem unreadable_close_date_never_matches
        (rt : Runtime) (p : PolyMarket) (ks : list KalshiMarket) :
  (poly_close_time rt p = None -> findMatchingKalshiMarket rt p ks = None) /\
  (forall s, pm_endDate p = DString s -> s <> EmptyString ->
             date_parse rt s = None ->
             findMatchingKalshiMarket rt p ks = None) /\
  (forall k, findMatchingKalshiMarket rt p ks = Some k ->
             In k ks /\ km_series_ticker k <> None /\
             kalshi_close_time rt k <> None).
Proof.
  assert (Hnone : poly_close_time rt p = None ->
                  findMatchingKalshiMarket rt p ks = None).
  { intros E. unfold findMatchingKalshiMarket. fold (poly_close_time rt p).
    rewrite E. apply find_none_iff. intros k _. reflexivity. }
  split; [exact Hnone|]. split.
  - intros s Es Hne Hparse. apply Hnone.
    unfold poly_close_time, or_date. rewrite Es. cbn [date_truthy].
    destruct (String.eqb s EmptyString) eqn:E;
      [apply String.eqb_eq in E; contradiction|].
    cbn [negb getTime]. exact Hparse.
  - intros k Hk. unfold findMatchingKalshiMarket in Hk.
    apply find_some in Hk. destruct Hk as [Hin Hm]. split; [exact Hin|].
    unfold kalshi_matches in Hm. apply andb_true_iff in Hm. destruct Hm as [Ht Hs].
    split.
    + destruct (km_series_ticker k); [discriminate | discriminate].
    + unfold kalshi_close_time.
      destruct (getTime rt (km_expiration_time k)); [discriminate|].
      destruct (getTime rt (or_date _ _)); discriminate.
Qed.

Lemma unreadable_close_date_never_matches_witness :
  findMatchingKalshiMarket a_runtime pm_unreadable [km_btc] = None.
Proof.
  apply (proj1 (proj2 (unreadable_close_date_never_matches
                         a_runtime pm_unreadable [km_btc]))
               "soon"%string eq_refl); [discriminate | reflexivity].
Defined.

(** ** The Kalshi client *)

Lemma number_or_nonzero a d : ~ d == 0 -> ~ number_or a d == 0.
Proof.
  intros Hd. unfold number_or. destruct a as [q|]; [|exact Hd].
  destruct (Qeq_bool q 0) eqn:E; [exact Hd|].
  intros H. apply Qeq_bool_iff in H. congruence.
Qed.

Lemma number_or_number a d q :
  a = Some q -> ~ q == 0 -> number_or a d = q.
Proof.
  intros -> Hq. unfold number_or. now rewrite (Qeq_bool_false _ _ Hq).
Qed.

Lemma number_or_falsy a d : falsy_number a -> number_or a d = d.
Proof.
  intros [-> | (q & -> & Hq)]; [reflexivity|].
  unfold number_or. apply Qeq_bool_iff in Hq. now rewrite Hq.
Qed.

(** [X15] Kalshi's [getMarketPrices] rejects exactly when the SDK call is
    rejected or returns no market.  Otherwise each price is the ask when the
    ask is a number other than 0, the bid when the ask is missing or 0 and the
    bid is a number other than 0, and 50 when both are missing or 0, so a
    returned price is never 0; and a settlement price of 0 is returned as
    absent. *)
Theorem kalshi_prices_fall_back
        (rt : Runtime) (sdk : KalshiSdk) (h : history) (marketId : string) :
  (kalshi_getMarketPrices rt sdk h marketId = rejected <->
   sdk_getMarket sdk h marketId = rejected \/
   sdk_getMarket sdk h marketId = fulfilled None) /\
  (forall mp,
      kalshi_getMarketPrices rt sdk h marketId = fulfilled mp ->
      ~ upPrice mp == 0 /\ ~ downPrice mp == 0 /\
      (forall q, bettedPrice mp = Some q -> ~ q == 0) /\
      exists market,
        sdk_getMarket sdk h marketId = fulfilled (Some market) /\
        (forall q, yes_ask market = Some q -> ~ q == 0 -> upPrice mp = q) /\
        (falsy_number (yes_ask market) ->
         forall q, yes_bid market = Some q -> ~ q == 0 -> upPrice mp = q) /\
        (falsy_number (yes_ask market) -> falsy_number (yes_bid market) ->
         upPrice mp = 50) /\
        (forall q, no_ask market = Some q -> ~ q == 0 -> downPrice mp = q) /\
        (falsy_number (no_ask market) ->
         forall q, no_bid market = Some q -> ~ q == 0 -> downPrice mp = q) /\
        (falsy_number (no_ask market) -> falsy_number (no_bid market) ->
         downPrice mp = 50) /\
        (bettedPrice mp = None <-> falsy_number (info_betted_price market)) /\
        (forall q, info_betted_price market = Some q -> ~ q == 0 ->
                   bettedPrice mp = Some q)).
Proof.
  unfold kalshi_getMarketPrices.
  destruct (sdk_getMarket sdk h marketId) as [[market|]|]; split.
  - split; [discriminate | intros [E | E]; discriminate].
  - intros mp E. injection E as <-. cbn [upPrice downPrice bettedPrice].
    assert (H50 : ~ 50 == 0) by discriminate.
    split; [now apply number_or_nonzero, number_or_nonzero|].
    split; [now apply number_or_nonzero, number_or_nonzero|].
    split.
    { intros q. unfold JS.or_number.
      destruct (info_betted_price market) as [b|]; [|discriminate].
      destruct (Qeq_bool b 0) eqn:Eb; [discriminate|].
      intros E. injection E as <-. intros H. apply Qeq_bool_iff in H. congruence. }
    exists market. split; [reflexivity|].
    split; [intros q Ha Hq; now rewrite (number_or_number _ _ _ Ha Hq)|].
    split; [intros Ha q Hb Hq;
            now rewrite (number_or_falsy _ _ Ha), (number_or_number _ _ _ Hb Hq)|].
    split; [intros Ha Hb; now rewrite (number_or_falsy _ _ Ha), (number_or_falsy _ _ Hb)|].
    split; [intros q Ha Hq; now rewrite (number_or_number _ _ _ Ha Hq)|].
    split; [intros Ha q Hb Hq;
            now rewrite (number_or_falsy _ _ Ha), (number_or_number _ _ _ Hb Hq)|].
    split; [intros Ha Hb; now rewrite (number_or_falsy _ _ Ha), (number_or_falsy _ _ Hb)|].
    unfold JS.or_number, falsy_number. split.
    + destruct (info_betted_price market) as [b|]; [|split; auto].
      destruct (Qeq_bool b 0) eqn:Eb.
      * split; [|reflexivity]. intros _. right. exists b.
        split; [reflexivity | now apply Qeq_bool_iff].
      * split; [discriminate|].
        intros [E | (q & E & Hq)]; [discriminate|]. injection E as <-.
        apply Qeq_bool_iff in Hq. congruence.
    + intros q -> Hq. now rewrite (Qeq_bool_false _ _ Hq).
  - split; auto.
  - discriminate.
  - split; auto.
  - discriminate.
Qed.

Lemma kalshi_prices_fall_back_witness :
  exists mp,
    kalshi_getMarketPrices a_runtime sdk_bids_only [] "KXBTC-15M-T1" = fulfilled mp /\
    upPrice mp = 45 /\ downPrice mp = 48 /\ bettedPrice mp = None.
Proof.
  eexists. split; [reflexivity|].
  destruct (proj2 (kalshi_prices_fall_back a_runtime sdk_bids_only []
                     "KXBTC-15M-T1") _ eq_refl)
    as (_ & _ & _ & market & Hm & _ & Hup & _ & _ & Hdown & _ & Hb & _).
  injection Hm as <-.
  split; [|split].
  - apply Hup; [left; reflexivity | reflexivity | discriminate].
  - apply Hdown; [right; exists 0; split; reflexivity | reflexivity | discriminate].
  - apply Hb. right. exists 0. split; reflexivity.
Defined.

Lemma kalshi_price_clamp m :
  1 <= Qmax 1 (Qmin 99 m) /\ Qmax 1 (Qmin 99 m) <= 99 /\
  (1 <= m -> m <= 99 -> Qmax 1 (Qmin 99 m) == m) /\
  (m <= 1 -> Qmax 1 (Qmin 99 m) == 1) /\
  (99 <= m -> Qmax 1 (Qmin 99 m) == 99).
Proof.
  destruct (Q.min_spec 99 m) as [[H1 E1] | [H1 E1]];
    destruct (Q.max_spec 1 (Qmin 99 m)) as [[H2 E2] | [H2 E2]];
    repeat split; intros; lra.
Qed.

(** [X16] Kalshi's [buyToken] sends one limit buy order for [amount]
    contracts on the given ticker, priced on the given side only, at
    [maxPrice] clamped into [[1, 99]].  It rejects exactly when the SDK call
    is rejected; a fulfilled Trade records the unclamped [maxPrice], the
    amount, the side, and status filled only for an order reported filled. *)
Theorem kalshi_buyToken_clamps_price
        (rt : Runtime) (sdk : KalshiSdk) (h : history) (marketId : string)
        (kside : KalshiSide) (amount maxPrice : Q) :
  let request := kalshi_order_request marketId kside amount maxPrice in
  (exists price,
      1 <= price /\ price <= 99 /\
      (1 <= maxPrice -> maxPrice <= 99 -> price == maxPrice) /\
      (maxPrice <= 1 -> price == 1) /\
      (99 <= maxPrice -> price == 99) /\
      req_ticker request = marketId /\ req_count request = amount /\
      match kside with
      | yes => req_yes_price request = Some price /\ req_no_price request = None
      | no => req_no_price request = Some price /\ req_yes_price request = None
      end) /\
  (kalshi_buyToken rt sdk h marketId kside amount maxPrice = rejected <->
   sdk_createOrder sdk h request = rejected) /\
  (forall trade,
      kalshi_buyToken rt sdk h marketId kside amount maxPrice = fulfilled trade ->
      trade_price trade = maxPrice /\ trade_amount trade = amount /\
      trade_marketId trade = marketId /\
      (side trade = side_up <-> kside = yes) /\
      (trade_status trade = filled <->
       exists o, sdk_createOrder sdk h request = fulfilled (Some o) /\
                 order_status o = Some "filled"%string) /\
      trade_status trade <> failed).
Proof.
  cbv zeta. split; [|split].
  - exists (Qmax 1 (Qmin 99 maxPrice)).
    destruct (kalshi_price_clamp maxPrice) as (H1 & H2 & H3 & H4 & H5).
    repeat (split; [assumption|]).
    split; [reflexivity|]. split; [reflexivity|].
    destruct kside; split; reflexivity.
  - unfold kalshi_buyToken.
    destruct (sdk_createOrder sdk h _); split; congruence.
  - intros trade. unfold kalshi_buyToken.
    destruct (sdk_createOrder sdk h _) as [order|]; [|discriminate].
    intros E. injection E as <-. cbn.
    split; [reflexivity|]. split; [reflexivity|]. split; [reflexivity|].
    split; [destruct kside; split; congruence|].
    split.
    + destruct order as [o|].
      * destruct (order_status o) as [s|] eqn:Es.
        -- destruct (String.eqb s "filled") eqn:E.
           ++ apply String.eqb_eq in E. subst s. split; [|reflexivity].
              intros _. exists o. auto.
           ++ split; [discriminate|]. intros (o' & Eo & Es').
              injection Eo as <-. rewrite Es in Es'. injection Es' as ->.
              now rewrite String.eqb_refl in E.
        -- split; [discriminate|]. intros (o' & Eo & Es').
           injection Eo as <-. congruence.
      * split; [discriminate|]. intros (o' & Eo & _). discriminate.
    + destruct order as [o|]; [|discriminate].
      destruct (order_status o) as [s|]; [|discriminate].
      destruct (String.eqb s "filled"); discriminate.
Qed.


(** [X17] Kalshi's [isMarketResolved] and [redeemTokens] never reject: an SDK
    failure or an unknown market reads as [false].  [redeemTokens] makes no
    settlement call of its own and ignores the side: it answers exactly what
    [isMarketResolved] answers, true precisely when the SDK reports the
    market with status [resolved]. *)
Theorem kalshi_redeem_is_resolution_check
        (rt : Runtime) (sdk : KalshiSdk) (h : history) (marketId : string)
        (kside : KalshiSide) :
  (exists b, kalshi_isMarketResolved sdk h marketId = fulfilled b) /\
  kalshi_redeemTokens sdk h marketId kside = kalshi_isMarketResolved sdk h marketId /\
  (kalshi_redeemTokens sdk h marketId kside = fulfilled true <->
   exists market,
     sdk_getMarket sdk h marketId = fulfilled (Some market) /\
     info_status market = Some "resolved"%string) /\
  k_redeemTokens (kalshiClient rt sdk) h marketId yes =
  k_redeemTokens (kalshiClient rt sdk) h marketId no.
Proof.
  unfold kalshi_redeemTokens, kalshi_isMarketResolved. cbn [kalshiClient k_redeemTokens].
  unfold kalshi_redeemTokens, kalshi_isMarketResolved.
  destruct (sdk_getMarket sdk h marketId) as [[market|]|].
  - split; [eexists; reflexivity|].
    split; [destruct (status_is_resolved _); reflexivity|].
    split; [|reflexivity].
    unfold status_is_resolved. destruct (info_status market) as [s|] eqn:Es.
    + destruct (String.eqb s "resolved") eqn:E; cbn [negb].
      * apply String.eqb_eq in E. subst s. split; [|reflexivity].
        intros _. exists market. auto.
      * split; [discriminate|]. intros (m & Em & Es'). injection Em as <-.
        rewrite Es in Es'. injection Es' as ->. now rewrite String.eqb_refl in E.
    + cbn [negb]. split; [discriminate|]. intros (m & Em & Es').
      injection Em as <-. congruence.
  - split; [eexists; reflexivity|]. split; [reflexivity|]. split; [|reflexivity].
    cbn. split; [discriminate | intros (m & Em & _); discriminate].
  - split; [eexists; reflexivity|]. split; [reflexivity|]. split; [|reflexivity].
    cbn. split; [discriminate | intros (m & Em & _); discriminate].
Qed.

(** ** Kalshi listing: the page loop *)

(** What a run of the page loop that ends has done. *)
Lemma fetch_pages_ends sdk fuel h requests allMarkets cursor r requests' :
  fetch_pages sdk fuel h requests allMarkets cursor = Some (r, requests') ->
  exists k,
    length requests' = (length requests + S k)%nat /\
    (k = 0%nat \/ 200 * k + length allMarkets < 1000)%nat /\
    forall ms, r = fulfilled ms ->
      exists last,
        length ms = (length allMarkets + 200 * k + last)%nat /\
        (pages_within_size sdk -> last <= 200)%nat.
Proof.
  revert requests allMarkets cursor.
  induction fuel as [|fuel IH]; intros requests allMarkets cursor; [discriminate|].
  cbn [fetch_pages].
  destruct (sdk_getMarkets sdk h requests cursor) as [response|] eqn:Hpage.
  2:{ intros E. injection E as <- <-. exists 0%nat.
      rewrite length_app. cbn. split; [lia|]. split; [now left | discriminate]. }
  cbv zeta.
  set (markets := match page_markets response with Some ms => ms | None => [] end).
  assert (Hsize : pages_within_size sdk -> (length markets <= 200)%nat).
  { intros Hp. subst markets. destruct (page_markets response) as [ms|] eqn:Ems;
      [eapply Hp; eassumption | cbn; lia]. }
  assert (Hstop : forall ms, fulfilled (allMarkets ++ markets) = fulfilled ms ->
            exists last, length ms = (length allMarkets + 200 * 0 + last)%nat /\
                         (pages_within_size sdk -> last <= 200)%nat).
  { intros ms E. injection E as <-. exists (length markets).
    rewrite length_app. split; [lia | exact Hsize]. }
  destruct (_ || _) eqn:Hbreak.
  { intros E. injection E as <- <-. exists 0%nat. rewrite length_app. cbn [length].
    split; [lia|]. split; [now left | exact Hstop]. }
  destruct (length markets =? 200)%nat eqn:H200.
  2:{ intros E. injection E as <- <-. exists 0%nat. rewrite length_app. cbn [length].
      split; [lia|]. split; [now left | exact Hstop]. }
  intros E. apply IH in E. destruct E as (k & Hlen & Hk & Hres).
  apply Nat.eqb_eq in H200. apply orb_false_iff in Hbreak.
  destruct Hbreak as [_ Hlt]. apply Nat.leb_gt in Hlt.
  rewrite length_app in *. cbn [length] in Hlen.
  exists (S k). split; [lia|]. split; [right; lia|].
  intros ms Ems. destruct (Hres ms Ems) as (last & Hms & Hlast).
  exists last. split; [lia | exact Hlast].
Qed.

(** The loop records its requests in order, the first with the cursor it was
    started with. *)
Lemma fetch_pages_requests sdk fuel h requests allMarkets cursor r requests' :
  fetch_pages sdk fuel h requests allMarkets cursor = Some (r, requests') ->
  exists more, requests' = requests ++ cursor :: more.
Proof.
  revert requests allMarkets cursor.
  induction fuel as [|fuel IH]; intros requests allMarkets cursor; [discriminate|].
  cbn [fetch_pages].
  destruct (sdk_getMarkets sdk h requests cursor) as [response|];
    [|intros E; injection E as _ <-; now exists []].
  cbv zeta. destruct (_ || _); [intros E; injection E as _ <-; now exists []|].
  destruct (length _ =? 200)%nat; [|intros E; injection E as _ <-; now exists []].
  intros E. apply IH in E. destruct E as [more ->].
  rewrite <- app_assoc. eexists. reflexivity.
Qed.

(** Enough fuel ends the loop. *)
Lemma fetch_pages_enough sdk fuel h requests allMarkets cursor :
  (0 < fuel)%nat -> (1000 <= 200 * fuel + length allMarkets)%nat ->
  exists r requests',
    fetch_pages sdk fuel h requests allMarkets cursor = Some (r, requests').
Proof.
  revert requests allMarkets cursor.
  induction fuel as [|fuel IH]; intros requests allMarkets cursor Hpos Hfuel; [lia|].
  cbn [fetch_pages].
  destruct (sdk_getMarkets sdk h requests cursor) as [response|]; [|eauto].
  cbv zeta.
  destruct (_ || _) eqn:Hbreak; [eauto|].
  destruct (length _ =? 200)%nat eqn:H200; [|eauto].
  apply Nat.eqb_eq in H200. apply orb_false_iff in Hbreak.
  destruct Hbreak as [_ Hlt]. apply Nat.leb_gt in Hlt.
  rewrite length_app in Hlt. apply IH; rewrite ?length_app; lia.
Qed.

(** More fuel does not change the result. *)
Lemma fetch_pages_more_fuel sdk fuel h requests allMarkets cursor x :
  fetch_pages sdk fuel h requests allMarkets cursor = Some x ->
  forall extra,
    fetch_pages sdk (fuel + extra) h requests allMarkets cursor = Some x.
Proof.
  revert requests allMarkets cursor.
  induction fuel as [|fuel IH]; intros requests allMarkets cursor; [discriminate|].
  intros E extra. cbn [fetch_pages Nat.add] in *.
  destruct (sdk_getMarkets sdk h requests cursor) as [response|]; [|exact E].
  cbv zeta in *. destruct (_ || _); [exact E|].
  destruct (length _ =? 200)%nat; [|exact E]. now apply IH.
Qed.

(** [X18] Kalshi's [getActiveBTCMarkets] always ends: the page loop makes at
    least one and at most five requests, the first without a cursor, whatever
    the SDK answers, and more iterations would not change the result.  When
    no page exceeds the requested size of 200, a fulfilled result holds at
    most 1000 markets. *)
Theorem kalshi_listing_terminates
        (sdk : KalshiSdk) (h : history) (fuel : nat) :
  (5 <= fuel)%nat ->
  exists requests,
    fetch_pages sdk fuel h [] [] None =
      Some (kalshi_getActiveBTCMarkets sdk h, requests) /\
    (1 <= length requests <= 5)%nat /\
    hd_error requests = Some None /\
    (pages_within_size sdk ->
     forall ms, kalshi_getActiveBTCMarkets sdk h = fulfilled ms ->
                (length ms <= 1000)%nat).
Proof.
  intros Hfuel.
  destruct (fetch_pages_enough sdk 5 h [] [] None) as (r & requests & E5);
    [lia | cbn; lia |].
  exists requests.
  assert (Hget : kalshi_getActiveBTCMarkets sdk h = r)
    by (unfold kalshi_getActiveBTCMarkets; now rewrite E5).
  rewrite Hget. split.
  { replace fuel with (5 + (fuel - 5))%nat by lia.
    now apply fetch_pages_more_fuel. }
  destruct (fetch_pages_ends sdk 5 h [] [] None r requests E5) as (k & Hlen & Hk & Hres).
  cbn [length] in *. split; [lia|]. split.
  - destruct (fetch_pages_requests sdk 5 h [] [] None r requests E5) as [more ->].
    reflexivity.
  - intros Hsize ms Ems. destruct (Hres ms Ems) as (last & Hms & Hlast).
    specialize (Hlast Hsize). lia.
Qed.

Lemma kalshi_listing_terminates_witness :
  exists requests,
    fetch_pages sdk_empty 5 [] [] [] None =
      Some (kalshi_getActiveBTCMarkets sdk_empty [], requests) /\
    (1 <= length requests <= 5)%nat.
Proof.
  destruct (kalshi_listing_terminates sdk_empty [] 5) as (requests & E & Hlen & _);
    [apply Nat.le_refl|].
  exists requests. split; [exact E | exact Hlen].
Defined.


(** ** The Polymarket client: resolution and redemption *)

(** [X19] Polymarket's [isMarketResolved] and [redeemTokens] never reject.
    Both answer [false] when the CLOB client cannot be initialised, when the
    market listing fails, or when no listed market has the id as its
    [conditionId] or [id].  For a listed market, [isMarketResolved] is its
    [resolved] flag or status [resolved], and [redeemTokens] succeeds exactly
    when the redemption call is fulfilled with a value other than [null]. *)
Theorem polymarket_checks_never_reject
        (clob : ClobSdk) (h : history) (marketId : string) (outcome : PolyOutcome) :
  (exists b, poly_isMarketResolved clob h marketId = fulfilled b) /\
  (exists b, poly_redeemTokens clob h marketId outcome = fulfilled b) /\
  (clob_ensureClient clob h = rejected \/
   clob_getMarkets clob h = rejected \/
   (exists markets,
       clob_getMarkets clob h = fulfilled markets /\
       forall m, In m markets -> clob_market_is marketId m = false) ->
   poly_isMarketResolved clob h marketId = fulfilled false /\
   poly_redeemTokens clob h marketId outcome = fulfilled false) /\
  (forall u markets market,
      clob_ensureClient clob h = fulfilled u ->
      clob_getMarkets clob h = fulfilled markets ->
      find (clob_market_is marketId) markets = Some market ->
      poly_isMarketResolved clob h marketId =
        fulfilled (clob_resolved market || status_is_resolved (clob_status market)) /\
      (poly_redeemTokens clob h marketId outcome = fulfilled true <->
       exists v, clob_redeemPosition clob h (clob_token_id market outcome marketId)
                 = fulfilled (Some v))).
Proof.
  unfold poly_isMarketResolved, poly_redeemTokens.
  split; [|split; [|split]].
  - destruct (clob_ensureClient clob h); [|eauto].
    destruct (clob_getMarkets clob h) as [markets|]; [|eauto].
    destruct (find _ markets); eauto.
  - destruct (clob_ensureClient clob h); [|eauto].
    destruct (clob_getMarkets clob h) as [markets|]; [|eauto].
    destruct (find _ markets); [|eauto].
    destruct (clob_redeemPosition clob h _) as [[v|]|]; eauto.
  - intros [E | [E | (markets & E & Hnone)]].
    + now rewrite E.
    + rewrite E. now destruct (clob_ensureClient clob h).
    + rewrite E. apply find_none_iff in Hnone. rewrite Hnone.
      now destruct (clob_ensureClient clob h).
  - intros u markets market Eu Em Ef. rewrite Eu, Em, Ef. split; [reflexivity|].
    destruct (clob_redeemPosition clob h _) as [[v|]|]; split;
      try discriminate; try reflexivity; eauto.
    + intros [v E]. discriminate.
    + intros [v E]. discriminate.
Qed.

(** ** The positions summary *)

Lemma fold_left_map {A B C} (g : A -> C -> A) (f : B -> C) (l : list B) (a : A) :
  fold_left (fun s x => g s (f x)) l a = fold_left g (map f l) a.
Proof.
  revert a. induction l as [|x l IH]; intros a; [reflexivity | apply IH].
Qed.

Lemma evolves_fields p p' :
  evolves p p' ->
  pos_totalCost p' = pos_totalCost p /\ expectedProfit p' = expectedProfit p /\
  pos_marketId p' = pos_marketId p.
Proof. intros [_ [-> | [_ ->]]]; repeat split. Qed.

Lemma evolves_counts l l' :
  Forall2 evolves l l' ->
  map pos_totalCost l' = map pos_totalCost l /\
  map expectedProfit l' = map expectedProfit l /\
  (length (filter is_active l') + length (filter is_redeemed l') =
   length (filter is_active l) + length (filter is_redeemed l))%nat /\
  (length (filter is_redeemed l) <= length (filter is_redeemed l'))%nat.
Proof.
  induction 1 as [|p p' l l' Hev _ IH]; [repeat split; auto|].
  destruct IH as (Hc & Hp & Hsum & Hmono).
  destruct (evolves_fields _ _ Hev) as (Ec & Ep & _).
  cbn [map filter]. rewrite Hc, Hp, Ec, Ep.
  split; [reflexivity|]. split; [reflexivity|].
  destruct Hev as [Hkeep [-> | [Hact ->]]].
  - destruct (is_active p), (is_redeemed p); cbn [length]; lia.
  - assert (E1 : is_active p = true) by (unfold is_active; now rewrite Hact).
    assert (E2 : is_redeemed p = false) by (unfold is_redeemed; now rewrite Hact).
    change (is_active (set_status redeemed p)) with false.
    change (is_redeemed (set_status redeemed p)) with true.
    rewrite E1, E2. cbn [length]. lia.
Qed.

(** [X20] A poll leaves the money totals of the summary as they are and only
    moves Positions from the active count to the redeemed count; and in every
    state the bot reaches from the empty ledger the two counts add up to the
    size of the ledger. *)
Theorem summary_is_conserved
        (rt : Runtime) (pc : PolymarketClient) (kc : KalshiClient) (bot : BotConfig) :
  (forall w,
      let before := getPositionsSummary (positions w) in
      let after := getPositionsSummary (positions (snd (checkAndRedeem pc kc w))) in
      summary_totalCost after = summary_totalCost before /\
      summary_expectedProfit after = summary_expectedProfit before /\
      (summary_active after + summary_redeemed after =
       summary_active before + summary_redeemed before)%nat /\
      (summary_redeemed before <= summary_redeemed after)%nat) /\
  (forall ticks,
      let s := getPositionsSummary (positions (run rt pc kc bot ticks initial)) in
      (summary_active s + summary_redeemed s =
       length (positions (run rt pc kc bot ticks initial)))%nat).
Proof.
  split.
  - intros w. cbv zeta. unfold getPositionsSummary.
    cbn [summary_totalCost summary_expectedProfit summary_active summary_redeemed].
    destruct (checkAndRedeem_evolves pc kc w) as [_ Hev].
    destruct (evolves_counts _ _ Hev) as (Hc & Hp & Hsum & Hmono).
    rewrite (fold_left_map Qplus pos_totalCost),
            (fold_left_map Qplus pos_totalCost (positions w)), Hc.
    rewrite (fold_left_map number_add expectedProfit),
            (fold_left_map number_add expectedProfit (positions w)), Hp.
    repeat split; assumption.
  - intros ticks. cbv zeta. unfold getPositionsSummary.
    cbn [summary_active summary_redeemed].
    pose proof (reachable_positions_recorded_aux rt pc kc bot ticks) as Hall.
    induction Hall as [|p l (Hst & _) _ IH]; [reflexivity|].
    cbn [filter length]. unfold is_active at 1, is_redeemed at 1.
    destruct (status p); cbn [length]; try lia. congruence.
Qed.

(** ** The scan tick as a whole *)

Lemma scan_loop_returns rt pc kc bot mds w :
  fst (scan_loop rt pc kc bot mds w) = returned tt.
Proof.
  revert w. induction mds as [|md mds IH]; intros w; [reflexivity|].
  cbn [scan_loop]. unfold bind.
  pose proof (scan_market_positions rt pc kc bot md w) as [Hr _].
  destruct (scan_market rt pc kc bot md w) as [r w1]. cbn [fst] in Hr. subst r.
  apply IH.
Qed.

(** [X21] A scan tick never throws.  When the matching returns no pair, which
    is what it does after any rejected listing or price request, the tick
    ends there: the only venue calls are those of the matching, no order is
    placed and the ledger is not touched. *)
Theorem scan_tick_fails_open
        (rt : Runtime) (pc : PolymarketClient) (kc : KalshiClient)
        (bot : BotConfig) (w : World) :
  fst (scanAndTrade rt pc kc bot w) = returned tt /\
  (fst (matchMarkets rt pc kc w) = returned [] ->
   snd (scanAndTrade rt pc kc bot w) = snd (matchMarkets rt pc kc w) /\
   positions (snd (scanAndTrade rt pc kc bot w)) = positions w) /\
  (poly_listing pc (log w) = rejected \/ kalshi_listing pc kc (log w) = rejected ->
   snd (scanAndTrade rt pc kc bot w) =
   {| positions := positions w; log := log w ++ listing_events pc kc (log w) |}).
Proof.
  assert (Hempty : fst (matchMarkets rt pc kc w) = returned [] ->
                   snd (scanAndTrade rt pc kc bot w) = snd (matchMarkets rt pc kc w)).
  { unfold scanAndTrade, try_catch, bind.
    destruct (matchMarkets rt pc kc w) as [[mds|] wm]; [|discriminate].
    cbn [fst snd]. intros E. injection E as ->. reflexivity. }
  split; [|split].
  - unfold scanAndTrade, try_catch, bind.
    destruct (matchMarkets rt pc kc w) as [[mds|] wm]; [|reflexivity].
    destruct (length mds =? 0)%nat; [reflexivity|].
    pose proof (scan_loop_returns rt pc kc bot mds wm) as Hr.
    destruct (scan_loop rt pc kc bot mds wm) as [r w']. cbn [fst] in Hr. now subst r.
  - intros E. split; [now apply Hempty|].
    rewrite (Hempty E). apply keeps_matchMarkets.
  - intros Hrej.
    pose proof (listing_rejected_closed rt pc kc w Hrej) as Hm.
    rewrite Hempty by now rewrite Hm. now rewrite Hm.
Qed.

(** [X22] A scan tick leaves every existing ledger entry exactly as it is and
    only appends: each appended Position is ACTIVE and hedged with the
    configured amount. *)
Theorem scan_tick_only_appends
        (rt : Runtime) (pc : PolymarketClient) (kc : KalshiClient)
        (bot : BotConfig) (w : World) :
  exists added,
    positions (snd (scanAndTrade rt pc kc bot w)) = positions w ++ added /\
    Forall (fun p => status p = active /\ hedged (configured_amount bot) p) added.
Proof.
  destruct (appends_scanAndTrade rt pc kc bot w) as (added & E & Hadded).
  exists added. split; [exact E|].
  revert Hadded. apply Forall_impl. intros p (Hact & _ & Hh & _). now split.
Qed.

(** [X23] As long as nothing is redeemed the duplicate guard does its job:
    after any number of scan ticks from the empty ledger all Positions are
    ACTIVE, no two of them are on the same marketId, and so there is at most
    one ACTIVE Position per marketId. *)
Theorem scan_guard_holds_without_polls
        (rt : Runtime) (pc : PolymarketClient) (kc : KalshiClient)
        (bot : BotConfig) (n : nat) :
  let ps := positions (run rt pc kc bot (repeat Scan n) initial) in
  Forall (fun p => status p = active) ps /\
  NoDup (map pos_marketId ps) /\
  at_most_one_active ps.
Proof.
  cbv zeta.
  assert (H : forall w, one_entry_per_market (positions w) ->
                        one_entry_per_market
                          (positions (run rt pc kc bot (repeat Scan n) w))).
  { induction n as [|n IH]; intros w Hw; [exact Hw|].
    cbn [repeat run fold_left]. apply IH. now apply scanAndTrade_invariant. }
  assert (Hinv : one_entry_per_market
                   (positions (run rt pc kc bot (repeat Scan n) initial)))
    by (apply H; split; constructor).
  destruct Hinv as [Hall Hnd]. split; [exact Hall|]. split; [exact Hnd|].
  apply one_entry_at_most_one_active. now split.
Qed.
